(** * Camera model and georeferencing engine: a shallow embedding over the reals

    The geometric kernel of the UAV georeferencing simulator
    ([core/camera_model.py] and [core/georeferencing_engine.py]) is
    embedded here with numpy's float64 read as the real numbers [R]:
    arithmetic is exact, NaN is the [None] of an [option], and Python
    exceptions are the [Raised] outcome.  Control flow (guards, loops,
    early returns) follows the source line by line. *)

From Stdlib Require Import Reals Lra Psatz List ZArith Lia Bool.
From Stdlib Require String.
Import ListNotations.
Local Open Scope R_scope.

(** ** Python and numpy basics *)

(** Python comparisons on floats, as booleans. *)
Definition Rleb (x y : R) : bool := if Rle_dec x y then true else false.
Definition Rltb (x y : R) : bool := if Rlt_dec x y then true else false.
Definition Reqb (x y : R) : bool := if Req_dec_T x y then true else false.

Notation "x <=? y" := (Rleb x y) (at level 70, no associativity) : R_scope.
Notation "x <? y" := (Rltb x y) (at level 70, no associativity) : R_scope.
Notation "x =? y" := (Reqb x y) (at level 70, no associativity) : R_scope.

(** Exceptions that the modelled code can raise. *)
Inductive exn : Type :=
| ValueError
| OverflowError
| TransformNotInvertibleError.

Inductive outcome (A : Type) : Type :=
| Returned (a : A)
| Raised (ex : exn).
Arguments Returned {A} a.
Arguments Raised {A} ex.

Definition bind {A B : Type} (m : outcome A) (k : A -> outcome B) : outcome B :=
  match m with
  | Returned a => k a
  | Raised ex => Raised ex
  end.

Notation "x <- m ;; k" := (bind m (fun x => k))
  (at level 61, m at next level, right associativity).

(** Exceptions raised outside the ray/terrain kernel, and the outcome of
    the functions that can raise them. *)
Inductive caller_exn : Type :=
| RuntimeError
| ZeroDivisionError
| IndexError
| Kernel (ex : exn).

Inductive attempt (A : Type) : Type :=
| Done (a : A)
| Failed (ex : caller_exn).
Arguments Done {A} a.
Arguments Failed {A} ex.

(** Truth value of [final_elev] in [final_elev if final_elev else ...]:
    [None] and the float zero are false, every other float is true. *)
Definition truthy (o : option R) : bool :=
  match o with
  | Some v => negb (v =? 0)
  | None => false
  end.

(** Python's [int(x)] on a float: truncation towards zero. *)
Definition int (r : R) : Z :=
  if Rle_dec 0 r then Int_part r else (- Int_part (- r))%Z.

(** A numpy array of three floats. *)
Record Vec3 : Type := mkVec3 { vx : R; vy : R; vz : R }.

Definition vadd (p q : Vec3) : Vec3 := mkVec3 (vx p + vx q) (vy p + vy q) (vz p + vz q).
Definition vsub (p q : Vec3) : Vec3 := mkVec3 (vx p - vx q) (vy p - vy q) (vz p - vz q).
Definition vscale (v : Vec3) (k : R) : Vec3 := mkVec3 (vx v * k) (vy v * k) (vz v * k).
Definition vdiv (v : Vec3) (k : R) : Vec3 := mkVec3 (vx v / k) (vy v / k) (vz v / k).

(** A 3x3 numpy array, by rows. *)
Record Mat3 : Type := mkMat3 { row0 : Vec3; row1 : Vec3; row2 : Vec3 }.

Definition dot (p q : Vec3) : R := vx p * vx q + vy p * vy q + vz p * vz q.

Definition col0 (m : Mat3) : Vec3 := mkVec3 (vx (row0 m)) (vx (row1 m)) (vx (row2 m)).
Definition col1 (m : Mat3) : Vec3 := mkVec3 (vy (row0 m)) (vy (row1 m)) (vy (row2 m)).
Definition col2 (m : Mat3) : Vec3 := mkVec3 (vz (row0 m)) (vz (row1 m)) (vz (row2 m)).

(** [m.T] *)
Definition transpose (m : Mat3) : Mat3 := mkMat3 (col0 m) (col1 m) (col2 m).

(** [m @ v] *)
Definition matvec (m : Mat3) (v : Vec3) : Vec3 :=
  mkVec3 (dot (row0 m) v) (dot (row1 m) v) (dot (row2 m) v).

(** [m @ n] *)
Definition matmul (m n : Mat3) : Mat3 :=
  let line (r : Vec3) := mkVec3 (dot r (col0 n)) (dot r (col1 n)) (dot r (col2 n)) in
  mkMat3 (line (row0 m)) (line (row1 m)) (line (row2 m)).

Definition identity3 : Mat3 :=
  mkMat3 (mkVec3 1 0 0) (mkVec3 0 1 0) (mkVec3 0 0 1).

(** Boolean-mask indexing [l[mask]] and [np.where(mask)[0]]. *)
Definition select {A : Type} (mask : list bool) (l : list A) : list A :=
  map snd (filter fst (combine mask l)).

Definition where_ (mask : list bool) : list nat :=
  select mask (seq 0 (length mask)).

(** In-place item assignment [l[i] = v] (the index is in range wherever the
    model uses it). *)
Fixpoint set_nth {A : Type} (l : list A) (i : nat) (v : A) : list A :=
  match l, i with
  | [], _ => []
  | _ :: tl, O => v :: tl
  | hd :: tl, S i' => hd :: set_nth tl i' v
  end.

(** Indexed read-modify-write, for the column assignments
    [image_points[idx, 0] = xs]. *)
Definition update_nth {A : Type} (l : list A) (i : nat) (g : A -> A) : list A :=
  match nth_error l i with
  | Some old => set_nth l i (g old)
  | None => l
  end.

Fixpoint scatter {A B : Type} (g : B -> A -> A) (l : list A)
         (idx : list nat) (vals : list B) : list A :=
  match idx, vals with
  | i :: idx', v :: vals' => scatter g (update_nth l i (g v)) idx' vals'
  | _, _ => l
  end.

Module np.

Definition deg2rad (x : R) : R := x * (PI / 180).

(** [np.linalg.norm] of a 3-vector. *)
Definition linalg_norm (v : Vec3) : R :=
  sqrt (vx v * vx v + vy v * vy v + vz v * vz v).

Definition sum (l : list R) : R := fold_right Rplus 0 l.

Definition mean (l : list R) : R := sum l / INR (length l).

(** [np.min] and [np.max] of a 2-D array; [None] stands for the
    [ValueError] numpy raises on an array without elements. *)
Definition reduce (op : R -> R -> R) (arr : list (list R)) : option R :=
  match concat arr with
  | [] => None
  | x :: tl => Some (fold_left op tl x)
  end.

Definition min : list (list R) -> option R := reduce Rmin.
Definition max : list (list R) -> option R := reduce Rmax.

(** [arr.shape] of a 2-D array stored as a list of rows. *)
Definition shape (arr : list (list R)) : nat * nat :=
  (length arr, length (hd [] arr)).

(** [arr[r, c]] for indices in range. *)
Definition item (arr : list (list R)) (r c : nat) : R :=
  nth c (nth r arr []) 0.

(** [np.linspace(start, stop, num)]: [num] evenly spaced samples, the
    last one set to [stop] itself. *)
Definition linspace (start stop : R) (num : nat) : list R :=
  match num with
  | O => []
  | S O => [start]
  | S div =>
      let step := (stop - start) / INR div in
      map (fun i => start + INR i * step) (seq 0 div) ++ [stop]
  end.

(** [np.flip(values, axis)] for the two axes of a 2-D array. *)
Definition flip (axis : nat) (values : list (list R)) : list (list R) :=
  match axis with
  | O => rev values
  | _ => map (@rev R) values
  end.

End np.

(** ** The [affine] library: a 2-D affine transform

    [x = a * col + b * row + c] and [y = d * col + e * row + f]. *)
Module Affine.

Record t : Type := mk { a : R; b : R; c : R; d : R; e : R; f : R }.

Definition determinant (s : t) : R := a s * e s - b s * d s.

(** The coefficients of the inverse of a transform that has one. *)
Definition inverse (s : t) : t :=
  let idet := 1 / determinant s in
  let ra := e s * idet in
  let rb := - b s * idet in
  let rd := - d s * idet in
  let re := a s * idet in
  mk ra rb (- c s * ra - f s * rb) rd re (- c s * rd - f s * re).

(** [~s] *)
Definition invert (s : t) : outcome t :=
  if determinant s =? 0 then Raised TransformNotInvertibleError
  else Returned (inverse s).

(** [rasterio.transform.from_origin(west, north, xsize, ysize)], the
    transform of a north-up raster. *)
Definition from_origin (west north xsize ysize : R) : t :=
  mk xsize 0 west 0 (- ysize) north.

(** [s * (x, y)] *)
Definition apply (s : t) (xy : R * R) : R * R :=
  let (x, y) := xy in
  (x * a s + y * b s + c s, x * d s + y * e s + f s).

End Affine.

(** ** [rasterio.transform.rowcol]: the row and column of the cell that
    contains a world point, with the default [op=math.floor] *)
Module rasterio.

Definition rowcol (transform : Affine.t) (x y : R) : outcome (Z * Z) :=
  inv <- Affine.invert transform ;;
  let (fcol, frow) := Affine.apply inv (x, y) in
  Returned (Int_part frow, Int_part fcol).

End rasterio.

(** ** scipy's [RegularGridInterpolator], linear method, two dimensions,
    [bounds_error=False], [fill_value=nan] *)
Module scipy.

Fixpoint strictly_ascending (p : list R) : bool :=
  match p with
  | x :: ((y :: _) as tl) => (x <? y) && strictly_ascending tl
  | _ => true
  end.

Fixpoint strictly_descending (p : list R) : bool :=
  match p with
  | x :: ((y :: _) as tl) => (y <? x) && strictly_descending tl
  | _ => true
  end.

(** The grid coordinates are stored ascending; a descending axis is
    reversed together with the values along it. *)
Record RegularGridInterpolator : Type := mkRGI {
  grid0 : list R;
  grid1 : list R;
  values : list (list R)
}.

Definition check_points (p : list R) : outcome (list R * bool) :=
  if strictly_ascending p then Returned (p, false)
  else if strictly_descending p then Returned (rev p, true)
  else Raised ValueError.

Definition check_dimensionality (p0 p1 : list R) (vals : list (list R)) : bool :=
  (length vals =? length p0)%nat
  && forallb (fun row => (length row =? length p1)%nat) vals.

Definition make (points0 points1 : list R) (vals : list (list R))
  : outcome RegularGridInterpolator :=
  g0 <- check_points points0 ;;
  g1 <- check_points points1 ;;
  if negb (check_dimensionality points0 points1 vals) then Raised ValueError
  else
    let vals := if snd g0 then np.flip 0 vals else vals in
    let vals := if snd g1 then np.flip 1 vals else vals in
    Returned (mkRGI (fst g0) (fst g1) vals).

(** The query lies outside the grid's range along one axis. *)
Definition out_of_bounds (grid : list R) (x : R) : bool :=
  (x <? hd 0 grid) || (last grid 0 <? x).

(** Index [i] of the cell [grid[i] <= x < grid[i+1]] of an ascending
    grid, the last cell being closed on the right: [i] ranges over
    [0 .. length grid - 2]. *)
Fixpoint find_interval (grid : list R) (x : R) : nat :=
  match grid with
  | _ :: ((g1 :: _ :: _) as tl) =>
      if g1 <=? x then S (find_interval tl x) else O
  | _ => O
  end.

(** Position of [x] inside its cell, in [0, 1]; [0] on an axis with a
    single sample. *)
Definition norm_distance (grid : list R) (i : nat) (x : R) : R :=
  match grid with
  | [_] => 0
  | _ => (x - nth i grid 0) / (nth (S i) grid 0 - nth i grid 0)
  end.

(** [itp([x0, x1])[0]]; [None] is the NaN fill value. *)
Definition call (itp : RegularGridInterpolator) (x0 x1 : R) : option R :=
  if out_of_bounds (grid0 itp) x0 || out_of_bounds (grid1 itp) x1 then None
  else
    let i0 := find_interval (grid0 itp) x0 in
    let i1 := find_interval (grid1 itp) x1 in
    let y0 := norm_distance (grid0 itp) i0 x0 in
    let y1 := norm_distance (grid1 itp) i1 x1 in
    let v := values itp in
    Some (np.item v i0 i1 * (1 - y0) * (1 - y1)
          + np.item v i0 (S i1) * (1 - y0) * y1
          + np.item v (S i0) i1 * y0 * (1 - y1)
          + np.item v (S i0) (S i1) * y0 * y1).

End scipy.

(** ** [core/camera_model.py] *)
Module CameraModel.

(** The nested [camera_params] dictionary. *)
Record camera_params : Type := mkParams {
  focal_length_px : R;
  sensor_size_px : R * R;
  principal_point_px : option (R * R);
  rotation_roll : R;
  rotation_pitch : R;
  rotation_yaw : R;
  position_meters : Vec3
}.

Record t : Type := mk {
  f_px : R;
  w_px : R;
  h_px : R;
  cx : R;
  cy : R;
  roll : R;
  pitch : R;
  yaw : R;
  R_cam_to_world : Mat3;
  camera_pos_world : Vec3
}.

Definition _create_rotation_matrix (roll_deg pitch_deg yaw_deg : R) : Mat3 :=
  let gamma := np.deg2rad roll_deg in
  let beta := np.deg2rad pitch_deg in
  let alpha := np.deg2rad yaw_deg in
  let Rx := mkMat3 (mkVec3 1 0 0)
                   (mkVec3 0 (cos gamma) (- sin gamma))
                   (mkVec3 0 (sin gamma) (cos gamma)) in
  let Ry := mkMat3 (mkVec3 (cos beta) 0 (sin beta))
                   (mkVec3 0 1 0)
                   (mkVec3 (- sin beta) 0 (cos beta)) in
  let Rz := mkMat3 (mkVec3 (cos alpha) (- sin alpha) 0)
                   (mkVec3 (sin alpha) (cos alpha) 0)
                   (mkVec3 0 0 1) in
  let R_user := matmul (matmul Rz Ry) Rx in
  let R_base := mkMat3 (mkVec3 1 0 0)
                       (mkVec3 0 (-1) 0)
                       (mkVec3 0 0 (-1)) in
  matmul R_user R_base.

Definition __init__ (p : camera_params) : t :=
  let f_px := focal_length_px p in
  let w_px := fst (sensor_size_px p) in
  let h_px := snd (sensor_size_px p) in
  let (cx, cy) :=
    match principal_point_px p with
    | Some pp => (fst pp, snd pp)
    | None => (w_px / 2, h_px / 2)
    end in
  let roll := rotation_roll p in
  let pitch := rotation_pitch p in
  let yaw := rotation_yaw p in
  mk f_px w_px h_px cx cy roll pitch yaw
     (_create_rotation_matrix roll pitch yaw)
     (position_meters p).

Definition pixel_to_ray (self : t) (pixel_coord : R * R) : Vec3 * Vec3 :=
  let (u, v) := pixel_coord in
  let x_prime := u - cx self in
  let y_prime := cy self - v in
  let vec_camera := mkVec3 x_prime y_prime (f_px self) in
  let ray_direction_world := matvec (R_cam_to_world self) vec_camera in
  let norm := np.linalg_norm ray_direction_world in
  if norm <? 1e-9 then (camera_pos_world self, mkVec3 0 0 (-1))
  else
    let ray_direction_normalized := vdiv ray_direction_world norm in
    (camera_pos_world self, ray_direction_normalized).

Definition world_to_camera_batch (self : t) (world_points : list Vec3) : list Vec3 :=
  let translated := map (fun p => vsub p (camera_pos_world self)) world_points in
  let R_world_to_cam := transpose (R_cam_to_world self) in
  map (matvec R_world_to_cam) translated.

Definition project_points_batch (self : t) (world_points : list Vec3)
  : list (R * R) * list bool :=
  let N := length world_points in
  let image_points := repeat (0, 0) N in
  let valid_mask := repeat false N in
  let pts_camera := world_to_camera_batch self world_points in
  let front_mask := map (fun p => 0 <? vz p) pts_camera in
  if existsb (fun m => m) front_mask then
    let valid_pts := select front_mask pts_camera in
    let x_normalized := map (fun p => vx p / vz p) valid_pts in
    let y_normalized := map (fun p => vy p / vz p) valid_pts in
    let pixel_x := map (fun xn => f_px self * xn + cx self) x_normalized in
    let pixel_y := map (fun yn => cy self - f_px self * yn) y_normalized in
    let in_bounds :=
      map (fun xy : R * R =>
             let (px, py) := xy in
             (0 <=? px) && (px <? w_px self) && (0 <=? py) && (py <? h_px self))
          (combine pixel_x pixel_y) in
    let valid_indices := where_ front_mask in
    let final_valid := select in_bounds valid_indices in
    let image_points :=
      scatter (fun x (old : R * R) => (x, snd old))
              image_points final_valid (select in_bounds pixel_x) in
    let image_points :=
      scatter (fun y (old : R * R) => (fst old, y))
              image_points final_valid (select in_bounds pixel_y) in
    let valid_mask :=
      scatter (fun (b : bool) (_ : bool) => b)
              valid_mask final_valid (repeat true (length final_valid)) in
    (image_points, valid_mask)
  else (image_points, valid_mask).

Definition world_to_pixel (self : t) (world_point : Vec3) : option (R * R) :=
  let P_world := vsub world_point (camera_pos_world self) in
  let R_world_to_cam := transpose (R_cam_to_world self) in
  let P_cam := matvec R_world_to_cam P_world in
  if vz P_cam <=? 0 then None
  else
    let x_normalized := vx P_cam / vz P_cam in
    let y_normalized := vy P_cam / vz P_cam in
    let u := f_px self * x_normalized + cx self in
    let v := cy self - f_px self * y_normalized in
    if (0 <=? u) && (u <? w_px self) && (0 <=? v) && (v <? h_px self)
    then Some (u, v)
    else None.

(** The four image corners, clockwise from the top-left one. *)
Definition image_corners (self : t) : list (R * R) :=
  [ (0, 0);
    (w_px self - 1, 0);
    (w_px self - 1, h_px self - 1);
    (0, h_px self - 1) ].

(** Parameter [t] of the crossing of a ray with the plane
    [z = ground_elevation]. *)
Definition plane_parameter (ground_elevation : R) (ray_origin ray_direction : Vec3) : R :=
  (ground_elevation - vz ray_origin) / vz ray_direction.

(** One iteration of the loop over the corners: the footprint after
    visiting [pixel_coord]. *)
Definition corner_step (self : t) (ground_elevation : R)
           (footprint : list (R * R)) (pixel_coord : R * R) : list (R * R) :=
  let (ray_origin, ray_direction) := pixel_to_ray self pixel_coord in
  if Rabs (vz ray_direction) <? 1e-9 then footprint
  else
    let t := plane_parameter ground_elevation ray_origin ray_direction in
    if t <? 0 then footprint
    else
      let intersection_point := vadd ray_origin (vscale ray_direction t) in
      footprint ++ [(vx intersection_point, vy intersection_point)].

Definition compute_ground_coverage (self : t) (ground_elevation : R)
  : list (R * R) * R :=
  let height_agl := vz (camera_pos_world self) - ground_elevation in
  if height_agl <=? 0 then ([], 0)
  else
    let footprint :=
      fold_left (corner_step self ground_elevation) (image_corners self) [] in
    if negb (length footprint =? 4)%nat then ([], 0)
    else
      let center_x := np.mean (map fst footprint) in
      let center_y := np.mean (map snd footprint) in
      let distances :=
        map (fun p : R * R =>
               sqrt ((fst p - center_x) ^ 2 + (snd p - center_y) ^ 2))
            footprint in
      let coverage_radius := np.mean distances in
      (footprint, coverage_radius).

End CameraModel.

(** ** [core/georeferencing_engine.py] *)
Module GeoreferencingEngine.

Record bounds : Type := mkBounds { min_x : R; max_x : R; min_y : R; max_y : R }.

Record t : Type := mk {
  dem : list (list R);
  transform : Affine.t;
  inv_transform : Affine.t;
  dem_height : nat;
  dem_width : nat;
  dem_transform : Affine.t;
  dem_bounds : bounds;
  interpolator : option scipy.RegularGridInterpolator
}.

Definition _create_interpolator (dem : list (list R)) (dem_bounds : bounds)
  : outcome scipy.RegularGridInterpolator :=
  let (height, width) := np.shape dem in
  let x_coords := np.linspace (min_x dem_bounds) (max_x dem_bounds) width in
  let y_coords := np.linspace (max_y dem_bounds) (min_y dem_bounds) height in
  scipy.make y_coords x_coords dem.

Definition __init__ (dem_data : list (list R)) (dem_transform : Affine.t) : outcome t :=
  inv <- Affine.invert dem_transform ;;
  let (dem_height, dem_width) := np.shape dem_data in
  let dem_bounds :=
    mkBounds (Affine.c dem_transform)
             (Affine.c dem_transform + Affine.a dem_transform * INR dem_width)
             (Affine.f dem_transform + Affine.e dem_transform * INR dem_height)
             (Affine.f dem_transform) in
  itp <- _create_interpolator dem_data dem_bounds ;;
  Returned (mk dem_data dem_transform inv dem_height dem_width
               dem_transform dem_bounds (Some itp)).

(** The cell lookup kept for older callers; every exception is caught and
    turned into [None]. *)
Definition get_elevation_at_coord (self : t) (x y : R) : option R :=
  match rasterio.rowcol (transform self) x y with
  | Returned (row, col) =>
      if ((0 <=? row)%Z && (row <? Z.of_nat (dem_height self))%Z
          && (0 <=? col)%Z && (col <? Z.of_nat (dem_width self))%Z)%bool
      then Some (np.item (dem self) (Z.to_nat row) (Z.to_nat col))
      else None
  | Raised _ => None
  end.

(** The boundary test shared by the elevation query and the march. *)
Definition in_bounds (self : t) (x y : R) : bool :=
  (min_x (dem_bounds self) <=? x) && (x <=? max_x (dem_bounds self))
  && (min_y (dem_bounds self) <=? y) && (y <=? max_y (dem_bounds self)).

(** The manual bilinear interpolation on the raw grid, reached when
    there is no interpolator. *)
Definition fallback_elevation (self : t) (x y : R) : outcome (option R) :=
  inv <- Affine.invert (dem_transform self) ;;
  let (col, row) := Affine.apply inv (x, y) in
  let (num_rows, num_cols) := np.shape (dem self) in
  if negb ((0 <=? row) && (row <? IZR (Z.of_nat num_rows - 1))
           && (0 <=? col) && (col <? IZR (Z.of_nat num_cols - 1)))
  then Returned None
  else
    let r_int := int row in
    let c_int := int col in
    let r_frac := row - IZR r_int in
    let c_frac := col - IZR c_int in
    let z11 := np.item (dem self) (Z.to_nat r_int) (Z.to_nat c_int) in
    let z12 := np.item (dem self) (Z.to_nat r_int) (Z.to_nat (c_int + 1)) in
    let z21 := np.item (dem self) (Z.to_nat (r_int + 1)) (Z.to_nat c_int) in
    let z22 := np.item (dem self) (Z.to_nat (r_int + 1)) (Z.to_nat (c_int + 1)) in
    let z_r1 := (1 - c_frac) * z11 + c_frac * z12 in
    let z_r2 := (1 - c_frac) * z21 + c_frac * z22 in
    let interpolated_z := (1 - r_frac) * z_r1 + r_frac * z_r2 in
    Returned (Some interpolated_z).

Definition get_elevation_at_point (self : t) (world_xy : R * R) : outcome (option R) :=
  let (x, y) := world_xy in
  if negb (in_bounds self x y) then Returned None
  else
    match interpolator self with
    | Some itp => Returned (scipy.call itp y x)
    | None => fallback_elevation self x y
    end.

(** The vectorised query: one interpolated value per point, [None] for
    NaN; no bounds test of its own. *)
Definition get_elevation_batch (self : t) (points_xy : list (R * R))
  : attempt (list (option R)) :=
  match interpolator self with
  | None => Failed RuntimeError
  | Some itp =>
      let points_yx := map (fun p : R * R => (snd p, fst p)) points_xy in
      Done (map (fun q : R * R => scipy.call itp (fst q) (snd q)) points_yx)
  end.

(** State of the bisection loop when it ends. *)
Inductive bisect_end : Type :=
| Converged (p : Vec3)
| Unconverged (point1 point2 : Vec3) (elev1 elev2 : R).

Fixpoint bisect_loop (self : t) (iterations : nat)
         (point1 point2 : Vec3) (elev1 elev2 : R) : outcome bisect_end :=
  match iterations with
  | O => Returned (Unconverged point1 point2 elev1 elev2)
  | S rest =>
      let mid_point := vdiv (vadd point1 point2) 2 in
      mid <- get_elevation_at_point self (vx mid_point, vy mid_point) ;;
      match mid with
      | None => Returned (Unconverged point1 point2 elev1 elev2)
      | Some mid_elev =>
          if Rabs (vz mid_point - mid_elev) <? 0.1
          then Returned (Converged (mkVec3 (vx mid_point) (vy mid_point) mid_elev))
          else if mid_elev <? vz mid_point
               then bisect_loop self rest mid_point point2 mid_elev elev2
               else bisect_loop self rest point1 mid_point elev1 mid_elev
      end
  end.

Definition _bisect_intersection (self : t) (point1 point2 : Vec3)
           (elev1 elev2 : R) (max_iter : nat) : outcome Vec3 :=
  st <- bisect_loop self max_iter point1 point2 elev1 elev2 ;;
  match st with
  | Converged p => Returned p
  | Unconverged point1 point2 _ _ =>
      let final_point := vdiv (vadd point1 point2) 2 in
      final_elev <- get_elevation_at_point self (vx final_point, vy final_point) ;;
      Returned (mkVec3 (vx final_point) (vy final_point)
                       (if truthy final_elev
                        then match final_elev with Some v => v | None => 0 end
                        else vz final_point))
  end.

(** Default of [max_iter] in [_bisect_intersection]. *)
Definition default_max_iter : nat := 10.

(** The coarse march: [steps] iterations left, [current_point] the last
    sample, [prev] the last sample above the terrain with its ground
    elevation. *)
Fixpoint march (self : t) (ray_direction : Vec3) (step_size_coarse : R)
         (steps : nat) (current_point : Vec3) (prev : option (Vec3 * R))
  : outcome (option Vec3) :=
  match steps with
  | O => Returned None
  | S rest =>
      let current_point := vadd current_point (vscale ray_direction step_size_coarse) in
      if negb (in_bounds self (vx current_point) (vy current_point))
      then Returned None
      else
        ground <- get_elevation_at_point self (vx current_point, vy current_point) ;;
        match ground with
        | None => Returned None
        | Some ground_elevation =>
            if vz current_point <=? ground_elevation then
              match prev with
              | Some (prev_point, prev_elevation) =>
                  intersection <- _bisect_intersection self prev_point current_point
                                    prev_elevation ground_elevation default_max_iter ;;
                  Returned (Some intersection)
              | None =>
                  Returned (Some (mkVec3 (vx current_point) (vy current_point)
                                         ground_elevation))
              end
            else march self ray_direction step_size_coarse rest current_point
                       (Some (current_point, ground_elevation))
        end
  end.

(** Step length and step budget of the march. *)
Definition march_parameters (self : t) (ray_origin ray_direction : Vec3)
           (dem_min_elevation : R) (step_size : option R) (max_steps : option Z)
  : outcome (R * Z) :=
  let vertical_distance := vz ray_origin - dem_min_elevation in
  let cos_angle := Rabs (vz ray_direction) in
  let estimated_ray_length := vertical_distance / cos_angle in
  let dem_resolution :=
    Rmax (Rabs (Affine.a (transform self))) (Rabs (Affine.e (transform self))) in
  let step_size_coarse :=
    match step_size with
    | None => dem_resolution * 5
    | Some s => s
    end in
  match max_steps with
  | Some m => Returned (step_size_coarse, m)
  | None =>
      if step_size_coarse =? 0 then Raised OverflowError
      else
        let m := (int (estimated_ray_length / step_size_coarse) + 100)%Z in
        Returned (step_size_coarse, Z.max 1000 m)
  end.

Definition intersect_ray_with_dem (self : t) (ray_origin ray_direction : Vec3)
           (step_size : option R) (max_steps : option Z) : outcome (option Vec3) :=
  if 0 <=? vz ray_direction then Returned None
  else
    let ray_direction := vdiv ray_direction (np.linalg_norm ray_direction) in
    match np.max (dem self), np.min (dem self) with
    | Some dem_max_elevation, Some dem_min_elevation =>
        let vertical_distance := vz ray_origin - dem_min_elevation in
        if vertical_distance <=? 0 then Returned None
        else
          params <- march_parameters self ray_origin ray_direction
                      dem_min_elevation step_size max_steps ;;
          let (step_size_coarse, max_steps) := params in
          march self ray_direction step_size_coarse (Z.to_nat max_steps)
                ray_origin None
    | _, _ => Raised ValueError
    end.

(** The dictionary returned by [georeference_point]. *)
Record georeference_result : Type := mkResult {
  success : bool;
  world_x : option R;
  world_y : option R;
  world_z : option R
}.

Definition georeference_point (self : t) (pixel_coord : R * R)
           (camera_model : CameraModel.t) : outcome georeference_result :=
  let (ray_origin, ray_direction) := CameraModel.pixel_to_ray camera_model pixel_coord in
  intersection <- intersect_ray_with_dem self ray_origin ray_direction None None ;;
  match intersection with
  | Some p => Returned (mkResult true (Some (vx p)) (Some (vy p)) (Some (vz p)))
  | None => Returned (mkResult false None None None)
  end.

End GeoreferencingEngine.

(** ** [core/dem_generator.py] *)
Module dem_generator.

(** The synthetic slope: 8000 x 8000 cells of 1 m, every row at one
    elevation, falling from north (row 0) to south.  The float32 storage
    of the source is read as exact. *)
Definition create_slope_dem (slope_deg base_elevation : R)
  : list (list R) * Affine.t :=
  let width := Z.to_nat 8000 in
  let height := Z.to_nat 8000 in
  let resolution := 1 in
  let origin_x := 300000 in
  let origin_y := 4000000 in
  let total_distance := INR height * resolution in
  let tan_slope := tan (np.deg2rad slope_deg) in
  let elevation_change := total_distance * tan_slope in
  let dem_data :=
    map (fun row =>
           let elevation :=
             base_elevation
             + elevation_change * (1 - INR row / INR (height - 1)) in
           repeat elevation width)
        (seq 0 height) in
  let transform := Affine.mk resolution 0 origin_x 0 (- resolution) origin_y in
  (dem_data, transform).

End dem_generator.

(** ** [core/report_generator.py] *)
Module ReportGenerator.

(** One entry of the simulation results, as [_process_camera] builds it. *)
Record result : Type := mkResult {
  pixel : R * R;
  slope_projection : Vec3;
  planar_projection : Vec3;
  error_m : R;
  camera_pos : Vec3;
  waypoint_index : nat
}.

Record stats : Type := mkStats {
  count : nat;
  rmse : R;
  mean : R;
  max : R;
  min : R;
  std : R
}.

(** [np.std]: the square root of the mean squared deviation. *)
Definition np_std (l : list R) : R :=
  let m := np.mean l in
  sqrt (np.mean (map (fun x => Rabs (x - m) ^ 2) l)).

(** [np.max] and [np.min] raise [ValueError] on an empty array. *)
Definition of_reduce (o : option R) : outcome R :=
  match o with
  | Some v => Returned v
  | None => Raised ValueError
  end.

Definition _calculate_statistics (results : list result) : outcome stats :=
  match results with
  | [] => Returned (mkStats 0 0 0 0 0 0)
  | _ =>
      let errors := map error_m results in
      let rmse := sqrt (np.mean (map (fun x => x * x) errors)) in
      let mean := np.mean errors in
      max <- of_reduce (np.max [errors]) ;;
      min <- of_reduce (np.min [errors]) ;;
      Returned (mkStats (length errors) rmse mean max min (np_std errors))
  end.

End ReportGenerator.

(** ** [gui/backend_service.py]: the per-camera projection *)
Module BackendService.

Import String.

(** The value of [ref_elevation_mode] that selects the terrain under the
    camera. *)
Definition camera_nadir : String.string := "camera_nadir"%string.

(** The fields of the state that the projection reads. *)
Record state : Type := mkState {
  ref_elevation_mode : String.string;
  custom_ref_elevation : R
}.


Definition _calculate_reference_elevation (geo_engine : GeoreferencingEngine.t)
           (camera : CameraModel.t) (st : state) : outcome R :=
  if String.eqb (ref_elevation_mode st) "camera_nadir"%string then
    intersection <- GeoreferencingEngine.intersect_ray_with_dem
                      geo_engine (CameraModel.camera_pos_world camera)
                      (mkVec3 0 0 (-1)) None None ;;
    match intersection with
    | Some p => Returned (vz p)
    | None => Returned 0
    end
  else Returned (custom_ref_elevation st).

(** The body of the loop over the pixels: the results after visiting
    [px]. *)
Definition process_pixel (geo_engine : GeoreferencingEngine.t)
           (camera : CameraModel.t) (reference_elevation : R) (waypoint_index : nat)
           (results : list ReportGenerator.result) (px : R * R)
  : outcome (list ReportGenerator.result) :=
  true_point_data <- GeoreferencingEngine.georeference_point geo_engine px camera ;;
  match GeoreferencingEngine.success true_point_data,
        GeoreferencingEngine.world_x true_point_data,
        GeoreferencingEngine.world_y true_point_data,
        GeoreferencingEngine.world_z true_point_data with
  | true, Some wx, Some wy, Some wz =>
      let true_point := mkVec3 wx wy wz in
      let (ray_origin, ray_dir) := CameraModel.pixel_to_ray camera px in
      if Rabs (vz ray_dir) <? 1e-9 then Returned results
      else
        let t := (reference_elevation - vz ray_origin) / vz ray_dir in
        if t <? 0 then Returned results
        else
          let false_point := vadd ray_origin (vscale ray_dir t) in
          let error_distance :=
            sqrt ((vx true_point - vx false_point) * (vx true_point - vx false_point)
                  + (vy true_point - vy false_point) * (vy true_point - vy false_point)) in
          Returned (results ++ [ReportGenerator.mkResult
                                  px true_point false_point error_distance
                                  (CameraModel.camera_pos_world camera)
                                  waypoint_index])
  | _, _, _, _ => Returned results
  end.

Fixpoint process_pixels (geo_engine : GeoreferencingEngine.t)
         (camera : CameraModel.t) (reference_elevation : R) (waypoint_index : nat)
         (results : list ReportGenerator.result) (pixels : list (R * R))
  : outcome (list ReportGenerator.result) :=
  match pixels with
  | [] => Returned results
  | px :: rest =>
      results <- process_pixel geo_engine camera reference_elevation
                   waypoint_index results px ;;
      process_pixels geo_engine camera reference_elevation waypoint_index results rest
  end.


(** An entry of the list that [_process_pixels_batch] returns: the fields
    of a result and the key [source_file], present when a non-empty file
    name was given. *)
Record result_item : Type := mkItem {
  item : ReportGenerator.result;
  source_file : option String.string
}.

(** The key added under [if source_file:]. *)
Definition source_key (source_file : option String.string) : option String.string :=
  match source_file with
  | Some s => if String.eqb s String.EmptyString then None else Some s
  | None => None
  end.

(** Phase 1 of [_process_pixels_batch]: the terrain points found and the
    pixels they belong to. *)
Fixpoint georeference_phase (geo_engine : GeoreferencingEngine.t)
         (camera : CameraModel.t) (pixels_list : list (R * R))
         (true_points_3d : list Vec3) (valid_pixels : list (R * R))
  : outcome (list Vec3 * list (R * R)) :=
  match pixels_list with
  | [] => Returned (true_points_3d, valid_pixels)
  | px :: rest =>
      true_point_data <- GeoreferencingEngine.georeference_point geo_engine px camera ;;
      match GeoreferencingEngine.success true_point_data,
            GeoreferencingEngine.world_x true_point_data,
            GeoreferencingEngine.world_y true_point_data,
            GeoreferencingEngine.world_z true_point_data with
      | true, Some wx, Some wy, Some wz =>
          georeference_phase geo_engine camera rest
                             (true_points_3d ++ [mkVec3 wx wy wz])
                             (valid_pixels ++ [px])
      | _, _, _, _ =>
          georeference_phase geo_engine camera rest true_points_3d valid_pixels
      end
  end.

(** Phase 2, for one pixel: the point of its ray on the reference plane,
    [None] where the ray is parallel to the plane or meets it behind the
    camera. *)
Definition planar_point (camera : CameraModel.t) (reference_elevation : R)
           (px : R * R) : option Vec3 :=
  let (ray_origin, ray_dir) := CameraModel.pixel_to_ray camera px in
  if Rabs (vz ray_dir) <? 1e-9 then None
  else
    let t := (reference_elevation - vz ray_origin) / vz ray_dir in
    if t <? 0 then None
    else Some (vadd ray_origin (vscale ray_dir t)).

(** Phase 3, for one index (the three lists have the same length, so the
    defaults of [nth] are not reached). *)
Definition error_step (camera : CameraModel.t) (waypoint_index : nat)
           (source : option String.string)
           (true_points_3d : list Vec3) (valid_pixels : list (R * R))
           (false_points_3d : list (option Vec3))
           (results : list result_item) (i : nat) : list result_item :=
  match nth i false_points_3d None with
  | None => results
  | Some false_point =>
      let true_point := nth i true_points_3d (mkVec3 0 0 0) in
      let error_distance :=
        sqrt ((vx true_point - vx false_point) * (vx true_point - vx false_point)
              + (vy true_point - vy false_point) * (vy true_point - vy false_point)) in
      results ++ [mkItem (ReportGenerator.mkResult
                            (nth i valid_pixels (0, 0)) true_point false_point
                            error_distance (CameraModel.camera_pos_world camera)
                            waypoint_index)
                         (source_key source)]
  end.

Definition _process_pixels_batch (geo_engine : GeoreferencingEngine.t)
           (camera : CameraModel.t) (pixels_list : list (R * R))
           (reference_elevation : R) (waypoint_index : nat)
           (source : option String.string)
  : outcome (list result_item) :=
  phase <- georeference_phase geo_engine camera pixels_list [] [] ;;
  let (true_points_3d, valid_pixels) := phase in
  if (List.length true_points_3d =? 0)%nat then Returned []
  else
    let false_points_3d := map (planar_point camera reference_elevation) valid_pixels in
    Returned (fold_left (error_step camera waypoint_index source
                                    true_points_3d valid_pixels false_points_3d)
                        (seq 0 (List.length valid_pixels)) []).

(** A leg of the flight path, as [_prepare_cameras] records it. *)
Record segment : Type := mkSegment {
  start_node : R * R;
  dir_vec : R * R;
  len : R;
  start_dist : R;
  segment_index : nat
}.

(** The loop over [range(len(path_points) - 1)]: [nodes] is
    [path_points[i:]]; legs shorter than 1e-6 are left out. *)
Fixpoint build_segments (nodes : list (R * R)) (i : nat) (total_path_length : R)
         (segments : list segment) : list segment * R :=
  match nodes with
  | start :: rest =>
      match rest with
      | end_node :: _ =>
          let segment_vec := (fst end_node - fst start, snd end_node - snd start) in
          let segment_len :=
            sqrt (fst segment_vec * fst segment_vec
                  + snd segment_vec * snd segment_vec) in
          if segment_len <? 1e-6
          then build_segments rest (S i) total_path_length segments
          else
            build_segments
              rest (S i) (total_path_length + segment_len)
              (segments ++ [mkSegment start
                                      (fst segment_vec / segment_len,
                                       snd segment_vec / segment_len)
                                      segment_len total_path_length i])
      | [] => (segments, total_path_length)
      end
  | [] => (segments, total_path_length)
  end.

(** The number of photos.  The quotient by a zero interval raises
    [ZeroDivisionError] on the float 0.0 that the length is when there is
    no leg, and is infinite on the numpy float that it is otherwise, which
    [int] refuses with [OverflowError]. *)
Definition num_photos (segments : list segment) (total_path_length interval : R)
  : attempt Z :=
  if total_path_length <? interval then Done 1%Z
  else if interval =? 0 then
    match segments with
    | [] => Failed ZeroDivisionError
    | _ :: _ => Failed (Kernel OverflowError)
    end
  else Done (int (total_path_length / interval) + 1)%Z.

(** The search [for j in range(current_segment_idx, len(segments))] over
    [segments[j:]]: the first leg that holds the distance. *)
Fixpoint find_segment (segments : list segment) (j : nat) (dist_along_path : R)
  : option (nat * segment) :=
  match segments with
  | [] => None
  | seg :: rest =>
      if (start_dist seg <=? dist_along_path)
         && (dist_along_path <=? start_dist seg + len seg + 1e-9)
      then Some (j, seg)
      else find_segment rest (S j) dist_along_path
  end.

Definition position_on (seg : segment) (dist_into_segment : R) : R * R :=
  (fst (start_node seg) + fst (dir_vec seg) * dist_into_segment,
   snd (start_node seg) + snd (dir_vec seg) * dist_into_segment).

(** The body of the loop over the photos: the segment index to search
    from and the positions found so far, each with its leg. *)
Definition photo_step (segments : list segment) (total_path_length interval : R)
           (st : nat * list ((R * R) * segment)) (i : nat)
  : attempt (nat * list ((R * R) * segment)) :=
  let (current_segment_idx, cameras) := st in
  let dist_along_path := INR i * interval in
  let dist_along_path :=
    if total_path_length <? dist_along_path then total_path_length
    else dist_along_path in
  match find_segment (skipn current_segment_idx segments) current_segment_idx
                     dist_along_path with
  | Some (j, seg) =>
      let dist_into_segment := dist_along_path - start_dist seg in
      Done (j, cameras ++ [(position_on seg dist_into_segment, seg)])
  | None =>
      if Rabs (dist_along_path - total_path_length) <? 1e-9 then
        match last (map Some segments) None with
        | Some seg => Done (current_segment_idx,
                            cameras ++ [(position_on seg (len seg), seg)])
        | None => Failed IndexError
        end
      else Done (current_segment_idx, cameras)
  end.

Fixpoint photo_loop (segments : list segment) (total_path_length interval : R)
         (indices : list nat) (st : nat * list ((R * R) * segment))
  : attempt (nat * list ((R * R) * segment)) :=
  match indices with
  | [] => Done st
  | i :: rest =>
      match photo_step segments total_path_length interval st i with
      | Done st' => photo_loop segments total_path_length interval rest st'
      | Failed ex => Failed ex
      end
  end.

(** The first part of the trajectory mode of [_prepare_cameras]: the
    planar positions of the cameras along the path, each with its leg.
    [None] stands for the early [return []] on a path of fewer than two
    points. *)
Definition trajectory_positions (path_points : list (R * R)) (interval : R)
  : attempt (option (list ((R * R) * segment))) :=
  if (List.length path_points <? 2)%nat then Done None
  else
    let (segments, total_path_length) := build_segments path_points 0 0 [] in
    match num_photos segments total_path_length interval with
    | Failed ex => Failed ex
    | Done n =>
        match photo_loop segments total_path_length interval
                         (seq 0 (Z.to_nat n)) (O, []) with
        | Done (_, cameras) => Done (Some cameras)
        | Failed ex => Failed ex
        end
    end.

End BackendService.

(** ** Notions used to state the properties *)

(** The ray direction after [ray_direction / np.linalg.norm(ray_direction)]. *)
Definition normalized (d : Vec3) : Vec3 := vdiv d (np.linalg_norm d).

(** A grid of [h] rows that all have [w] samples. *)
Definition rectangular (dem_data : list (list R)) (h w : nat) : Prop :=
  length dem_data = h /\ Forall (fun row => length row = w) dem_data.

(** [M] is the highest sample of the grid. *)
Definition is_maximum (arr : list (list R)) (M : R) : Prop :=
  In M (concat arr) /\ forall x, In x (concat arr) -> x <= M.

(** The bilinear blend of the four samples around cell [(i0, i1)] at the
    position [(y0, y1)] inside the cell. *)
Definition bilinear (v : list (list R)) (i0 i1 : nat) (y0 y1 : R) : R :=
  np.item v i0 i1 * (1 - y0) * (1 - y1)
  + np.item v i0 (S i1) * (1 - y0) * y1
  + np.item v (S i0) i1 * y0 * (1 - y1)
  + np.item v (S i0) (S i1) * y0 * y1.

(** The point of the ray after [c] steps of length [s], [c] any real. *)
Definition ray_point (o d : Vec3) (s c : R) : Vec3 := vadd o (vscale d (c * s)).

(** The value of an elevation query that the last line of
    [_bisect_intersection] does not use: absent or zero. *)
Definition absent_or_zero (o : outcome (option R)) : Prop :=
  o = Returned None \/ o = Returned (Some 0).

(** What a returned point [p] is, relative to the ray point at [c] steps:
    it shares its (x, y), which lies inside the world bounds, and its z is
    the terrain elevation there, unless that elevation is absent or zero
    and the z of the ray is used. *)
Definition lands (self : GeoreferencingEngine.t) (o d : Vec3) (s c : R) (p : Vec3)
  : Prop :=
  vx p = vx (ray_point o d s c)
  /\ vy p = vy (ray_point o d s c)
  /\ GeoreferencingEngine.in_bounds self (vx p) (vy p) = true
  /\ (GeoreferencingEngine.get_elevation_at_point self (vx p, vy p)
      = Returned (Some (vz p))
      \/ (vz p = vz (ray_point o d s c)
          /\ absent_or_zero
               (GeoreferencingEngine.get_elevation_at_point self (vx p, vy p)))).

(** The positions, counted from [k], of the elements of [l] that satisfy
    [P]. *)
Fixpoint masked_indices {A : Type} (P : A -> bool) (k : nat) (l : list A) : list nat :=
  match l with
  | [] => []
  | a :: tl => if P a then k :: masked_indices P (S k) tl else masked_indices P (S k) tl
  end.

(** The pixel of a point in camera coordinates, and whether the point is
    projected: in front of the camera and inside the sensor. *)
Definition pixel_of (self : CameraModel.t) (q : Vec3) : R * R :=
  (CameraModel.f_px self * (vx q / vz q) + CameraModel.cx self,
   CameraModel.cy self - CameraModel.f_px self * (vy q / vz q)).

Definition projects (self : CameraModel.t) (q : Vec3) : bool :=
  (0 <? vz q)
  && ((0 <=? fst (pixel_of self q)) && (fst (pixel_of self q) <? CameraModel.w_px self)
      && (0 <=? snd (pixel_of self q)) && (snd (pixel_of self q) <? CameraModel.h_px self)).


(** The results that the terrain points [true_points] of the pixels
    [pixels] give: one for every pixel that has a planar point. *)
Definition planar_results (camera : CameraModel.t) (reference_elevation : R)
           (waypoint_index : nat) (true_points : list Vec3) (pixels : list (R * R))
  : list ReportGenerator.result :=
  flat_map
    (fun pt : Vec3 * (R * R) =>
       match BackendService.planar_point camera reference_elevation (snd pt) with
       | None => []
       | Some false_point =>
           [ReportGenerator.mkResult
              (snd pt) (fst pt) false_point
              (sqrt ((vx (fst pt) - vx false_point) * (vx (fst pt) - vx false_point)
                     + (vy (fst pt) - vy false_point) * (vy (fst pt) - vy false_point)))
              (CameraModel.camera_pos_world camera) waypoint_index]
       end)
    (combine true_points pixels).

(** Legs that follow one another from distance [s0] to distance [total],
    each at least 1e-6 long. *)
Fixpoint tiled (s0 : R) (segments : list BackendService.segment) (total : R) : Prop :=
  match segments with
  | [] => s0 = total
  | seg :: rest =>
      BackendService.start_dist seg = s0
      /\ 1e-6 <= BackendService.len seg
      /\ tiled (s0 + BackendService.len seg) rest total
  end.

(** The distance along the path of photo [k]: [k] intervals, capped at
    the length of the path. *)
Definition photo_distance (total interval : R) (k : nat) : R :=
  if total <? INR k * interval then total else INR k * interval.

(** [seg] is the leg between two consecutive points of the path: it
    starts at the point of its index and reaches the next point after its
    length, along a direction of length one. *)
Definition leg_of (path_points : list (R * R)) (seg : BackendService.segment) : Prop :=
  nth_error path_points (BackendService.segment_index seg)
  = Some (BackendService.start_node seg)
  /\ nth_error path_points (S (BackendService.segment_index seg))
     = Some (BackendService.position_on seg (BackendService.len seg))
  /\ fst (BackendService.dir_vec seg) * fst (BackendService.dir_vec seg)
     + snd (BackendService.dir_vec seg) * snd (BackendService.dir_vec seg) = 1.

(** [m] is the lowest sample of the grid. *)
Definition is_minimum (arr : list (list R)) (m : R) : Prop :=
  In m (concat arr) /\ forall x, In x (concat arr) -> m <= x.

(** The [k]-th sample of the coarse march that starts at [o] and advances
    by [d * s] at every step. *)
Fixpoint march_sample (o d : Vec3) (s : R) (k : nat) : Vec3 :=
  match k with
  | O => o
  | S k' => vadd (march_sample o d s k') (vscale d s)
  end.

(** The sample [p] is at or below the terrain found under it. *)
Definition crossing (self : GeoreferencingEngine.t) (p : Vec3) : Prop :=
  exists g,
    GeoreferencingEngine.get_elevation_at_point self (vx p, vy p) = Returned (Some g)
    /\ vz p <= g.

(** The engine that [__init__] builds for a north-up grid: the x
    coordinates ascend, the y coordinates descend and are reversed
    together with the rows. *)
Definition north_up_engine (dem_data : list (list R)) (tr : Affine.t)
  : GeoreferencingEngine.t :=
  let h := fst (np.shape dem_data) in
  let w := snd (np.shape dem_data) in
  let bnds :=
    GeoreferencingEngine.mkBounds
      (Affine.c tr) (Affine.c tr + Affine.a tr * INR w)
      (Affine.f tr + Affine.e tr * INR h) (Affine.f tr) in
  GeoreferencingEngine.mk dem_data tr (Affine.inverse tr) h w tr bnds
    (Some (scipy.mkRGI
             (rev (np.linspace (GeoreferencingEngine.max_y bnds)
                               (GeoreferencingEngine.min_y bnds) h))
             (np.linspace (GeoreferencingEngine.min_x bnds)
                          (GeoreferencingEngine.max_x bnds) w)
             (np.flip 0 dem_data))).

(** A 2x2 grid of constant elevation [E] with 5 m cells, covering
    [0, 10] x [0, 10]. *)
Definition flat_dem (E : R) : list (list R) := repeat (repeat E 2%nat) 2%nat.
Definition flat_transform : Affine.t := Affine.from_origin 0 10 5 5.
Definition flat_engine (E : R) : GeoreferencingEngine.t :=
  north_up_engine (flat_dem E) flat_transform.

(** A grid of two rows and a single column, covering [0, 1] x [0, 2]. *)
Definition column_dem : list (list R) := [[5]; [5]].
Definition column_transform : Affine.t := Affine.from_origin 0 2 1 1.
Definition column_engine : GeoreferencingEngine.t :=
  north_up_engine column_dem column_transform.

(** A 2x2 grid rising from 0 to 1 along x, covering [0, 2] x [0, 2]. *)
Definition ramp_dem : list (list R) := [[0; 1]; [0; 1]].
Definition ramp_transform : Affine.t := Affine.from_origin 0 2 1 1.
Definition ramp_engine : GeoreferencingEngine.t :=
  north_up_engine ramp_dem ramp_transform.

(** A 2x2 grid rising from 0 in the south to 1 in the north, covering
    [0, 2] x [0, 2]. *)
Definition north_ramp_dem : list (list R) := [[1; 1]; [0; 0]].
Definition north_ramp_engine : GeoreferencingEngine.t :=
  north_up_engine north_ramp_dem ramp_transform.

(** The same engine once its interpolator is gone. *)
Definition without_interpolator (self : GeoreferencingEngine.t)
  : GeoreferencingEngine.t :=
  GeoreferencingEngine.mk
    (GeoreferencingEngine.dem self) (GeoreferencingEngine.transform self)
    (GeoreferencingEngine.inv_transform self)
    (GeoreferencingEngine.dem_height self) (GeoreferencingEngine.dem_width self)
    (GeoreferencingEngine.dem_transform self) (GeoreferencingEngine.dem_bounds self)
    None.

(** The rotations about the three axes and the base correction, as maps
    on vectors; angles in radians. *)
Definition rot_x (gamma : R) (v : Vec3) : Vec3 :=
  mkVec3 (vx v)
         (cos gamma * vy v - sin gamma * vz v)
         (sin gamma * vy v + cos gamma * vz v).

Definition rot_y (beta : R) (v : Vec3) : Vec3 :=
  mkVec3 (cos beta * vx v + sin beta * vz v)
         (vy v)
         (- sin beta * vx v + cos beta * vz v).

Definition rot_z (alpha : R) (v : Vec3) : Vec3 :=
  mkVec3 (cos alpha * vx v - sin alpha * vy v)
         (sin alpha * vx v + cos alpha * vy v)
         (vz v).

(** diag(1, -1, -1): the camera-local Y and Z axes are negated. *)
Definition base_correction (v : Vec3) : Vec3 := mkVec3 (vx v) (- vy v) (- vz v).

(** Rz(yaw) . Ry(pitch) . Rx(roll) . diag(1, -1, -1), angles in degrees. *)
Definition camera_to_world (roll_deg pitch_deg yaw_deg : R) (v : Vec3) : Vec3 :=
  rot_z (np.deg2rad yaw_deg)
        (rot_y (np.deg2rad pitch_deg)
               (rot_x (np.deg2rad roll_deg) (base_correction v))).

(** The camera-local vector of a pixel. *)
Definition vec_camera (self : CameraModel.t) (pixel_coord : R * R) : Vec3 :=
  mkVec3 (fst pixel_coord - CameraModel.cx self)
         (CameraModel.cy self - snd pixel_coord)
         (CameraModel.f_px self).

(** The camera-frame coordinates of a point, as [world_to_pixel] and
    [world_to_camera_batch] compute them. *)
Definition camera_frame (self : CameraModel.t) (world_point : Vec3) : Vec3 :=
  matvec (transpose (CameraModel.R_cam_to_world self))
         (vsub world_point (CameraModel.camera_pos_world self)).

(** A matrix whose transpose is its inverse. *)
Definition orthogonal (m : Mat3) : Prop := matmul (transpose m) m = identity3.

(** The ray of a corner meets the ground plane in front of the camera. *)
Definition corner_hits (self : CameraModel.t) (ground_elevation : R)
           (pixel_coord : R * R) : Prop :=
  let ray := CameraModel.pixel_to_ray self pixel_coord in
  1e-9 <= Rabs (vz (snd ray))
  /\ 0 <= CameraModel.plane_parameter ground_elevation (fst ray) (snd ray).

(** Where the ray of a corner meets the ground plane. *)
Definition corner_point (self : CameraModel.t) (ground_elevation : R)
           (pixel_coord : R * R) : R * R :=
  let ray := CameraModel.pixel_to_ray self pixel_coord in
  let t := CameraModel.plane_parameter ground_elevation (fst ray) (snd ray) in
  (vx (fst ray) + vx (snd ray) * t, vy (fst ray) + vy (snd ray) * t).

(** Mean Euclidean distance from the centroid of four points to each. *)
Definition mean_distance_to_centroid (p1 p2 p3 p4 : R * R) : R :=
  let cx := (fst p1 + fst p2 + fst p3 + fst p4) / 4 in
  let cy := (snd p1 + snd p2 + snd p3 + snd p4) / 4 in
  let dist (p : R * R) := sqrt ((fst p - cx) ^ 2 + (snd p - cy) ^ 2) in
  (dist p1 + dist p2 + dist p3 + dist p4) / 4.

(** A camera looking straight down from (0, 0, 12): focal length 6 px,
    sensor 7 x 5 px, principal point (3, 2). *)
Definition nadir_params : CameraModel.camera_params :=
  CameraModel.mkParams 6 (7, 5) (Some (3, 2)) 0 0 0 (mkVec3 0 0 12).
Definition nadir_camera : CameraModel.t := CameraModel.__init__ nadir_params.

(** A camera with a focal length of 1e-10 px, rolled by 45 degrees;
    sensor 1 x 1 px, principal point at the default (1/2, 1/2). *)
Definition tiny_focal_params : CameraModel.camera_params :=
  CameraModel.mkParams 1e-10 (1, 1) None 45 0 0 (mkVec3 0 0 0).
Definition tiny_focal_camera : CameraModel.t := CameraModel.__init__ tiny_focal_params.

(** * Properties *)

(** ** Comparisons *)

Lemma Rleb_true (x y : R) : x <= y -> (x <=? y) = true.
Proof. intro H. unfold Rleb. destruct (Rle_dec x y); [reflexivity | contradiction]. Qed.

Lemma Rleb_false (x y : R) : y < x -> (x <=? y) = false.
Proof. intro H. unfold Rleb. destruct (Rle_dec x y); [lra | reflexivity]. Qed.

Lemma Rltb_true (x y : R) : x < y -> (x <? y) = true.
Proof. intro H. unfold Rltb. destruct (Rlt_dec x y); [reflexivity | contradiction]. Qed.

Lemma Rltb_false (x y : R) : y <= x -> (x <? y) = false.
Proof. intro H. unfold Rltb. destruct (Rlt_dec x y); [lra | reflexivity]. Qed.

Lemma Reqb_true (x y : R) : x = y -> (x =? y) = true.
Proof. intro H. unfold Reqb. destruct (Req_dec_T x y); [reflexivity | contradiction]. Qed.

Lemma Reqb_false (x y : R) : x <> y -> (x =? y) = false.
Proof. intro H. unfold Reqb. destruct (Req_dec_T x y); [contradiction | reflexivity]. Qed.

Lemma Rleb_spec (x y : R) : (x <=? y) = true <-> x <= y.
Proof. unfold Rleb. destruct (Rle_dec x y); split; intros; auto; discriminate. Qed.

Lemma Rltb_spec (x y : R) : (x <? y) = true <-> x < y.
Proof. unfold Rltb. destruct (Rlt_dec x y); split; intros; auto; discriminate. Qed.

Lemma Rleb_nspec (x y : R) : (x <=? y) = false <-> y < x.
Proof. unfold Rleb. destruct (Rle_dec x y); split; intros; try discriminate; lra. Qed.

Lemma Rltb_nspec (x y : R) : (x <? y) = false <-> y <= x.
Proof. unfold Rltb. destruct (Rlt_dec x y); split; intros; try discriminate; lra. Qed.

(** Decide every comparison of the goal whose outcome follows from the
    context by linear arithmetic. *)
Ltac decide_cmp :=
  repeat match goal with
    | |- context [?x <=? ?y] =>
        first [ rewrite (Rleb_true x y) by lra | rewrite (Rleb_false x y) by lra ]
    | |- context [?x <? ?y] =>
        first [ rewrite (Rltb_true x y) by lra | rewrite (Rltb_false x y) by lra ]
    | |- context [?x =? ?y] =>
        first [ rewrite (Reqb_true x y) by lra | rewrite (Reqb_false x y) by lra ]
    end.

(** ** Validation of the ray *)

Lemma reduce_some_iff (op1 op2 : R -> R -> R) (arr : list (list R)) (m : R) :
  np.reduce op1 arr = Some m -> exists M, np.reduce op2 arr = Some M.
Proof.
  unfold np.reduce. destruct (concat arr); [discriminate | eauto].
Qed.

Lemma fold_min_spec (tl : list R) :
  forall x,
    let m := fold_left Rmin tl x in
    (m = x \/ In m tl) /\ m <= x /\ forall y, In y tl -> m <= y.
Proof.
  induction tl as [| h tl IH]; intro x; cbn [fold_left In].
  - split; [left; reflexivity |]. split; [lra | intros y []].
  - destruct (IH (Rmin x h)) as (Hin & Hle & Hall).
    pose proof (Rmin_l x h) as Hl. pose proof (Rmin_r x h) as Hr.
    split; [| split].
    + destruct Hin as [Heq | Hin]; [| right; right; exact Hin].
      rewrite Heq. unfold Rmin. destruct (Rle_dec x h); [left | right; left]; reflexivity.
    + lra.
    + intros y [<- | Hy]; [lra | apply Hall; exact Hy].
Qed.

(** [np.min] returns the lowest sample of a grid that has one. *)
Lemma np_min_is_minimum (arr : list (list R)) (m : R) :
  is_minimum arr m -> np.min arr = Some m.
Proof.
  unfold is_minimum, np.min, np.reduce. intros [Hin Hlow].
  destruct (concat arr) as [| x tl]; [destruct Hin |].
  destruct (fold_min_spec tl x) as (Hm & Hle & Hall). cbv zeta in *.
  set (r := fold_left Rmin tl x) in *.
  f_equal. apply Rle_antisym.
  - destruct Hin as [<- | Hin]; [exact Hle | apply Hall; exact Hin].
  - apply Hlow. destruct Hm as [-> | Hm]; [left; reflexivity | right; exact Hm].
Qed.

Lemma np_min_some (arr : list (list R)) (m : R) :
  np.min arr = Some m -> is_minimum arr m.
Proof.
  unfold is_minimum, np.min, np.reduce.
  destruct (concat arr) as [| x tl]; [discriminate |].
  intro H. injection H as <-.
  destruct (fold_min_spec tl x) as (Hm & Hle & Hall). cbv zeta in *.
  split.
  - destruct Hm as [-> | Hm]; [left; reflexivity | right; exact Hm].
  - intros y [<- | Hy]; [exact Hle | apply Hall; exact Hy].
Qed.

(** C1: a ray whose direction has [z >= 0], or whose origin is at or below
    the lowest sample of the grid, is rejected with [None] by the
    validation, whatever the engine holds and whatever step parameters
    are passed; the march is never entered. *)
Theorem C1_invalid_ray_rejected :
  forall (self : GeoreferencingEngine.t) (ray_origin ray_direction : Vec3)
         (step_size : option R) (max_steps : option Z),
    (vz ray_direction >= 0
     \/ exists m, is_minimum (GeoreferencingEngine.dem self) m
                  /\ vz ray_origin <= m) ->
    GeoreferencingEngine.intersect_ray_with_dem
      self ray_origin ray_direction step_size max_steps = Returned None.
Proof.
  intros self o d step ms H.
  unfold GeoreferencingEngine.intersect_ray_with_dem.
  destruct (0 <=? vz d) eqn:Hup; [reflexivity |].
  apply Rleb_nspec in Hup.
  destruct H as [H | [m [Hmin Hlow]]]; [lra |].
  apply np_min_is_minimum in Hmin.
  destruct (reduce_some_iff Rmin Rmax _ _ Hmin) as [M HM].
  unfold np.max, np.min in *. rewrite HM, Hmin.
  rewrite Rleb_true by lra. reflexivity.
Qed.

Lemma C1_invalid_ray_rejected_witness :
  GeoreferencingEngine.intersect_ray_with_dem
    (flat_engine 100) (mkVec3 5 5 600) (mkVec3 0 0 (1 / 10)) None None
  = Returned None
  /\ GeoreferencingEngine.intersect_ray_with_dem
       (flat_engine 100) (mkVec3 5 5 100) (mkVec3 0 0 (-1)) None None
     = Returned None.
Proof.
  split; apply C1_invalid_ray_rejected.
  - left. cbn. lra.
  - right. exists 100. split; [| cbn; lra].
    split; [left; reflexivity |].
    intros x Hx. cbn in Hx. intuition lra.
Defined.

(** ** The elevation query on a constructed engine *)

Lemma linspace_length (start stop : R) (n : nat) :
  length (np.linspace start stop n) = n.
Proof.
  destruct n as [| [| n]]; try reflexivity.
  unfold np.linspace. rewrite length_app, length_map, length_seq. simpl. lia.
Qed.

Lemma linspace_hd (start stop : R) (n : nat) :
  (1 <= n)%nat -> hd 0 (np.linspace start stop n) = start.
Proof.
  destruct n as [| [| n]]; intro H; [lia | reflexivity |].
  unfold np.linspace. cbn [seq map app hd INR]. lra.
Qed.

Lemma linspace_last (start stop : R) (n : nat) :
  (2 <= n)%nat -> last (np.linspace start stop n) 0 = stop.
Proof.
  destruct n as [| [| n]]; intro H; try lia.
  unfold np.linspace. apply last_last.
Qed.

Lemma hd_rev (l : list R) : hd 0 (rev l) = last l 0.
Proof.
  induction l as [| x l IH] using rev_ind; [reflexivity |].
  rewrite rev_unit, last_last. reflexivity.
Qed.

Lemma last_rev (l : list R) : last (rev l) 0 = hd 0 l.
Proof.
  destruct l as [| x l]; [reflexivity |].
  cbn [rev hd]. apply last_last.
Qed.

Lemma ascending_hd_last (l : list R) :
  scipy.strictly_ascending l = true -> (2 <= length l)%nat -> hd 0 l < last l 0.
Proof.
  induction l as [| x [| y l] IH]; cbn [length]; intros Hs Hl; try lia.
  cbn [scipy.strictly_ascending] in Hs.
  apply andb_true_iff in Hs. destruct Hs as [Hxy Hs]. apply Rltb_spec in Hxy.
  destruct l as [| z l]; [cbn; exact Hxy |].
  specialize (IH Hs). cbn [length hd] in IH.
  change (last (x :: y :: z :: l) 0) with (last (y :: z :: l) 0).
  cbn [hd]. assert (y < last (y :: z :: l) 0) by (apply IH; lia). lra.
Qed.

Lemma descending_hd_last (l : list R) :
  scipy.strictly_descending l = true -> (2 <= length l)%nat -> last l 0 < hd 0 l.
Proof.
  induction l as [| x [| y l] IH]; cbn [length]; intros Hs Hl; try lia.
  cbn [scipy.strictly_descending] in Hs.
  apply andb_true_iff in Hs. destruct Hs as [Hxy Hs]. apply Rltb_spec in Hxy.
  destruct l as [| z l]; [cbn; exact Hxy |].
  specialize (IH Hs). cbn [length hd] in IH.
  change (last (x :: y :: z :: l) 0) with (last (y :: z :: l) 0).
  cbn [hd]. assert (last (y :: z :: l) 0 < y) by (apply IH; lia). lra.
Qed.

Lemma check_points_inv (p g : list R) (flipped : bool) :
  scipy.check_points p = Returned (g, flipped) ->
  (flipped = false /\ g = p /\ scipy.strictly_ascending p = true)
  \/ (flipped = true /\ g = rev p /\ scipy.strictly_descending p = true).
Proof.
  unfold scipy.check_points.
  destruct (scipy.strictly_ascending p) eqn:Ha.
  - intro H. inversion H. left. auto.
  - destruct (scipy.strictly_descending p) eqn:Hd; intro H; inversion H.
    right. auto.
Qed.

Lemma check_points_length (p g : list R) (flipped : bool) :
  scipy.check_points p = Returned (g, flipped) -> length g = length p.
Proof.
  intro H. apply check_points_inv in H.
  destruct H as [(_ & -> & _) | (_ & -> & _)]; [reflexivity | apply length_rev].
Qed.

(** A query between the two ends of a [linspace] axis is inside the
    interpolator's range along that axis. *)
Lemma linspace_axis_in_range (s t x : R) (n : nat) (g : list R) (flipped : bool) :
  (2 <= n)%nat ->
  scipy.check_points (np.linspace s t n) = Returned (g, flipped) ->
  (s <= x <= t \/ t <= x <= s) ->
  scipy.out_of_bounds g x = false.
Proof.
  intros Hn Hc Hx.
  pose proof (linspace_hd s t n ltac:(lia)) as Hhd.
  pose proof (linspace_last s t n Hn) as Hlast.
  pose proof (linspace_length s t n) as Hlen.
  apply check_points_inv in Hc.
  unfold scipy.out_of_bounds.
  destruct Hc as [(_ & -> & Hasc) | (_ & -> & Hdesc)].
  - apply ascending_hd_last in Hasc; [| lia].
    rewrite Hhd, Hlast in *.
    rewrite Rltb_false by lra. rewrite Rltb_false by lra. reflexivity.
  - apply descending_hd_last in Hdesc; [| lia].
    rewrite hd_rev, last_rev, Hhd, Hlast in *.
    rewrite Rltb_false by lra. rewrite Rltb_false by lra. reflexivity.
Qed.

Lemma find_interval_step (g0 g1 g2 x : R) (g : list R) :
  scipy.find_interval (g0 :: g1 :: g2 :: g) x
  = if g1 <=? x then S (scipy.find_interval (g1 :: g2 :: g) x) else O.
Proof. reflexivity. Qed.

Lemma find_interval_cons (g : list R) (x : R) :
  forall g0, (1 <= length g)%nat -> (scipy.find_interval (g0 :: g) x + 1 <= length g)%nat.
Proof.
  induction g as [| g1 g IH]; intros g0 H; cbn [length] in *; [lia |].
  destruct g as [| g2 g]; [cbn; lia |].
  rewrite find_interval_step. cbn [length].
  destruct (g1 <=? x); [| lia].
  specialize (IH g1). cbn [length] in IH.
  assert (scipy.find_interval (g1 :: g2 :: g) x + 1 <= S (length g))%nat by (apply IH; lia).
  lia.
Qed.

Lemma find_interval_bound (g : list R) (x : R) :
  (2 <= length g)%nat -> (scipy.find_interval g x + 2 <= length g)%nat.
Proof.
  destruct g as [| g0 g]; cbn [length]; intro H; [lia |].
  pose proof (find_interval_cons g x g0 ltac:(lia)). lia.
Qed.

Lemma item_constant (E : R) (h w r c : nat) :
  (r < h)%nat -> (c < w)%nat -> np.item (repeat (repeat E w) h) r c = E.
Proof.
  intros Hr Hc. unfold np.item.
  rewrite (nth_repeat_lt _ _ Hr). apply nth_repeat_lt. exact Hc.
Qed.

Lemma map_repeat {A B : Type} (g : A -> B) (a : A) (n : nat) :
  map g (repeat a n) = repeat (g a) n.
Proof. induction n; cbn; congruence. Qed.

Lemma flip_constant (E : R) (h w axis : nat) :
  np.flip axis (repeat (repeat E w) h) = repeat (repeat E w) h.
Proof.
  destruct axis; cbn [np.flip].
  - apply rev_repeat.
  - rewrite map_repeat, rev_repeat. reflexivity.
Qed.

Lemma make_inv (p0 p1 : list R) (vals : list (list R)) (itp : scipy.RegularGridInterpolator) :
  scipy.make p0 p1 vals = Returned itp ->
  exists g0 f0 g1 f1,
    scipy.check_points p0 = Returned (g0, f0)
    /\ scipy.check_points p1 = Returned (g1, f1)
    /\ scipy.check_dimensionality p0 p1 vals = true
    /\ itp = scipy.mkRGI g0 g1
               (let v := if f0 then np.flip 0 vals else vals in
                if f1 then np.flip 1 v else v).
Proof.
  unfold scipy.make, bind.
  destruct (scipy.check_points p0) as [[g0 f0] |]; [| discriminate].
  destruct (scipy.check_points p1) as [[g1 f1] |]; [| discriminate].
  destruct (scipy.check_dimensionality p0 p1 vals); cbn [negb]; [| discriminate].
  intro H. inversion H. exists g0, f0, g1, f1. cbn [fst snd]. auto.
Qed.

Lemma init_inv (dem_data : list (list R)) (tr : Affine.t) (self : GeoreferencingEngine.t) :
  GeoreferencingEngine.__init__ dem_data tr = Returned self ->
  exists inv itp,
    let bnds :=
      GeoreferencingEngine.mkBounds
        (Affine.c tr)
        (Affine.c tr + Affine.a tr * INR (snd (np.shape dem_data)))
        (Affine.f tr + Affine.e tr * INR (fst (np.shape dem_data)))
        (Affine.f tr) in
    Affine.invert tr = Returned inv
    /\ GeoreferencingEngine._create_interpolator dem_data bnds = Returned itp
    /\ self = GeoreferencingEngine.mk dem_data tr inv
                (fst (np.shape dem_data)) (snd (np.shape dem_data))
                tr bnds (Some itp).
Proof.
  unfold GeoreferencingEngine.__init__, bind.
  destruct (Affine.invert tr) as [inv |]; [| discriminate].
  destruct (np.shape dem_data) as [h w]. cbn [fst snd].
  match goal with
  | |- context [GeoreferencingEngine._create_interpolator ?d ?b] =>
      destruct (GeoreferencingEngine._create_interpolator d b) as [itp |]
  end; [| discriminate].
  intro H. inversion H. exists inv, itp. auto.
Qed.

(** On a constructed engine the query never raises: it is the bounds test
    followed by the interpolator. *)
Lemma init_interpolator (dem_data : list (list R)) (tr : Affine.t)
      (self : GeoreferencingEngine.t) :
  GeoreferencingEngine.__init__ dem_data tr = Returned self ->
  exists itp,
    GeoreferencingEngine.interpolator self = Some itp
    /\ forall x y,
        GeoreferencingEngine.get_elevation_at_point self (x, y)
        = Returned (if GeoreferencingEngine.in_bounds self x y
                    then scipy.call itp y x else None).
Proof.
  intro H. apply init_inv in H. destruct H as (inv & itp & _ & _ & ->).
  exists itp. split; [reflexivity |].
  intros x y. unfold GeoreferencingEngine.get_elevation_at_point.
  cbn [GeoreferencingEngine.interpolator].
  destruct (GeoreferencingEngine.in_bounds _ x y); reflexivity.
Qed.

Lemma in_bounds_spec (self : GeoreferencingEngine.t) (x y : R) :
  GeoreferencingEngine.in_bounds self x y = true <->
  GeoreferencingEngine.min_x (GeoreferencingEngine.dem_bounds self) <= x
    <= GeoreferencingEngine.max_x (GeoreferencingEngine.dem_bounds self)
  /\ GeoreferencingEngine.min_y (GeoreferencingEngine.dem_bounds self) <= y
    <= GeoreferencingEngine.max_y (GeoreferencingEngine.dem_bounds self).
Proof.
  unfold GeoreferencingEngine.in_bounds.
  rewrite !andb_true_iff, !Rleb_spec. tauto.
Qed.

Lemma shape_constant (E : R) (h w : nat) :
  (1 <= h)%nat -> np.shape (repeat (repeat E w) h) = (h, w).
Proof.
  intro H. unfold np.shape. rewrite repeat_length.
  destruct h; [lia |]. cbn [repeat hd]. rewrite repeat_length. reflexivity.
Qed.

(** The bilinear weights of a cell add up to one. *)
Lemma flat_grid_call (E : R) (h w : nat) (itp : scipy.RegularGridInterpolator) (y x : R) :
  (2 <= h)%nat -> (2 <= w)%nat ->
  scipy.values itp = repeat (repeat E w) h ->
  length (scipy.grid0 itp) = h -> length (scipy.grid1 itp) = w ->
  scipy.out_of_bounds (scipy.grid0 itp) y = false ->
  scipy.out_of_bounds (scipy.grid1 itp) x = false ->
  scipy.call itp y x = Some E.
Proof.
  intros Hh Hw Hv H0 H1 Hy Hx. unfold scipy.call.
  rewrite Hy, Hx. cbn [orb]. rewrite Hv.
  pose proof (find_interval_bound (scipy.grid0 itp) y ltac:(lia)) as B0.
  pose proof (find_interval_bound (scipy.grid1 itp) x ltac:(lia)) as B1.
  rewrite !item_constant by lia.
  f_equal. ring.
Qed.

(** The flat-grid query on a constructed engine with at least two rows and
    two columns. *)
Lemma flat_grid_elevation (h w : nat) (E : R) (tr : Affine.t)
      (self : GeoreferencingEngine.t) (x y : R) :
  (2 <= h)%nat -> (2 <= w)%nat ->
  GeoreferencingEngine.__init__ (repeat (repeat E w) h) tr = Returned self ->
  GeoreferencingEngine.get_elevation_at_point self (x, y)
  = Returned (if GeoreferencingEngine.in_bounds self x y then Some E else None).
Proof.
  intros Hh Hw Hinit.
  apply init_inv in Hinit. destruct Hinit as (inv & itp & _ & Hc & ->).
  unfold GeoreferencingEngine.get_elevation_at_point.
  cbn [GeoreferencingEngine.interpolator].
  match goal with
  | |- context [GeoreferencingEngine.in_bounds ?s x y] =>
      destruct (GeoreferencingEngine.in_bounds s x y) eqn:Hb
  end; [| reflexivity].
  cbn [negb]. f_equal.
  apply in_bounds_spec in Hb.
  unfold GeoreferencingEngine._create_interpolator in Hc.
  rewrite (shape_constant E h w ltac:(lia)) in *. cbn [fst snd] in *.
  cbn [GeoreferencingEngine.min_x GeoreferencingEngine.max_x
       GeoreferencingEngine.min_y GeoreferencingEngine.max_y
       GeoreferencingEngine.dem_bounds] in *.
  apply make_inv in Hc. destruct Hc as (g0 & f0 & g1 & f1 & C0 & C1 & _ & ->).
  apply (flat_grid_call E h w); cbn [scipy.values scipy.grid0 scipy.grid1]; try assumption.
  - destruct f0, f1; cbn zeta; rewrite ?flip_constant; reflexivity.
  - rewrite (check_points_length _ _ _ C0). apply linspace_length.
  - rewrite (check_points_length _ _ _ C1). apply linspace_length.
  - eapply linspace_axis_in_range; [exact Hh | exact C0 | right; tauto].
  - eapply linspace_axis_in_range; [exact Hw | exact C1 | left; tauto].
Qed.

(** ** Concrete engines *)

Lemma init_north_up (dem_data : list (list R)) (tr : Affine.t) :
  let self := north_up_engine dem_data tr in
  let bnds := GeoreferencingEngine.dem_bounds self in
  let y_coords := np.linspace (GeoreferencingEngine.max_y bnds)
                              (GeoreferencingEngine.min_y bnds)
                              (fst (np.shape dem_data)) in
  let x_coords := np.linspace (GeoreferencingEngine.min_x bnds)
                              (GeoreferencingEngine.max_x bnds)
                              (snd (np.shape dem_data)) in
  Affine.determinant tr <> 0 ->
  scipy.strictly_ascending y_coords = false ->
  scipy.strictly_descending y_coords = true ->
  scipy.strictly_ascending x_coords = true ->
  scipy.check_dimensionality y_coords x_coords dem_data = true ->
  GeoreferencingEngine.__init__ dem_data tr = Returned self.
Proof.
  intros self bnds y_coords x_coords Hdet Hya Hyd Hxa Hdim.
  unfold GeoreferencingEngine.__init__, Affine.invert.
  rewrite Reqb_false by exact Hdet. cbn [bind].
  unfold GeoreferencingEngine._create_interpolator.
  destruct (np.shape dem_data) as [h w] eqn:Hs.
  subst self bnds y_coords x_coords. unfold north_up_engine in *.
  rewrite Hs in *. cbn [fst snd] in *.
  cbn [GeoreferencingEngine.dem_bounds GeoreferencingEngine.min_x
       GeoreferencingEngine.max_x GeoreferencingEngine.min_y
       GeoreferencingEngine.max_y] in *.
  unfold scipy.make, scipy.check_points.
  rewrite Hya, Hyd, Hxa. cbn [bind]. rewrite Hdim. cbn [negb fst snd].
  reflexivity.
Qed.

Lemma flat_engine_init (E : R) :
  GeoreferencingEngine.__init__ (flat_dem E) flat_transform = Returned (flat_engine E).
Proof.
  apply init_north_up.
  - unfold Affine.determinant. cbn. lra.
  - cbn. decide_cmp. reflexivity.
  - cbn. decide_cmp. reflexivity.
  - cbn. decide_cmp. reflexivity.
  - reflexivity.
Qed.

Lemma flat_engine_in_bounds (E x y : R) :
  0 <= x <= 10 -> 0 <= y <= 10 ->
  GeoreferencingEngine.in_bounds (flat_engine E) x y = true.
Proof.
  intros Hx Hy. apply in_bounds_spec. cbn. lra.
Qed.

Lemma flat_engine_elevation (E x y : R) :
  0 <= x <= 10 -> 0 <= y <= 10 ->
  GeoreferencingEngine.get_elevation_at_point (flat_engine E) (x, y)
  = Returned (Some E).
Proof.
  intros Hx Hy.
  rewrite (flat_grid_elevation 2 2 E flat_transform (flat_engine E) x y);
    [| lia | lia | apply flat_engine_init].
  rewrite flat_engine_in_bounds by assumption. reflexivity.
Qed.

Lemma column_engine_init :
  GeoreferencingEngine.__init__ column_dem column_transform = Returned column_engine.
Proof.
  apply init_north_up.
  - unfold Affine.determinant. cbn. lra.
  - cbn. decide_cmp. reflexivity.
  - cbn. decide_cmp. reflexivity.
  - reflexivity.
  - reflexivity.
Qed.

Lemma ramp_engine_init :
  GeoreferencingEngine.__init__ ramp_dem ramp_transform = Returned ramp_engine.
Proof.
  apply init_north_up.
  - unfold Affine.determinant. cbn. lra.
  - cbn. decide_cmp. reflexivity.
  - cbn. decide_cmp. reflexivity.
  - cbn. decide_cmp. reflexivity.
  - reflexivity.
Qed.

(** ** Flat grids *)

(** C3, as the code has it: on a constructed engine whose grid has at
    least two rows and two columns, all equal to [E], the query returns
    [E] at every point inside the world bounds and [None] at every point
    outside them. *)
Theorem C3_flat_grid_two_by_two :
  forall (h w : nat) (E : R) (tr : Affine.t) (self : GeoreferencingEngine.t) (x y : R),
    (2 <= h)%nat -> (2 <= w)%nat ->
    GeoreferencingEngine.__init__ (repeat (repeat E w) h) tr = Returned self ->
    let b := GeoreferencingEngine.dem_bounds self in
    let inside :=
      GeoreferencingEngine.min_x b <= x <= GeoreferencingEngine.max_x b
      /\ GeoreferencingEngine.min_y b <= y <= GeoreferencingEngine.max_y b in
    (inside ->
     GeoreferencingEngine.get_elevation_at_point self (x, y) = Returned (Some E))
    /\ (~ inside ->
        GeoreferencingEngine.get_elevation_at_point self (x, y) = Returned None).
Proof.
  intros h w E tr self x y Hh Hw Hinit b inside.
  rewrite (flat_grid_elevation h w E tr self x y Hh Hw Hinit).
  subst inside b. split; intro H.
  - apply in_bounds_spec in H. rewrite H. reflexivity.
  - destruct (GeoreferencingEngine.in_bounds self x y) eqn:Hb; [| reflexivity].
    apply in_bounds_spec in Hb. contradiction.
Qed.

Lemma C3_flat_grid_two_by_two_witness :
  GeoreferencingEngine.get_elevation_at_point (flat_engine 100) (5, 5)
  = Returned (Some 100)
  /\ GeoreferencingEngine.get_elevation_at_point (flat_engine 100) (11, 5)
     = Returned None.
Proof.
  pose proof (C3_flat_grid_two_by_two 2 2 100 flat_transform (flat_engine 100) 5 5
                (le_n 2) (le_n 2) (flat_engine_init 100)) as [Hin _].
  pose proof (C3_flat_grid_two_by_two 2 2 100 flat_transform (flat_engine 100) 11 5
                (le_n 2) (le_n 2) (flat_engine_init 100)) as [_ Hout].
  split.
  - apply Hin. cbn. lra.
  - apply Hout. cbn. lra.
Defined.

(** C3 fails as stated, for any grid shape: the grid of two rows and one
    column is flat at 5, the point (1/2, 1) lies inside its world bounds
    [0, 1] x [0, 2], and the query returns [None] there, the single x
    coordinate of the interpolator being 0. *)
Lemma C3_counterexample_single_column :
  column_dem = repeat (repeat 5 1%nat) 2%nat
  /\ GeoreferencingEngine.__init__ column_dem column_transform = Returned column_engine
  /\ GeoreferencingEngine.in_bounds column_engine (1 / 2) 1 = true
  /\ GeoreferencingEngine.get_elevation_at_point column_engine (1 / 2, 1)
     = Returned None
  /\ GeoreferencingEngine.get_elevation_at_point column_engine (1 / 2, 1)
     <> Returned (Some 5).
Proof.
  assert (Hb : GeoreferencingEngine.in_bounds column_engine (1 / 2) 1 = true).
  { apply in_bounds_spec. cbn. lra. }
  assert (Hq : GeoreferencingEngine.get_elevation_at_point column_engine (1 / 2, 1)
               = Returned None).
  { unfold GeoreferencingEngine.get_elevation_at_point. rewrite Hb. cbn [negb].
    cbn [column_engine north_up_engine GeoreferencingEngine.interpolator].
    f_equal. unfold scipy.call.
    assert (Hx : scipy.out_of_bounds [0] (1 / 2) = true).
    { unfold scipy.out_of_bounds. cbn [hd last]. decide_cmp. reflexivity. }
    cbn. rewrite Hx, orb_true_r. reflexivity. }
  repeat split; try assumption.
  - apply column_engine_init.
  - rewrite Hq. discriminate.
Qed.

(** ** The two interpolation paths *)

Lemma int_floor (r : R) (z : Z) :
  0 <= r -> IZR z <= r < IZR z + 1 -> int r = z.
Proof.
  intros H0 Hz. unfold int. destruct (Rle_dec 0 r); [| contradiction].
  symmetry. apply Int_part_spec. lra.
Qed.

(** C4 fails on the code: on the ramp grid [[0, 1], [0, 1]] over
    [0, 2] x [0, 2] the interpolator, whose x coordinates are
    [linspace(0, 2, 2) = [0, 2]], returns 1/4 at (1/2, 3/2), and the
    raw-grid path, whose columns sit at x = 0 and x = 1, returns 1/2. *)
Theorem C4_paths_disagree :
  GeoreferencingEngine.__init__ ramp_dem ramp_transform = Returned ramp_engine
  /\ GeoreferencingEngine.in_bounds ramp_engine (1 / 2) (3 / 2) = true
  /\ GeoreferencingEngine.get_elevation_at_point ramp_engine (1 / 2, 3 / 2)
     = Returned (Some (1 / 4))
  /\ GeoreferencingEngine.get_elevation_at_point
       (without_interpolator ramp_engine) (1 / 2, 3 / 2)
     = Returned (Some (1 / 2)).
Proof.
  assert (Hb : GeoreferencingEngine.in_bounds ramp_engine (1 / 2) (3 / 2) = true).
  { apply in_bounds_spec. cbn. lra. }
  split; [apply ramp_engine_init |]. split; [exact Hb |]. split.
  - unfold GeoreferencingEngine.get_elevation_at_point. rewrite Hb. cbn [negb].
    cbn [ramp_engine north_up_engine GeoreferencingEngine.interpolator].
    f_equal. unfold scipy.call, scipy.out_of_bounds, scipy.norm_distance, np.item.
    cbn. decide_cmp. cbn [orb]. f_equal. lra.
  - unfold GeoreferencingEngine.get_elevation_at_point.
    change (GeoreferencingEngine.in_bounds (without_interpolator ramp_engine))
      with (GeoreferencingEngine.in_bounds ramp_engine).
    rewrite Hb. cbn [negb].
    cbn [without_interpolator GeoreferencingEngine.interpolator].
    unfold GeoreferencingEngine.fallback_elevation, Affine.invert.
    rewrite Reqb_false by (unfold Affine.determinant; cbn; lra).
    cbn [bind].
    assert (Hinv : Affine.apply
                     (Affine.inverse
                        (GeoreferencingEngine.dem_transform
                           (without_interpolator ramp_engine)))
                     (1 / 2, 3 / 2) = (1 / 2, 1 / 2)).
    { unfold Affine.apply, Affine.inverse, Affine.determinant. cbn.
      f_equal; field. }
    rewrite Hinv. cbn iota beta.
    change (np.shape (GeoreferencingEngine.dem (without_interpolator ramp_engine)))
      with (2%nat, 2%nat).
    cbn iota beta.
    change (IZR (Z.of_nat 2 - 1)) with 1.
    decide_cmp. cbn [andb negb].
    rewrite (int_floor (1 / 2) 0) by (cbn; lra).
    change (Z.to_nat (0 + 1)) with 1%nat. change (Z.to_nat 0) with 0%nat.
    cbn. do 2 f_equal. lra.
Qed.

(** ** The coarse march *)

Lemma vec3_eta (p : Vec3) : mkVec3 (vx p) (vy p) (vz p) = p.
Proof. destruct p. reflexivity. Qed.

(** A ray that passes the validation runs the march from its origin. *)
Lemma intersect_validated (self : GeoreferencingEngine.t) (o d : Vec3)
      (step_size : option R) (max_steps : option Z) (m s : R) (n : Z) :
  vz d < 0 ->
  np.min (GeoreferencingEngine.dem self) = Some m ->
  m < vz o ->
  GeoreferencingEngine.march_parameters self o (normalized d) m step_size max_steps
  = Returned (s, n) ->
  GeoreferencingEngine.intersect_ray_with_dem self o d step_size max_steps
  = GeoreferencingEngine.march self (normalized d) s (Z.to_nat n) o None.
Proof.
  intros Hd Hmin Hm Hp.
  unfold GeoreferencingEngine.intersect_ray_with_dem.
  rewrite Rleb_false by lra.
  destruct (reduce_some_iff Rmin Rmax _ _ Hmin) as [M HM].
  unfold np.max, np.min in *. rewrite HM, Hmin.
  rewrite Rleb_false by lra.
  fold (normalized d). rewrite Hp. reflexivity.
Qed.

Lemma elevation_some_in_bounds (self : GeoreferencingEngine.t) (x y g : R) :
  GeoreferencingEngine.get_elevation_at_point self (x, y) = Returned (Some g) ->
  GeoreferencingEngine.in_bounds self x y = true.
Proof.
  unfold GeoreferencingEngine.get_elevation_at_point.
  destruct (GeoreferencingEngine.in_bounds self x y); [reflexivity | discriminate].
Qed.

Lemma elevation_out_of_bounds (self : GeoreferencingEngine.t) (x y : R) :
  GeoreferencingEngine.in_bounds self x y = false ->
  GeoreferencingEngine.get_elevation_at_point self (x, y) = Returned None.
Proof.
  intro H. unfold GeoreferencingEngine.get_elevation_at_point. rewrite H. reflexivity.
Qed.

Lemma march_sample_shift (o d : Vec3) (s : R) (k : nat) :
  march_sample (vadd o (vscale d s)) d s k = march_sample o d s (S k).
Proof.
  induction k as [| k IH]; [reflexivity |].
  cbn [march_sample] in *. rewrite IH. reflexivity.
Qed.

(** C9: when the first sample of the march is already at or below the
    terrain under it, the intersector returns that sample's (x, y) with
    the terrain elevation as z; no bisection takes place, there being no
    earlier sample above the terrain. *)
Theorem C9_first_sample_skips_bisection :
  forall (self : GeoreferencingEngine.t) (ray_origin ray_direction : Vec3)
         (step_size : option R) (max_steps : option Z) (m s g : R) (n : Z),
    vz ray_direction < 0 ->
    np.min (GeoreferencingEngine.dem self) = Some m ->
    m < vz ray_origin ->
    GeoreferencingEngine.march_parameters
      self ray_origin (normalized ray_direction) m step_size max_steps
    = Returned (s, n) ->
    (0 < n)%Z ->
    let first := march_sample ray_origin (normalized ray_direction) s 1 in
    GeoreferencingEngine.get_elevation_at_point self (vx first, vy first)
    = Returned (Some g) ->
    vz first <= g ->
    GeoreferencingEngine.intersect_ray_with_dem
      self ray_origin ray_direction step_size max_steps
    = Returned (Some (mkVec3 (vx first) (vy first) g)).
Proof.
  intros self o d step ms m s g n Hd Hmin Hm Hp Hn first Hg Hz.
  rewrite (intersect_validated self o d step ms m s n Hd Hmin Hm Hp).
  destruct (Z.to_nat n) as [| rest] eqn:Hk; [lia |].
  cbn [GeoreferencingEngine.march].
  change (vadd o (vscale (normalized d) s)) with first.
  rewrite (elevation_some_in_bounds _ _ _ _ Hg). cbn [negb].
  rewrite Hg. cbn [bind].
  rewrite Rleb_true by exact Hz. reflexivity.
Qed.

Lemma np_min_flat (E : R) : np.min (flat_dem E) = Some E.
Proof.
  unfold np.min, np.reduce, flat_dem. cbn [repeat concat app fold_left].
  repeat rewrite (Rmin_left E E) by lra. reflexivity.
Qed.

Lemma norm_down : np.linalg_norm (mkVec3 0 0 (-1)) = 1.
Proof.
  unfold np.linalg_norm. cbn [vx vy vz].
  replace (0 * 0 + 0 * 0 + -1 * -1) with 1 by lra. apply sqrt_1.
Qed.

Lemma normalized_down : normalized (mkVec3 0 0 (-1)) = mkVec3 0 0 (-1).
Proof.
  unfold normalized. rewrite norm_down. unfold vdiv. cbn [vx vy vz].
  f_equal; lra.
Qed.

Lemma C9_first_sample_skips_bisection_witness :
  GeoreferencingEngine.intersect_ray_with_dem
    (flat_engine 100) (mkVec3 5 5 101) (mkVec3 0 0 (-1)) (Some 2) (Some 1%Z)
  = Returned (Some (mkVec3 5 5 100)).
Proof.
  replace (mkVec3 5 5 100) with (mkVec3 (5 + 0 * 2) (5 + 0 * 2) 100)
    by (f_equal; lra).
  pose proof (C9_first_sample_skips_bisection
                (flat_engine 100) (mkVec3 5 5 101) (mkVec3 0 0 (-1))
                (Some 2) (Some 1%Z) 100 2 100 1%Z) as H.
  rewrite normalized_down in H. cbn in H.
  apply H; try lra; try lia.
  - apply np_min_flat.
  - reflexivity.
  - apply flat_engine_elevation; lra.
Defined.

(** On a constructed engine the elevation query always returns. *)
Lemma init_query_returns (dem_data : list (list R)) (tr : Affine.t)
      (self : GeoreferencingEngine.t) :
  GeoreferencingEngine.__init__ dem_data tr = Returned self ->
  forall xy, exists r,
    GeoreferencingEngine.get_elevation_at_point self xy = Returned r.
Proof.
  intros H [x y]. destruct (init_interpolator _ _ _ H) as (itp & _ & Hq).
  rewrite Hq. eauto.
Qed.

Section March.

Variable self : GeoreferencingEngine.t.
Hypothesis query_returns :
  forall xy, exists r,
    GeoreferencingEngine.get_elevation_at_point self xy = Returned r.
Variables (d : Vec3) (s : R).

(** No sample of the march is a crossing: the step budget runs out. *)
Lemma march_exhausted (steps : nat) :
  forall (cur : Vec3) (prev : option (Vec3 * R)),
    (forall k, (1 <= k <= steps)%nat -> ~ crossing self (march_sample cur d s k)) ->
    GeoreferencingEngine.march self d s steps cur prev = Returned None.
Proof.
  induction steps as [| rest IH]; intros cur prev Hno; [reflexivity |].
  cbn [GeoreferencingEngine.march].
  set (next := vadd cur (vscale d s)).
  destruct (GeoreferencingEngine.in_bounds self (vx next) (vy next));
    [| reflexivity].
  cbn [negb].
  destruct (query_returns (vx next, vy next)) as [[g |] Hg]; rewrite Hg; cbn [bind];
    [| reflexivity].
  destruct (vz next <=? g) eqn:Hz.
  - exfalso. apply (Hno 1%nat ltac:(lia)).
    exists g. apply Rleb_spec in Hz. auto.
  - apply IH. intros k Hk. unfold next. rewrite march_sample_shift.
    apply Hno. lia.
Qed.

(** A sample leaves the world bounds before any crossing. *)
Lemma march_leaves_bounds (steps : nat) :
  forall (cur : Vec3) (prev : option (Vec3 * R)) (k : nat),
    (1 <= k <= steps)%nat ->
    GeoreferencingEngine.in_bounds self (vx (march_sample cur d s k))
                                   (vy (march_sample cur d s k)) = false ->
    (forall j, (1 <= j < k)%nat -> ~ crossing self (march_sample cur d s j)) ->
    GeoreferencingEngine.march self d s steps cur prev = Returned None.
Proof.
  induction steps as [| rest IH]; intros cur prev k Hk Hout Hno; [lia |].
  cbn [GeoreferencingEngine.march].
  set (next := vadd cur (vscale d s)).
  destruct (GeoreferencingEngine.in_bounds self (vx next) (vy next)) eqn:Hb;
    [| reflexivity].
  cbn [negb].
  destruct (query_returns (vx next, vy next)) as [[g |] Hg]; rewrite Hg; cbn [bind];
    [| reflexivity].
  destruct k as [| [| k]]; [lia | |].
  - change (march_sample cur d s 1) with next in Hout. congruence.
  - destruct (vz next <=? g) eqn:Hz.
    + exfalso. apply (Hno 1%nat ltac:(lia)).
      exists g. apply Rleb_spec in Hz. auto.
    + apply (IH next _ (S k)); [lia | |].
      * unfold next. rewrite march_sample_shift. exact Hout.
      * intros j Hj. unfold next. rewrite march_sample_shift. apply Hno. lia.
Qed.

End March.

(** C2: on a constructed engine, a validated ray whose march produces a
    sample outside the world bounds before any crossing, or uses up its
    step budget without a sample at or below the terrain, yields [None]. *)
Theorem C2_march_failure_is_none :
  forall (dem_data : list (list R)) (tr : Affine.t) (self : GeoreferencingEngine.t)
         (ray_origin ray_direction : Vec3)
         (step_size : option R) (max_steps : option Z) (m s : R) (n : Z),
    GeoreferencingEngine.__init__ dem_data tr = Returned self ->
    vz ray_direction < 0 ->
    np.min (GeoreferencingEngine.dem self) = Some m ->
    m < vz ray_origin ->
    GeoreferencingEngine.march_parameters
      self ray_origin (normalized ray_direction) m step_size max_steps
    = Returned (s, n) ->
    let sample := march_sample ray_origin (normalized ray_direction) s in
    ((exists k, (1 <= k <= Z.to_nat n)%nat
                /\ GeoreferencingEngine.in_bounds
                     self (vx (sample k)) (vy (sample k)) = false
                /\ forall j, (1 <= j < k)%nat -> ~ crossing self (sample j))
     \/ (forall k, (1 <= k <= Z.to_nat n)%nat -> ~ crossing self (sample k))) ->
    GeoreferencingEngine.intersect_ray_with_dem
      self ray_origin ray_direction step_size max_steps
    = Returned None.
Proof.
  intros dem_data tr self o d step ms m s n Hinit Hd Hmin Hm Hp sample H.
  rewrite (intersect_validated self o d step ms m s n Hd Hmin Hm Hp).
  pose proof (init_query_returns _ _ _ Hinit) as Hq.
  destruct H as [(k & Hk & Hout & Hno) | Hno].
  - apply (march_leaves_bounds self Hq _ _ _ _ _ k); assumption.
  - apply march_exhausted; assumption.
Qed.

Lemma normalized_3_4 : normalized (mkVec3 3 0 (-4)) = mkVec3 (3 / 5) 0 (- (4 / 5)).
Proof.
  unfold normalized, np.linalg_norm. cbn [vx vy vz].
  replace (3 * 3 + 0 * 0 + -4 * -4) with (5 * 5) by lra.
  rewrite sqrt_square by lra. unfold vdiv. cbn [vx vy vz]. f_equal; lra.
Qed.

(** Evaluate [Rabs], [Rmax] and [Rmin] on operands that linear arithmetic
    can order. *)
Ltac decide_abs :=
  unfold Rabs, Rmax, Rmin;
  repeat match goal with
    | |- context [Rcase_abs ?x] => destruct (Rcase_abs x); try lra
    | |- context [Rle_dec ?x ?y] => destruct (Rle_dec x y); try lra
    end.

Lemma flat_engine_default_parameters :
  GeoreferencingEngine.march_parameters
    (flat_engine 0) (mkVec3 5 5 10) (mkVec3 (3 / 5) 0 (- (4 / 5))) 0 None None
  = Returned (25, 1000%Z).
Proof.
  unfold GeoreferencingEngine.march_parameters.
  cbn [flat_engine north_up_engine GeoreferencingEngine.transform flat_transform
       Affine.from_origin Affine.a Affine.e vz].
  assert (Hs : Rmax (Rabs 5) (Rabs (- (5))) * 5 = 25) by (decide_abs).
  rewrite Hs. rewrite Reqb_false by lra.
  assert (Hi : int ((10 - 0) / Rabs (- (4 / 5)) / 25) = 0%Z).
  { apply int_floor.
    - assert (Ha : Rabs (- (4 / 5)) = 4 / 5) by decide_abs. rewrite Ha. lra.
    - assert (Ha : Rabs (- (4 / 5)) = 4 / 5) by decide_abs. rewrite Ha. cbn. lra. }
  rewrite Hi. reflexivity.
Qed.

Lemma C2_march_failure_is_none_witness :
  GeoreferencingEngine.intersect_ray_with_dem
    (flat_engine 0) (mkVec3 5 5 10) (mkVec3 3 0 (-4)) None None
  = Returned None.
Proof.
  apply (C2_march_failure_is_none
           (flat_dem 0) flat_transform (flat_engine 0)
           (mkVec3 5 5 10) (mkVec3 3 0 (-4)) None None 0 25 1000%Z).
  - apply flat_engine_init.
  - cbn. lra.
  - apply np_min_flat.
  - cbn. lra.
  - rewrite normalized_3_4. apply flat_engine_default_parameters.
  - left. exists 1%nat. split; [lia |]. split; [| intros j Hj; lia].
    rewrite normalized_3_4.
    unfold GeoreferencingEngine.in_bounds. cbn. decide_cmp. reflexivity.
Defined.

(** ** The bisection *)

(** C10: when the bisection loop ends without meeting its tolerance, a
    final elevation of exactly 0 has the same effect as an absent one:
    the point returned is the final midpoint with its own z, not the
    terrain elevation 0. *)
Theorem C10_zero_elevation_taken_as_absent :
  forall (self : GeoreferencingEngine.t) (point1 point2 : Vec3) (elev1 elev2 : R)
         (max_iter : nat) (last1 last2 : Vec3) (e1 e2 : R) (final_elev : option R),
    GeoreferencingEngine.bisect_loop self max_iter point1 point2 elev1 elev2
    = Returned (GeoreferencingEngine.Unconverged last1 last2 e1 e2) ->
    let final_point := vdiv (vadd last1 last2) 2 in
    GeoreferencingEngine.get_elevation_at_point
      self (vx final_point, vy final_point) = Returned final_elev ->
    final_elev = Some 0 \/ final_elev = None ->
    GeoreferencingEngine._bisect_intersection self point1 point2 elev1 elev2 max_iter
    = Returned final_point.
Proof.
  intros self p1 p2 el1 el2 max_iter q1 q2 e1 e2 final_elev Hloop final_point Hq Hz.
  unfold GeoreferencingEngine._bisect_intersection.
  rewrite Hloop. cbn [bind]. fold final_point. rewrite Hq. cbn [bind].
  assert (Ht : truthy final_elev = false).
  { destruct Hz as [-> | ->]; [| reflexivity].
    cbn [truthy]. rewrite Reqb_true by reflexivity. reflexivity. }
  rewrite Ht. rewrite vec3_eta. reflexivity.
Qed.

(** One halving of a vertical segment over the flat grid at elevation 0
    whose midpoint is still at least 0.1 above the ground. *)
Lemma flat_bisect_halves (rest : nat) (z1 z e1 e2 : R) :
  z1 = 2 * z -> 0.1 <= z ->
  GeoreferencingEngine.bisect_loop
    (flat_engine 0) (S rest) (mkVec3 5 5 z1) (mkVec3 5 5 0) e1 e2
  = GeoreferencingEngine.bisect_loop
      (flat_engine 0) rest (mkVec3 5 5 z) (mkVec3 5 5 0) 0 e2.
Proof.
  intros -> Hz. cbn [GeoreferencingEngine.bisect_loop].
  replace (vdiv (vadd (mkVec3 5 5 (2 * z)) (mkVec3 5 5 0)) 2) with (mkVec3 5 5 z)
    by (unfold vdiv, vadd; cbn [vx vy vz]; f_equal; lra).
  cbn [vx vy vz]. rewrite flat_engine_elevation by lra. cbn [bind].
  assert (Ha : Rabs (z - 0) = z) by decide_abs. rewrite Ha.
  rewrite Rltb_false by lra. rewrite Rltb_true by lra. reflexivity.
Qed.

Lemma flat_bisect_unconverged :
  GeoreferencingEngine.bisect_loop
    (flat_engine 0) GeoreferencingEngine.default_max_iter
    (mkVec3 5 5 1024) (mkVec3 5 5 0) 1 0
  = Returned (GeoreferencingEngine.Unconverged (mkVec3 5 5 1) (mkVec3 5 5 0) 0 0).
Proof.
  unfold GeoreferencingEngine.default_max_iter.
  rewrite (flat_bisect_halves _ 1024 512) by lra.
  rewrite (flat_bisect_halves _ 512 256) by lra.
  rewrite (flat_bisect_halves _ 256 128) by lra.
  rewrite (flat_bisect_halves _ 128 64) by lra.
  rewrite (flat_bisect_halves _ 64 32) by lra.
  rewrite (flat_bisect_halves _ 32 16) by lra.
  rewrite (flat_bisect_halves _ 16 8) by lra.
  rewrite (flat_bisect_halves _ 8 4) by lra.
  rewrite (flat_bisect_halves _ 4 2) by lra.
  rewrite (flat_bisect_halves _ 2 1) by lra.
  reflexivity.
Qed.

Lemma C10_zero_elevation_taken_as_absent_witness :
  GeoreferencingEngine._bisect_intersection
    (flat_engine 0) (mkVec3 5 5 1024) (mkVec3 5 5 0) 1 0
    GeoreferencingEngine.default_max_iter
  = Returned (vdiv (vadd (mkVec3 5 5 1) (mkVec3 5 5 0)) 2)
  /\ vz (vdiv (vadd (mkVec3 5 5 1) (mkVec3 5 5 0)) 2) = 1 / 2.
Proof.
  split.
  - apply (C10_zero_elevation_taken_as_absent
             (flat_engine 0) (mkVec3 5 5 1024) (mkVec3 5 5 0) 1 0
             GeoreferencingEngine.default_max_iter
             (mkVec3 5 5 1) (mkVec3 5 5 0) 0 0 (Some 0)).
    + apply flat_bisect_unconverged.
    + cbn [vdiv vadd vx vy vz]. apply flat_engine_elevation; lra.
    + left. reflexivity.
  - cbn. lra.
Defined.

(** ** Rotation matrices *)

Ltac destruct_mat m :=
  let r0 := fresh "r" in let r1 := fresh "r" in let r2 := fresh "r" in
  destruct m as [r0 r1 r2]; destruct r0, r1, r2.

Lemma vec3_ext (p q : Vec3) :
  vx p = vx q -> vy p = vy q -> vz p = vz q -> p = q.
Proof. destruct p, q. cbn. intros -> -> ->. reflexivity. Qed.

Lemma mat3_ext (m n : Mat3) :
  row0 m = row0 n -> row1 m = row1 n -> row2 m = row2 n -> m = n.
Proof. destruct m, n. cbn. intros -> -> ->. reflexivity. Qed.

Ltac mat_ring :=
  unfold matmul, transpose, matvec, identity3, col0, col1, col2, dot;
  cbn [row0 row1 row2 vx vy vz];
  repeat first [ apply mat3_ext | apply vec3_ext ];
  cbn [row0 row1 row2 vx vy vz]; try ring.

Lemma matmul_assoc (a b c : Mat3) : matmul (matmul a b) c = matmul a (matmul b c).
Proof. destruct_mat a. destruct_mat b. destruct_mat c. mat_ring. Qed.

Lemma transpose_matmul (a b : Mat3) :
  transpose (matmul a b) = matmul (transpose b) (transpose a).
Proof. destruct_mat a. destruct_mat b. mat_ring. Qed.

Lemma matmul_identity_l (a : Mat3) : matmul identity3 a = a.
Proof. destruct_mat a. mat_ring. Qed.

Lemma matvec_matmul (a b : Mat3) (v : Vec3) :
  matvec (matmul a b) v = matvec a (matvec b v).
Proof. destruct_mat a. destruct_mat b. destruct v. mat_ring. Qed.

Lemma matvec_identity (v : Vec3) : matvec identity3 v = v.
Proof. destruct v. mat_ring. Qed.

Lemma orthogonal_matmul (a b : Mat3) :
  orthogonal a -> orthogonal b -> orthogonal (matmul a b).
Proof.
  unfold orthogonal. intros Ha Hb.
  rewrite transpose_matmul, matmul_assoc.
  rewrite <- (matmul_assoc (transpose a) a b), Ha, matmul_identity_l. exact Hb.
Qed.

Lemma sin2_cos2_mul (x : R) : sin x * sin x + cos x * cos x = 1.
Proof. pose proof (sin2_cos2 x) as H. unfold Rsqr in H. exact H. Qed.

Lemma orthogonal_rotation (roll_deg pitch_deg yaw_deg : R) :
  orthogonal (CameraModel._create_rotation_matrix roll_deg pitch_deg yaw_deg).
Proof.
  unfold CameraModel._create_rotation_matrix. cbv zeta.
  repeat apply orthogonal_matmul; unfold orthogonal; mat_ring.
  all: try (match goal with
            | |- context [sin ?x] => pose proof (sin2_cos2_mul x); nra
            end).
Qed.

(** The rotation matrix acts as the four maps applied in turn. *)
Lemma rotation_matrix_acts (roll_deg pitch_deg yaw_deg : R) (v : Vec3) :
  matvec (CameraModel._create_rotation_matrix roll_deg pitch_deg yaw_deg) v
  = camera_to_world roll_deg pitch_deg yaw_deg v.
Proof.
  unfold CameraModel._create_rotation_matrix, camera_to_world. cbv zeta.
  rewrite !matvec_matmul. destruct v as [x y z].
  unfold rot_z, rot_y, rot_x, base_correction, matvec, dot.
  cbn [row0 row1 row2 vx vy vz].
  apply vec3_ext; cbn [vx vy vz]; ring.
Qed.

Lemma transpose_matvec (m : Mat3) (v : Vec3) :
  orthogonal m -> matvec (transpose m) (matvec m v) = v.
Proof.
  intro H. rewrite <- matvec_matmul, H. apply matvec_identity.
Qed.

Lemma dot_matvec (m : Mat3) (u v : Vec3) :
  dot (matvec m u) (matvec m v) = dot u (matvec (matmul (transpose m) m) v).
Proof. destruct_mat m. destruct u, v. mat_ring. Qed.

Lemma norm_dot (v : Vec3) : np.linalg_norm v = sqrt (dot v v).
Proof. reflexivity. Qed.

Lemma dot_self_nonneg (v : Vec3) : 0 <= dot v v.
Proof. unfold dot. nra. Qed.

(** A rotation keeps the length of a vector. *)
Lemma norm_matvec (m : Mat3) (v : Vec3) :
  orthogonal m -> np.linalg_norm (matvec m v) = np.linalg_norm v.
Proof.
  intro H. rewrite !norm_dot, dot_matvec, H, matvec_identity. reflexivity.
Qed.

Lemma norm_nonneg (v : Vec3) : 0 <= np.linalg_norm v.
Proof. apply sqrt_pos. Qed.

Lemma norm_square (v : Vec3) : np.linalg_norm v * np.linalg_norm v = dot v v.
Proof. rewrite norm_dot. apply sqrt_def. apply dot_self_nonneg. Qed.

(** Dividing a vector by its positive length gives a unit vector. *)
Lemma norm_vdiv_self (v : Vec3) :
  0 < np.linalg_norm v -> np.linalg_norm (vdiv v (np.linalg_norm v)) = 1.
Proof.
  intro Hpos. pose proof (norm_square v) as Hsq.
  set (n := np.linalg_norm v) in *.
  rewrite norm_dot.
  replace (dot (vdiv v n) (vdiv v n)) with 1; [apply sqrt_1 |].
  unfold dot, vdiv in *. cbn [vx vy vz].
  replace (vx v / n * (vx v / n) + vy v / n * (vy v / n) + vz v / n * (vz v / n))
    with ((vx v * vx v + vy v * vy v + vz v * vz v) / (n * n)) by (field; lra).
  rewrite <- Hsq. field. lra.
Qed.

(** The length of a vector is at least the size of its z component. *)
Lemma norm_ge_z (v : Vec3) : Rabs (vz v) <= np.linalg_norm v.
Proof.
  rewrite norm_dot, <- sqrt_Rsqr_abs.
  apply sqrt_le_1_alt. unfold dot, Rsqr. nra.
Qed.

(** ** Pixel to ray *)

Lemma pixel_to_ray_cases (self : CameraModel.t) (u v : R) :
  let w := matvec (CameraModel.R_cam_to_world self) (vec_camera self (u, v)) in
  CameraModel.pixel_to_ray self (u, v)
  = (CameraModel.camera_pos_world self,
     if np.linalg_norm w <? 1e-9 then mkVec3 0 0 (-1)
     else vdiv w (np.linalg_norm w)).
Proof.
  cbv zeta. unfold CameraModel.pixel_to_ray, vec_camera. cbn [fst snd].
  destruct (_ <? 1e-9); reflexivity.
Qed.

(** C6: for every pixel the direction returned by [pixel_to_ray] has
    length one; it is the camera-local vector [(u - cx, cy - v, f)] taken
    through diag(1, -1, -1), Rx(roll), Ry(pitch) and Rz(yaw) and divided
    by its length, or [(0, 0, -1)] when that length is below 1e-9; the
    origin is the camera position. *)
Theorem C6_pixel_to_ray_unit_direction :
  forall (params : CameraModel.camera_params) (u v : R),
    let self := CameraModel.__init__ params in
    let w := camera_to_world (CameraModel.roll self) (CameraModel.pitch self)
                             (CameraModel.yaw self)
                             (mkVec3 (u - CameraModel.cx self)
                                     (CameraModel.cy self - v)
                                     (CameraModel.f_px self)) in
    let ray := CameraModel.pixel_to_ray self (u, v) in
    fst ray = CameraModel.camera_pos_world self
    /\ np.linalg_norm (snd ray) = 1
    /\ (1e-9 <= np.linalg_norm w -> snd ray = vdiv w (np.linalg_norm w))
    /\ (np.linalg_norm w < 1e-9 -> snd ray = mkVec3 0 0 (-1)).
Proof.
  intros params u v self w ray.
  assert (Hw : matvec (CameraModel.R_cam_to_world self) (vec_camera self (u, v)) = w).
  { unfold self at 1. unfold CameraModel.__init__.
    destruct (match CameraModel.principal_point_px params with
              | Some pp => (fst pp, snd pp)
              | None => _ end) as [cx0 cy0] eqn:Hpp.
    cbn [CameraModel.R_cam_to_world]. rewrite rotation_matrix_acts.
    subst w. unfold self, CameraModel.__init__. rewrite Hpp.
    reflexivity. }
  subst ray. rewrite pixel_to_ray_cases. cbv zeta. rewrite Hw. cbn [fst snd].
  split; [reflexivity |].
  destruct (np.linalg_norm w <? 1e-9) eqn:Hn.
  - apply Rltb_spec in Hn. split; [apply norm_down |].
    split; [intro; lra | reflexivity].
  - apply Rltb_nspec in Hn. split; [apply norm_vdiv_self; lra |].
    split; [reflexivity | intro; lra].
Qed.

Lemma C6_pixel_to_ray_unit_direction_witness :
  np.linalg_norm (snd (CameraModel.pixel_to_ray nadir_camera (0, 0))) = 1
  /\ np.linalg_norm (snd (CameraModel.pixel_to_ray tiny_focal_camera (1 / 2, 1 / 2))) = 1.
Proof.
  split.
  - exact (proj1 (proj2 (C6_pixel_to_ray_unit_direction nadir_params 0 0))).
  - exact (proj1 (proj2 (C6_pixel_to_ray_unit_direction
                           tiny_focal_params (1 / 2) (1 / 2)))).
Defined.

(** ** Projection *)

Lemma init_rotation (params : CameraModel.camera_params) :
  CameraModel.R_cam_to_world (CameraModel.__init__ params)
  = CameraModel._create_rotation_matrix
      (CameraModel.rotation_roll params) (CameraModel.rotation_pitch params)
      (CameraModel.rotation_yaw params).
Proof.
  unfold CameraModel.__init__.
  destruct (match CameraModel.principal_point_px params with
            | Some pp => (fst pp, snd pp)
            | None => _ end).
  reflexivity.
Qed.

Lemma init_orthogonal (params : CameraModel.camera_params) :
  orthogonal (CameraModel.R_cam_to_world (CameraModel.__init__ params)).
Proof. rewrite init_rotation. apply orthogonal_rotation. Qed.

Lemma matvec_scaled (m : Mat3) (x : Vec3) (n t : R) :
  matvec m (vscale (vdiv x n) t) = vscale (vdiv (matvec m x) n) t.
Proof.
  destruct_mat m. destruct x.
  unfold matvec, vscale, vdiv, dot, Rdiv. cbn [row0 row1 row2 vx vy vz].
  apply vec3_ext; cbn [vx vy vz]; ring.
Qed.

Lemma ray_point_relative (o d : Vec3) (t : R) :
  vsub (vadd o (vscale d t)) o = vscale d t.
Proof. unfold vsub, vadd, vscale. apply vec3_ext; cbn [vx vy vz]; ring. Qed.

(** C7, as the code has it: with a positive focal length, for a pixel
    inside the sensor whose rotated camera-local vector has length at
    least 1e-9 (so that [pixel_to_ray] normalises it), every point
    [origin + t * direction] with [t > 0] projects back to exactly
    [(u, v)]. *)
Theorem C7_round_trip_without_fallback :
  forall (params : CameraModel.camera_params) (u v t : R),
    let self := CameraModel.__init__ params in
    let ray := CameraModel.pixel_to_ray self (u, v) in
    0 < CameraModel.f_px self ->
    0 <= u < CameraModel.w_px self ->
    0 <= v < CameraModel.h_px self ->
    0 < t ->
    1e-9 <= np.linalg_norm
              (matvec (CameraModel.R_cam_to_world self) (vec_camera self (u, v))) ->
    CameraModel.world_to_pixel self (vadd (fst ray) (vscale (snd ray) t))
    = Some (u, v).
Proof.
  intros params u v t self ray Hf Hu Hv Ht Hn.
  pose proof (init_orthogonal params) as Horth. fold self in Horth.
  subst ray. rewrite pixel_to_ray_cases. cbv zeta.
  rewrite Rltb_false by exact Hn. cbn [fst snd].
  set (n := np.linalg_norm _) in *.
  unfold CameraModel.world_to_pixel.
  rewrite ray_point_relative, matvec_scaled, (transpose_matvec _ _ Horth).
  unfold vec_camera, vscale, vdiv. cbn [vx vy vz fst snd].
  assert (Hpos : 0 < n) by lra.
  assert (Hz : 0 < CameraModel.f_px self / n * t).
  { apply Rmult_lt_0_compat; [| exact Ht].
    apply Rdiv_lt_0_compat; assumption. }
  rewrite Rleb_false by exact Hz.
  replace (CameraModel.f_px self
           * ((u - CameraModel.cx self) / n * t / (CameraModel.f_px self / n * t))
           + CameraModel.cx self) with u by (field; lra).
  replace (CameraModel.cy self
           - CameraModel.f_px self
             * ((CameraModel.cy self - v) / n * t / (CameraModel.f_px self / n * t)))
    with v by (field; lra).
  rewrite (Rleb_true 0 u), (Rltb_true u), (Rleb_true 0 v), (Rltb_true v) by lra.
  reflexivity.
Qed.

Lemma rotation_roll_only (roll_deg : R) :
  let g := np.deg2rad roll_deg in
  CameraModel._create_rotation_matrix roll_deg 0 0
  = mkMat3 (mkVec3 1 0 0)
           (mkVec3 0 (- cos g) (sin g))
           (mkVec3 0 (- sin g) (- cos g)).
Proof.
  cbv zeta. unfold CameraModel._create_rotation_matrix. cbv zeta.
  replace (np.deg2rad 0) with 0 by (unfold np.deg2rad; lra).
  rewrite cos_0, sin_0. mat_ring.
Qed.

Lemma deg2rad_45 : np.deg2rad 45 = PI / 4.
Proof. unfold np.deg2rad. lra. Qed.

Lemma cos_45_pos : 0 < cos (np.deg2rad 45).
Proof.
  rewrite deg2rad_45, cos_PI4.
  apply Rdiv_lt_0_compat; [lra | apply sqrt_lt_R0; lra].
Qed.

Lemma sin_45_cos_45 : sin (np.deg2rad 45) = cos (np.deg2rad 45).
Proof. rewrite deg2rad_45, cos_PI4, sin_PI4. reflexivity. Qed.

Lemma tiny_focal_ray :
  CameraModel.pixel_to_ray tiny_focal_camera (1 / 2, 1 / 2)
  = (mkVec3 0 0 0, mkVec3 0 0 (-1)).
Proof.
  rewrite pixel_to_ray_cases. cbv zeta.
  unfold tiny_focal_camera at 1 2.
  rewrite norm_matvec by apply init_orthogonal.
  assert (Hn : np.linalg_norm (vec_camera tiny_focal_camera (1 / 2, 1 / 2)) = 1e-10).
  { unfold np.linalg_norm, vec_camera. cbn.
    match goal with
    | |- sqrt ?a = ?b => replace a with (b * b) by lra
    end.
    apply sqrt_square. lra. }
  rewrite Hn. rewrite Rltb_true by lra. reflexivity.
Qed.

(** C7 fails as stated: the camera with focal length 1e-10 px, rolled by 45
    degrees, sends the pixel (1/2, 1/2) strictly inside its 1 x 1 sensor to
    the fallback direction (0, 0, -1); that ray has the positive forward
    component cos 45, and the point at t = 1 projects to
    (1/2, 1/2 - 1e-10), not to (1/2, 1/2). *)
Lemma C7_counterexample_tiny_focal_length :
  let self := tiny_focal_camera in
  let ray := CameraModel.pixel_to_ray self (1 / 2, 1 / 2) in
  0 < CameraModel.f_px self
  /\ 0 < 1 / 2 < CameraModel.w_px self
  /\ 0 < 1 / 2 < CameraModel.h_px self
  /\ 0 < vz (matvec (transpose (CameraModel.R_cam_to_world self)) (snd ray))
  /\ CameraModel.world_to_pixel self (vadd (fst ray) (vscale (snd ray) 1))
     = Some (1 / 2, 1 / 2 - 1e-10)
  /\ CameraModel.world_to_pixel self (vadd (fst ray) (vscale (snd ray) 1))
     <> Some (1 / 2, 1 / 2).
Proof.
  cbv zeta. rewrite tiny_focal_ray. cbn [fst snd].
  pose proof cos_45_pos as Hc. pose proof sin_45_cos_45 as Hs.
  assert (HR : CameraModel.R_cam_to_world tiny_focal_camera
               = mkMat3 (mkVec3 1 0 0)
                        (mkVec3 0 (- cos (np.deg2rad 45)) (sin (np.deg2rad 45)))
                        (mkVec3 0 (- sin (np.deg2rad 45)) (- cos (np.deg2rad 45)))).
  { unfold tiny_focal_camera. rewrite init_rotation. apply rotation_roll_only. }
  assert (Hproj : CameraModel.world_to_pixel tiny_focal_camera
                    (vadd (mkVec3 0 0 0) (vscale (mkVec3 0 0 (-1)) 1))
                  = Some (1 / 2, 1 / 2 - 1e-10)).
  { unfold CameraModel.world_to_pixel. rewrite HR.
    change (CameraModel.camera_pos_world tiny_focal_camera) with (mkVec3 0 0 0).
    change (CameraModel.f_px tiny_focal_camera) with 1e-10.
    change (CameraModel.cx tiny_focal_camera) with (1 / 2).
    change (CameraModel.cy tiny_focal_camera) with (1 / 2).
    change (CameraModel.w_px tiny_focal_camera) with 1.
    change (CameraModel.h_px tiny_focal_camera) with 1.
    rewrite Hs. set (c := cos (np.deg2rad 45)) in *.
    unfold matvec, transpose, col0, col1, col2, dot, vsub, vadd, vscale.
    cbn [row0 row1 row2 vx vy vz].
    rewrite Rleb_false by lra.
    match goal with
    | |- context [1e-10 * (?x / ?z) + 1 / 2] =>
        replace (1e-10 * (x / z) + 1 / 2) with (1 / 2) by (field; lra)
    end.
    match goal with
    | |- context [1 / 2 - 1e-10 * (?y / ?z)] =>
        replace (1 / 2 - 1e-10 * (y / z)) with (1 / 2 - 1e-10) by (field; lra)
    end.
    decide_cmp. reflexivity. }
  repeat split; try (cbn; lra).
  - rewrite HR. unfold matvec, transpose, col0, col1, col2, dot.
    cbn [row0 row1 row2 vx vy vz]. lra.
  - exact Hproj.
  - rewrite Hproj. intro H. inversion H. lra.
Qed.

Lemma nadir_norm_bound (u v : R) :
  1e-9 <= np.linalg_norm
            (matvec (CameraModel.R_cam_to_world nadir_camera)
                    (vec_camera nadir_camera (u, v))).
Proof.
  unfold nadir_camera at 1. rewrite norm_matvec by apply init_orthogonal.
  pose proof (norm_ge_z (vec_camera nadir_camera (u, v))) as H.
  change (vz (vec_camera nadir_camera (u, v))) with 6 in H.
  assert (Ha : Rabs 6 = 6) by decide_abs. lra.
Qed.

Lemma C7_round_trip_without_fallback_witness :
  let ray := CameraModel.pixel_to_ray nadir_camera (1, 1) in
  CameraModel.world_to_pixel nadir_camera (vadd (fst ray) (vscale (snd ray) 2))
  = Some (1, 1).
Proof.
  apply (C7_round_trip_without_fallback nadir_params 1 1 2).
  - cbn. lra.
  - cbn. lra.
  - cbn. lra.
  - lra.
  - apply nadir_norm_bound.
Defined.

(** ** Single point and batch *)

Lemma Rleb_negb_Rltb (x y : R) : (x <=? y) = negb (y <? x).
Proof.
  unfold Rleb, Rltb. destruct (Rle_dec x y), (Rlt_dec y x); try reflexivity; lra.
Qed.

(** C8: on a one-element array the batch projection agrees with the
    single-point one: the entry is valid with the pixel that
    [world_to_pixel] returns, or invalid with pixel (0, 0) when
    [world_to_pixel] returns [None]; and [world_to_pixel] returns [None]
    exactly when the point has camera-frame Z <= 0 or its pixel lies
    outside [0, width) x [0, height). *)
Theorem C8_batch_of_one_agrees :
  forall (self : CameraModel.t) (p : Vec3),
    let P_cam := camera_frame self p in
    let u := CameraModel.f_px self * (vx P_cam / vz P_cam) + CameraModel.cx self in
    let v := CameraModel.cy self - CameraModel.f_px self * (vy P_cam / vz P_cam) in
    CameraModel.project_points_batch self [p]
    = match CameraModel.world_to_pixel self p with
      | Some uv => ([uv], [true])
      | None => ([(0, 0)], [false])
      end
    /\ (CameraModel.world_to_pixel self p = None <->
        vz P_cam <= 0
        \/ ~ (0 <= u < CameraModel.w_px self /\ 0 <= v < CameraModel.h_px self))
    /\ (CameraModel.world_to_pixel self p <> None ->
        CameraModel.world_to_pixel self p = Some (u, v)).
Proof.
  intros self p P_cam u v.
  assert (Hsingle :
            CameraModel.world_to_pixel self p
            = if vz P_cam <=? 0 then None
              else if (0 <=? u) && (u <? CameraModel.w_px self)
                      && (0 <=? v) && (v <? CameraModel.h_px self)
                   then Some (u, v) else None) by reflexivity.
  split; [| rewrite Hsingle; clear Hsingle].
  - clear Hsingle. subst u v P_cam. unfold camera_frame.
    unfold CameraModel.project_points_batch, CameraModel.world_to_pixel,
      CameraModel.world_to_camera_batch.
    cbn [length repeat map existsb].
    set (P_cam := matvec (transpose (CameraModel.R_cam_to_world self))
                         (vsub p (CameraModel.camera_pos_world self))).
    rewrite (Rleb_negb_Rltb (vz P_cam) 0).
    destruct (0 <? vz P_cam); cbn [negb orb]; [| reflexivity].
    unfold where_, select.
    cbn [length seq combine filter fst snd map].
    set (u := CameraModel.f_px self * (vx P_cam / vz P_cam) + CameraModel.cx self).
    set (v := CameraModel.cy self - CameraModel.f_px self * (vy P_cam / vz P_cam)).
    destruct ((0 <=? u) && (u <? CameraModel.w_px self)
              && (0 <=? v) && (v <? CameraModel.h_px self));
      reflexivity.
  - destruct (vz P_cam <=? 0) eqn:Hz.
    + apply Rleb_spec in Hz.
      split; [| intro H; contradiction].
      split; [intros _; left; exact Hz | reflexivity].
    + apply Rleb_nspec in Hz.
      destruct ((0 <=? u) && (u <? CameraModel.w_px self)
                && (0 <=? v) && (v <? CameraModel.h_px self)) eqn:Hb.
      * rewrite !andb_true_iff, !Rleb_spec, !Rltb_spec in Hb.
        split; [| reflexivity].
        split; [discriminate | intros [H | H]; [lra | tauto]].
      * split; [| intro H; contradiction].
        split; [| reflexivity]. intros _. right. intro H.
        assert (Ht : (0 <=? u) && (u <? CameraModel.w_px self)
                     && (0 <=? v) && (v <? CameraModel.h_px self) = true).
        { rewrite !andb_true_iff, !Rleb_spec, !Rltb_spec. tauto. }
        congruence.
Qed.

(** ** Ground coverage *)

Lemma mean_of_four (a b c d : R) : np.mean [a; b; c; d] = (a + b + c + d) / 4.
Proof. unfold np.mean, np.sum. cbn. field. Qed.

Lemma corner_step_cases (self : CameraModel.t) (ge : R)
      (footprint : list (R * R)) (corner : R * R) :
  (corner_hits self ge corner
   /\ CameraModel.corner_step self ge footprint corner
      = footprint ++ [corner_point self ge corner])
  \/ (~ corner_hits self ge corner
      /\ CameraModel.corner_step self ge footprint corner = footprint).
Proof.
  unfold CameraModel.corner_step, corner_hits, corner_point.
  destruct (CameraModel.pixel_to_ray self corner) as [o d]. cbn [fst snd].
  destruct (Rabs (vz d) <? 1e-9) eqn:Hpar.
  - apply Rltb_spec in Hpar. right. split; [lra | reflexivity].
  - apply Rltb_nspec in Hpar.
    destruct (CameraModel.plane_parameter ge o d <? 0) eqn:Hneg.
    + apply Rltb_spec in Hneg. right. split; [lra | reflexivity].
    + apply Rltb_nspec in Hneg. left. split; [lra | reflexivity].
Qed.

Lemma corner_loop_length (self : CameraModel.t) (ge : R) (corners : list (R * R)) :
  forall footprint,
    (length (fold_left (CameraModel.corner_step self ge) corners footprint)
     <= length footprint + length corners)%nat.
Proof.
  induction corners as [| c cs IH]; intro fp; cbn [fold_left length]; [lia |].
  specialize (IH (CameraModel.corner_step self ge fp c)).
  destruct (corner_step_cases self ge fp c) as [[_ E] | [_ E]]; rewrite E in *.
  - rewrite length_app in IH. cbn [length] in IH. lia.
  - lia.
Qed.

(** The footprint built by the loop over the corners: every intersection
    point in order when each corner hits, fewer points than corners
    otherwise. *)
Lemma corner_loop_cases (self : CameraModel.t) (ge : R) (corners : list (R * R)) :
  forall footprint,
    (Forall (corner_hits self ge) corners
     /\ fold_left (CameraModel.corner_step self ge) corners footprint
        = footprint ++ map (corner_point self ge) corners)
    \/ (~ Forall (corner_hits self ge) corners
        /\ (length (fold_left (CameraModel.corner_step self ge) corners footprint)
            < length footprint + length corners)%nat).
Proof.
  induction corners as [| c cs IH]; intro fp; cbn [fold_left map length].
  - left. split; [constructor | symmetry; apply app_nil_r].
  - destruct (corner_step_cases self ge fp c) as [[Hc E] | [Hc E]]; rewrite E.
    + destruct (IH (fp ++ [corner_point self ge c])) as [[Hall Hfp] | [Hnot Hlen]].
      * left. split; [constructor; assumption |].
        rewrite Hfp, <- app_assoc. reflexivity.
      * right. split; [intro HF; inversion HF; contradiction |].
        rewrite length_app in Hlen. cbn [length] in Hlen. lia.
    + right. split; [intro HF; inversion HF; contradiction |].
      pose proof (corner_loop_length self ge cs fp). lia.
Qed.

(** C5: the coverage is empty with radius 0 when the camera is at or
    below the ground elevation; the footprint is non-empty exactly when
    the camera is above it and every one of the four corner rays meets the
    plane (|direction.z| >= 1e-9 and t >= 0); the footprint then holds the
    four intersection points in corner order and the radius is the mean
    Euclidean distance from their centroid to each of them. *)
Theorem C5_ground_coverage :
  forall (self : CameraModel.t) (ground_elevation : R),
    let result := CameraModel.compute_ground_coverage self ground_elevation in
    let corners := CameraModel.image_corners self in
    (vz (CameraModel.camera_pos_world self) <= ground_elevation ->
     result = ([], 0))
    /\ (fst result <> [] <->
        ground_elevation < vz (CameraModel.camera_pos_world self)
        /\ Forall (corner_hits self ground_elevation) corners)
    /\ (fst result <> [] ->
        exists p1 p2 p3 p4,
          map (corner_point self ground_elevation) corners = [p1; p2; p3; p4]
          /\ result = ([p1; p2; p3; p4], mean_distance_to_centroid p1 p2 p3 p4)).
Proof.
  intros self ge result corners. subst result corners.
  unfold CameraModel.compute_ground_coverage.
  destruct (vz (CameraModel.camera_pos_world self) - ge <=? 0) eqn:Hagl.
  - apply Rleb_spec in Hagl. cbn [fst].
    split; [reflexivity |]. split.
    + split; [intro H; contradiction | intros [H _]; lra].
    + intro H. contradiction.
  - apply Rleb_nspec in Hagl.
    split; [intro H; lra |].
    destruct (corner_loop_cases self ge (CameraModel.image_corners self) [])
      as [[Hall Hfp] | [Hnot Hlen]].
    + rewrite Hfp. unfold CameraModel.image_corners in *.
      cbn [app map length Nat.eqb negb fst].
      split.
      * split; [intros _; split; [lra | exact Hall] | intros _; discriminate].
      * intros _. do 4 eexists. split; [reflexivity |].
        rewrite !mean_of_four. reflexivity.
    + cbn [length Nat.add CameraModel.image_corners] in Hlen.
      destruct (length _ =? 4)%nat eqn:Hfour;
        [apply Nat.eqb_eq in Hfour; lia |].
      cbn [negb fst]. split.
      * split; [intro H; contradiction | intros [_ H]; contradiction].
      * intro H. contradiction.
Qed.

Lemma rotation_zero :
  CameraModel._create_rotation_matrix 0 0 0
  = mkMat3 (mkVec3 1 0 0) (mkVec3 0 (-1) 0) (mkVec3 0 0 (-1)).
Proof.
  rewrite rotation_roll_only. cbv zeta.
  replace (np.deg2rad 0) with 0 by (unfold np.deg2rad; lra).
  rewrite cos_0, sin_0. mat_ring.
Qed.

(** The rays of the nadir camera through the pixels at distance
    [sqrt 13] from the principal point: the camera-local vector has
    length 7. *)
Lemma nadir_ray (u v : R) :
  (u - 3) * (u - 3) + (2 - v) * (2 - v) = 13 ->
  CameraModel.pixel_to_ray nadir_camera (u, v)
  = (mkVec3 0 0 12, mkVec3 ((u - 3) / 7) (- (2 - v) / 7) (- 6 / 7)).
Proof.
  intro H. rewrite pixel_to_ray_cases. cbv zeta.
  assert (HR : CameraModel.R_cam_to_world nadir_camera
               = mkMat3 (mkVec3 1 0 0) (mkVec3 0 (-1) 0) (mkVec3 0 0 (-1))).
  { unfold nadir_camera. rewrite init_rotation. apply rotation_zero. }
  assert (Hn : np.linalg_norm
                 (matvec (CameraModel.R_cam_to_world nadir_camera)
                         (vec_camera nadir_camera (u, v))) = 7).
  { unfold nadir_camera at 1. rewrite norm_matvec by apply init_orthogonal.
    unfold np.linalg_norm, vec_camera.
    change (CameraModel.cx nadir_camera) with 3.
    change (CameraModel.cy nadir_camera) with 2.
    change (CameraModel.f_px nadir_camera) with 6.
    cbn [vx vy vz fst snd].
    replace ((u - 3) * (u - 3) + (2 - v) * (2 - v) + 6 * 6) with (7 * 7) by lra.
    apply sqrt_square. lra. }
  rewrite Hn, HR. rewrite Rltb_false by lra.
  change (CameraModel.camera_pos_world nadir_camera) with (mkVec3 0 0 12).
  f_equal. unfold vec_camera, matvec, vdiv, dot.
  change (CameraModel.cx nadir_camera) with 3.
  change (CameraModel.cy nadir_camera) with 2.
  change (CameraModel.f_px nadir_camera) with 6.
  cbn [row0 row1 row2 vx vy vz fst snd].
  apply vec3_ext; cbn [vx vy vz]; lra.
Qed.

Lemma nadir_corner_hits (u v : R) :
  (u - 3) * (u - 3) + (2 - v) * (2 - v) = 13 ->
  corner_hits nadir_camera 0 (u, v)
  /\ corner_point nadir_camera 0 (u, v) = (2 * (u - 3), - 2 * (2 - v)).
Proof.
  intro H. unfold corner_hits, corner_point. rewrite (nadir_ray u v H).
  cbn [fst snd vx vy vz]. unfold CameraModel.plane_parameter. cbn [vz].
  replace ((0 - 12) / (- 6 / 7)) with 14 by (field; lra).
  repeat split.
  - assert (Ha : Rabs (- 6 / 7) = 6 / 7) by decide_abs. lra.
  - lra.
  - f_equal; lra.
Qed.

Lemma C5_ground_coverage_witness :
  CameraModel.compute_ground_coverage nadir_camera 0
  = ([(- 6, - 4); (6, - 4); (6, 4); (- 6, 4)], sqrt 52)
  /\ CameraModel.compute_ground_coverage nadir_camera 12 = ([], 0).
Proof.
  destruct (C5_ground_coverage nadir_camera 0) as (_ & Hiff & Hpts).
  destruct (C5_ground_coverage nadir_camera 12) as (Hlow & _ & _).
  split; [| apply Hlow; cbn; lra].
  assert (H1 := nadir_corner_hits 0 0 ltac:(lra)).
  assert (H2 := nadir_corner_hits (7 - 1) 0 ltac:(lra)).
  assert (H3 := nadir_corner_hits (7 - 1) (5 - 1) ltac:(lra)).
  assert (H4 := nadir_corner_hits 0 (5 - 1) ltac:(lra)).
  destruct H1 as [G1 P1], H2 as [G2 P2], H3 as [G3 P3], H4 as [G4 P4].
  assert (Hne : fst (CameraModel.compute_ground_coverage nadir_camera 0) <> []).
  { apply Hiff. split; [cbn; lra |].
    change (CameraModel.image_corners nadir_camera)
      with [(0, 0); (7 - 1, 0); (7 - 1, 5 - 1); (0, 5 - 1)].
    apply Forall_cons; [exact G1 |]. apply Forall_cons; [exact G2 |].
    apply Forall_cons; [exact G3 |]. apply Forall_cons; [exact G4 |].
    apply Forall_nil. }
  destruct (Hpts Hne) as (p1 & p2 & p3 & p4 & Hmap & Hres).
  change (CameraModel.image_corners nadir_camera)
    with [(0, 0); (7 - 1, 0); (7 - 1, 5 - 1); (0, 5 - 1)] in Hmap.
  cbn [map] in Hmap. rewrite P1, P2, P3, P4 in Hmap.
  injection Hmap as <- <- <- <-.
  rewrite Hres. unfold mean_distance_to_centroid. cbn [fst snd].
  assert (Hcons : forall (a b a' b' : R) (l l' : list (R * R)),
             a = a' -> b = b' -> l = l' -> (a, b) :: l = (a', b') :: l')
    by (intros; subst; reflexivity).
  f_equal.
  - repeat (apply Hcons; [lra | lra |]). reflexivity.
  - repeat match goal with
           | |- context [sqrt ?a] =>
               lazymatch a with
               | 52 => fail
               | _ => replace a with 52 by lra
               end
           end.
    lra.
Defined.

(** ** The batch projection on two points *)

Lemma nadir_rotation :
  CameraModel.R_cam_to_world nadir_camera
  = mkMat3 (mkVec3 1 0 0) (mkVec3 0 (-1) 0) (mkVec3 0 0 (-1)).
Proof. unfold nadir_camera. rewrite init_rotation. apply rotation_zero. Qed.

(** A point behind the nadir camera followed by the point under it: the
    second entry alone is valid, with the principal point as its pixel. *)
Example batch_behind_then_front :
  CameraModel.project_points_batch nadir_camera [mkVec3 0 0 20; mkVec3 0 0 0]
  = ([(0, 0); (3, 2)], [false; true]).
Proof.
  unfold CameraModel.project_points_batch, CameraModel.world_to_camera_batch.
  rewrite nadir_rotation.
  change (CameraModel.camera_pos_world nadir_camera) with (mkVec3 0 0 12).
  change (CameraModel.f_px nadir_camera) with 6.
  change (CameraModel.cx nadir_camera) with 3.
  change (CameraModel.cy nadir_camera) with 2.
  change (CameraModel.w_px nadir_camera) with 7.
  change (CameraModel.h_px nadir_camera) with 5.
  unfold matvec, transpose, col0, col1, col2, dot, vsub.
  cbn [map length repeat row0 row1 row2 vx vy vz].
  decide_cmp. cbn [existsb orb].
  unfold where_, select.
  cbn [length seq combine filter fst snd map vx vy vz].
  match goal with
  | |- context [6 * (?x / ?z) + 3] => replace (6 * (x / z) + 3) with 3 by (field; lra)
  end.
  match goal with
  | |- context [2 - 6 * (?y / ?z)] => replace (2 - 6 * (y / z)) with 2 by (field; lra)
  end.
  decide_cmp. reflexivity.
Qed.

(** * Further properties of the kernel and its callers *)

(** ** Sample coordinates *)

Lemma nth_map_seq {A : Type} (g : nat -> A) (n i : nat) (d : A) :
  (i < n)%nat -> nth i (map g (seq 0 n)) d = g i.
Proof.
  intro Hi. rewrite (nth_indep _ d (g O)) by (rewrite length_map, length_seq; lia).
  rewrite map_nth, seq_nth by lia. reflexivity.
Qed.

Lemma linspace_nth (s t : R) (n i : nat) :
  (2 <= n)%nat -> (i < n)%nat ->
  nth i (np.linspace s t n) 0 = s + INR i * ((t - s) / INR (n - 1)).
Proof.
  intros Hn Hi. destruct n as [| [| n]]; try lia.
  unfold np.linspace.
  replace (S (S n) - 1)%nat with (S n) by lia.
  assert (Hne : INR (S n) <> 0) by (apply not_0_INR; lia).
  destruct (Nat.eq_dec i (S n)) as [-> | Hlt].
  - rewrite app_nth2; rewrite length_map, length_seq; [| lia].
    rewrite Nat.sub_diag. cbn [nth]. field. exact Hne.
  - rewrite app_nth1 by (rewrite length_map, length_seq; lia).
    rewrite nth_map_seq by lia. reflexivity.
Qed.

Lemma ascending_nth (l : list R) :
  scipy.strictly_ascending l = true <->
  forall i, (S i < length l)%nat -> nth i l 0 < nth (S i) l 0.
Proof.
  induction l as [| x l IH]; [cbn; split; [intros _ i Hi; lia | reflexivity] |].
  destruct l as [| y l].
  - cbn. split; [intros _ i Hi; lia | reflexivity].
  - change (scipy.strictly_ascending (x :: y :: l))
      with ((x <? y) && scipy.strictly_ascending (y :: l)).
    rewrite andb_true_iff, Rltb_spec, IH. split.
    + intros [Hxy Hrest] [| i] Hi; [exact Hxy |].
      apply (Hrest i). cbn [length] in *. lia.
    + intro H. split; [apply (H O); cbn [length]; lia |].
      intros i Hi. apply (H (S i)). cbn [length] in *. lia.
Qed.

Lemma descending_nth (l : list R) :
  scipy.strictly_descending l = true <->
  forall i, (S i < length l)%nat -> nth (S i) l 0 < nth i l 0.
Proof.
  induction l as [| x l IH]; [cbn; split; [intros _ i Hi; lia | reflexivity] |].
  destruct l as [| y l].
  - cbn. split; [intros _ i Hi; lia | reflexivity].
  - change (scipy.strictly_descending (x :: y :: l))
      with ((y <? x) && scipy.strictly_descending (y :: l)).
    rewrite andb_true_iff, Rltb_spec, IH. split.
    + intros [Hxy Hrest] [| i] Hi; [exact Hxy |].
      apply (Hrest i). cbn [length] in *. lia.
    + intro H. split; [apply (H O); cbn [length]; lia |].
      intros i Hi. apply (H (S i)). cbn [length] in *. lia.
Qed.

Lemma linspace_step (s t : R) (n i : nat) :
  (2 <= n)%nat -> (S i < n)%nat ->
  nth (S i) (np.linspace s t n) 0 - nth i (np.linspace s t n) 0
  = (t - s) / INR (n - 1).
Proof.
  intros Hn Hi. rewrite !linspace_nth by lia. rewrite S_INR. lra.
Qed.

Lemma linspace_ascending (s t : R) (n : nat) :
  (2 <= n)%nat -> s < t -> scipy.strictly_ascending (np.linspace s t n) = true.
Proof.
  intros Hn Hst. apply ascending_nth. intros i Hi.
  rewrite linspace_length in Hi.
  pose proof (linspace_step s t n i Hn Hi) as Hstep.
  assert (0 < (t - s) / INR (n - 1)).
  { apply Rdiv_lt_0_compat; [lra | apply lt_0_INR; lia]. }
  lra.
Qed.

Lemma linspace_descending (s t : R) (n : nat) :
  (2 <= n)%nat -> t < s -> scipy.strictly_descending (np.linspace s t n) = true.
Proof.
  intros Hn Hst. apply descending_nth. intros i Hi.
  rewrite linspace_length in Hi.
  pose proof (linspace_step s t n i Hn Hi) as Hstep.
  assert (0 < (s - t) / INR (n - 1)).
  { apply Rdiv_lt_0_compat; [lra | apply lt_0_INR; lia]. }
  replace ((t - s) / INR (n - 1)) with (- ((s - t) / INR (n - 1))) in Hstep
    by (field; apply not_0_INR; lia).
  lra.
Qed.

Lemma linspace_not_ascending (s t : R) (n : nat) :
  (2 <= n)%nat -> t <= s -> scipy.strictly_ascending (np.linspace s t n) = false.
Proof.
  intros Hn Hst.
  destruct (scipy.strictly_ascending (np.linspace s t n)) eqn:Ha; [| reflexivity].
  apply ascending_hd_last in Ha; [| rewrite linspace_length; exact Hn].
  rewrite linspace_hd, linspace_last in Ha by lia. lra.
Qed.

Lemma linspace_not_descending (s t : R) (n : nat) :
  (2 <= n)%nat -> s <= t -> scipy.strictly_descending (np.linspace s t n) = false.
Proof.
  intros Hn Hst.
  destruct (scipy.strictly_descending (np.linspace s t n)) eqn:Ha; [| reflexivity].
  apply descending_hd_last in Ha; [| rewrite linspace_length; exact Hn].
  rewrite linspace_hd, linspace_last in Ha by lia. lra.
Qed.

(** ** Construction of the engine *)

Lemma rectangular_shape (dem_data : list (list R)) (h w : nat) :
  (1 <= h)%nat -> rectangular dem_data h w -> np.shape dem_data = (h, w).
Proof.
  intros Hh [Hlen Hrows]. unfold np.shape. rewrite Hlen. f_equal.
  destruct dem_data as [| row rest]; [cbn in Hlen; lia |].
  inversion Hrows. assumption.
Qed.

Lemma init_north_up_rectangular :
  forall (dem_data : list (list R)) (tr : Affine.t) (h w : nat),
    (2 <= h)%nat -> (2 <= w)%nat ->
    rectangular dem_data h w ->
    0 < Affine.a tr -> Affine.e tr < 0 ->
    Affine.determinant tr <> 0 ->
    GeoreferencingEngine.__init__ dem_data tr
    = Returned (north_up_engine dem_data tr).
Proof.
  intros dem_data tr h w Hh Hw Hrect Ha He Hdet.
  pose proof (rectangular_shape dem_data h w ltac:(lia) Hrect) as Hs.
  assert (Hwpos : 0 < INR w) by (apply lt_0_INR; lia).
  assert (Hhpos : 0 < INR h) by (apply lt_0_INR; lia).
  apply init_north_up; try exact Hdet;
    unfold north_up_engine; rewrite Hs;
    cbn [fst snd GeoreferencingEngine.dem_bounds GeoreferencingEngine.min_x
         GeoreferencingEngine.max_x GeoreferencingEngine.min_y
         GeoreferencingEngine.max_y].
  - apply linspace_not_ascending; [exact Hh | nra].
  - apply linspace_descending; [exact Hh | nra].
  - apply linspace_ascending; [exact Hw | nra].
  - unfold scipy.check_dimensionality. rewrite !linspace_length.
    destruct Hrect as [Hlen Hrows]. rewrite Hlen, Nat.eqb_refl. cbn [andb].
    apply forallb_forall. intros row Hin.
    rewrite Forall_forall in Hrows. rewrite (Hrows row Hin). apply Nat.eqb_refl.
Qed.

(** X1: for a grid with at least two rows and two columns, all rows of one
    length, and an invertible transform with positive cell width and
    negative cell height, construction succeeds and yields the north-up
    engine. *)
Theorem X1_init_north_up_succeeds :
  forall (dem_data : list (list R)) (tr : Affine.t) (h w : nat),
    (2 <= h)%nat -> (2 <= w)%nat ->
    rectangular dem_data h w ->
    0 < Affine.a tr -> Affine.e tr < 0 ->
    Affine.determinant tr <> 0 ->
    GeoreferencingEngine.__init__ dem_data tr
    = Returned (north_up_engine dem_data tr).
Proof. exact init_north_up_rectangular. Qed.

Lemma X1_init_north_up_succeeds_witness :
  GeoreferencingEngine.__init__ ramp_dem ramp_transform = Returned ramp_engine.
Proof.
  apply (X1_init_north_up_succeeds ramp_dem ramp_transform 2 2);
    try (cbn; lra); try lia.
  - split; [reflexivity | repeat constructor].
  - unfold Affine.determinant. cbn. lra.
Defined.

(** X2: a transform without inverse makes construction raise
    [TransformNotInvertibleError]; an invertible one with a zero cell width
    over at least two columns, or a zero cell height over at least two
    rows, makes it raise [ValueError], the sample coordinates being
    neither ascending nor descending. *)
Theorem X2_init_raises :
  forall (dem_data : list (list R)) (tr : Affine.t),
    (Affine.determinant tr = 0 ->
     GeoreferencingEngine.__init__ dem_data tr = Raised TransformNotInvertibleError)
    /\ (Affine.determinant tr <> 0 ->
        (Affine.a tr = 0 /\ (2 <= snd (np.shape dem_data))%nat)
        \/ (Affine.e tr = 0 /\ (2 <= fst (np.shape dem_data))%nat) ->
        GeoreferencingEngine.__init__ dem_data tr = Raised ValueError).
Proof.
  intros dem_data tr. split.
  - intro Hdet. unfold GeoreferencingEngine.__init__, Affine.invert.
    rewrite Reqb_true by exact Hdet. reflexivity.
  - intros Hdet Hzero. unfold GeoreferencingEngine.__init__, Affine.invert.
    rewrite Reqb_false by exact Hdet. cbn [bind].
    unfold GeoreferencingEngine._create_interpolator.
    destruct (np.shape dem_data) as [h w]. cbn [fst snd] in Hzero.
    cbn [GeoreferencingEngine.min_x GeoreferencingEngine.max_x
         GeoreferencingEngine.min_y GeoreferencingEngine.max_y].
    unfold scipy.make, scipy.check_points.
    destruct Hzero as [[Ha Hw] | [He Hh]].
    + destruct (scipy.strictly_ascending (np.linspace _ _ h));
        [| destruct (scipy.strictly_descending (np.linspace _ _ h));
           [| reflexivity]];
        cbn [bind];
        rewrite Ha, linspace_not_ascending, linspace_not_descending by (lra || lia);
        reflexivity.
    + rewrite He, linspace_not_ascending, linspace_not_descending by (lra || lia).
      reflexivity.
Qed.

Lemma X2_init_raises_witness :
  GeoreferencingEngine.__init__ ramp_dem (Affine.mk 0 1 0 1 0 2) = Raised ValueError.
Proof.
  apply (proj2 (X2_init_raises ramp_dem (Affine.mk 0 1 0 1 0 2))).
  - unfold Affine.determinant. cbn. lra.
  - left. split; [reflexivity | cbn; lia].
Defined.

(** ** The interpolated elevation *)

(** The cell found for a query inside the range of the grid brackets it. *)
Lemma find_interval_brackets (g : list R) (x : R) :
  forall g0,
    (1 <= length g)%nat ->
    g0 <= x <= last (g0 :: g) 0 ->
    let i := scipy.find_interval (g0 :: g) x in
    nth i (g0 :: g) 0 <= x <= nth (S i) (g0 :: g) 0.
Proof.
  induction g as [| g1 g IH]; intros g0 Hlen Hx; cbn [length] in *; [lia |].
  destruct g as [| g2 g].
  - cbn in *. lra.
  - cbv zeta. rewrite find_interval_step.
    destruct (g1 <=? x) eqn:Hc.
    + apply Rleb_spec in Hc.
      specialize (IH g1 ltac:(cbn [length]; lia)).
      cbv zeta in IH.
      change (last (g0 :: g1 :: g2 :: g) 0) with (last (g1 :: g2 :: g) 0) in Hx.
      specialize (IH ltac:(lra)).
      exact IH.
    + apply Rleb_nspec in Hc. cbn [nth]. lra.
Qed.

(** The value of the interpolator at a query inside the range of both
    axes: a bilinear blend in a cell that holds the query. *)
Lemma call_in_range (itp : scipy.RegularGridInterpolator) (y x : R) :
  (2 <= length (scipy.grid0 itp))%nat ->
  (2 <= length (scipy.grid1 itp))%nat ->
  scipy.strictly_ascending (scipy.grid0 itp) = true ->
  scipy.strictly_ascending (scipy.grid1 itp) = true ->
  scipy.out_of_bounds (scipy.grid0 itp) y = false ->
  scipy.out_of_bounds (scipy.grid1 itp) x = false ->
  exists i0 i1 y0 y1,
    (S i0 < length (scipy.grid0 itp))%nat
    /\ (S i1 < length (scipy.grid1 itp))%nat
    /\ 0 <= y0 <= 1 /\ 0 <= y1 <= 1
    /\ y = nth i0 (scipy.grid0 itp) 0 * (1 - y0) + nth (S i0) (scipy.grid0 itp) 0 * y0
    /\ x = nth i1 (scipy.grid1 itp) 0 * (1 - y1) + nth (S i1) (scipy.grid1 itp) 0 * y1
    /\ scipy.call itp y x = Some (bilinear (scipy.values itp) i0 i1 y0 y1).
Proof.
  intros L0 L1 A0 A1 B0 B1.
  assert (Haxis : forall (g : list R) (q : R),
             (2 <= length g)%nat -> scipy.strictly_ascending g = true ->
             scipy.out_of_bounds g q = false ->
             let i := scipy.find_interval g q in
             let t := scipy.norm_distance g i q in
             (S i < length g)%nat /\ 0 <= t <= 1
             /\ q = nth i g 0 * (1 - t) + nth (S i) g 0 * t).
  { intros g q Lg Ag Bg. cbv zeta.
    pose proof (find_interval_bound g q Lg) as Hb.
    destruct g as [| g0 [| g1 g]]; cbn [length] in Lg; try lia.
    unfold scipy.out_of_bounds in Bg. apply orb_false_iff in Bg.
    destruct Bg as [Blo Bhi]. apply Rltb_nspec in Blo, Bhi. cbn [hd] in Blo.
    pose proof (find_interval_brackets (g1 :: g) q g0
                  ltac:(cbn [length]; lia) ltac:(lra)) as Hbr.
    cbv zeta in Hbr.
    set (i := scipy.find_interval (g0 :: g1 :: g) q) in *.
    pose proof (proj1 (ascending_nth (g0 :: g1 :: g)) Ag i ltac:(lia)) as Hlt.
    unfold scipy.norm_distance.
    set (lo := nth i (g0 :: g1 :: g) 0) in *.
    set (hi := nth (S i) (g0 :: g1 :: g) 0) in *.
    split; [lia |]. split.
    - split.
      + apply Rmult_le_pos; [lra | left; apply Rinv_0_lt_compat; lra].
      + apply Rmult_le_reg_r with (hi - lo); [lra |].
        unfold Rdiv. rewrite Rmult_assoc, Rinv_l by lra. lra.
    - field. lra. }
  destruct (Haxis _ y L0 A0 B0) as (H0a & H0b & H0c).
  destruct (Haxis _ x L1 A1 B1) as (H1a & H1b & H1c).
  do 4 eexists. repeat split; try eassumption; try apply H0b; try apply H1b.
  unfold scipy.call. rewrite B0, B1. reflexivity.
Qed.

Lemma fold_max_spec (tl : list R) :
  forall x,
    let m := fold_left Rmax tl x in
    (m = x \/ In m tl) /\ x <= m /\ forall y, In y tl -> y <= m.
Proof.
  induction tl as [| h tl IH]; intro x; cbn [fold_left In].
  - split; [left; reflexivity |]. split; [lra | intros y []].
  - destruct (IH (Rmax x h)) as (Hin & Hle & Hall).
    pose proof (Rmax_l x h) as Hl. pose proof (Rmax_r x h) as Hr.
    split; [| split].
    + destruct Hin as [Heq | Hin]; [| right; right; exact Hin].
      rewrite Heq. unfold Rmax. destruct (Rle_dec x h); [right; left | left]; reflexivity.
    + lra.
    + intros y [<- | Hy]; [lra | apply Hall; exact Hy].
Qed.

Lemma np_max_some (arr : list (list R)) (M : R) :
  np.max arr = Some M -> is_maximum arr M.
Proof.
  unfold is_maximum, np.max, np.reduce.
  destruct (concat arr) as [| x tl]; [discriminate |].
  intro H. injection H as <-.
  destruct (fold_max_spec tl x) as (Hm & Hle & Hall). cbv zeta in *.
  split.
  - destruct Hm as [-> | Hm]; [left; reflexivity | right; exact Hm].
  - intros y [<- | Hy]; [exact Hle | apply Hall; exact Hy].
Qed.

Lemma item_in_concat (v : list (list R)) (h w i j : nat) :
  rectangular v h w -> (i < h)%nat -> (j < w)%nat -> In (np.item v i j) (concat v).
Proof.
  intros [Hlen Hrows] Hi Hj. unfold np.item.
  apply in_concat. exists (nth i v []). split.
  - apply nth_In. lia.
  - apply nth_In. rewrite Forall_forall in Hrows.
    rewrite (Hrows (nth i v [])); [exact Hj | apply nth_In; lia].
Qed.

Lemma rectangular_rev (v : list (list R)) (h w : nat) :
  rectangular v h w -> rectangular (rev v) h w.
Proof.
  intros [Hlen Hrows]. split; [rewrite length_rev; exact Hlen |].
  apply Forall_rev. exact Hrows.
Qed.

Lemma in_concat_rev (v : list (list R)) (x : R) :
  In x (concat (rev v)) -> In x (concat v).
Proof.
  rewrite !in_concat. intros (row & Hrow & Hx). exists row.
  split; [apply in_rev; exact Hrow | exact Hx].
Qed.

(** A blend of four samples with weights in [0, 1] stays between any two
    bounds of the samples. *)
Lemma bilinear_bounds (a b c d y0 y1 lo hi : R) :
  0 <= y0 <= 1 -> 0 <= y1 <= 1 ->
  lo <= a <= hi -> lo <= b <= hi -> lo <= c <= hi -> lo <= d <= hi ->
  lo <= a * (1 - y0) * (1 - y1) + b * (1 - y0) * y1
        + c * y0 * (1 - y1) + d * y0 * y1 <= hi.
Proof.
  intros H0 H1 Ha Hb Hc Hd.
  assert (W1 : 0 <= (1 - y0) * (1 - y1)) by nra.
  assert (W2 : 0 <= (1 - y0) * y1) by nra.
  assert (W3 : 0 <= y0 * (1 - y1)) by nra.
  assert (W4 : 0 <= y0 * y1) by nra.
  assert (Hsum : (1 - y0) * (1 - y1) + (1 - y0) * y1 + y0 * (1 - y1) + y0 * y1 = 1)
    by ring.
  set (w1 := (1 - y0) * (1 - y1)) in *. set (w2 := (1 - y0) * y1) in *.
  set (w3 := y0 * (1 - y1)) in *. set (w4 := y0 * y1) in *.
  replace (a * (1 - y0) * (1 - y1) + b * (1 - y0) * y1
           + c * y0 * (1 - y1) + d * y0 * y1)
    with (a * w1 + b * w2 + c * w3 + d * w4) by (unfold w1, w2, w3, w4; ring).
  split; nra.
Qed.

Lemma rev_descending_ascending (l : list R) :
  scipy.strictly_descending l = true -> scipy.strictly_ascending (rev l) = true.
Proof.
  intro Hd. apply ascending_nth. intros i Hi. rewrite length_rev in Hi.
  rewrite !rev_nth by lia.
  pose proof (proj1 (descending_nth l) Hd (length l - S (S i))%nat ltac:(lia)) as H.
  replace (S (length l - S (S i))) with (length l - S i)%nat in H by lia.
  exact H.
Qed.

Section NorthUp.

Variables (dem_data : list (list R)) (tr : Affine.t) (h w : nat).
Hypothesis rows_ge_2 : (2 <= h)%nat.
Hypothesis cols_ge_2 : (2 <= w)%nat.
Hypothesis grid_rectangular : rectangular dem_data h w.
Hypothesis width_positive : 0 < Affine.a tr.
Hypothesis height_negative : Affine.e tr < 0.

Let self := north_up_engine dem_data tr.
Let x_min := Affine.c tr.
Let x_max := Affine.c tr + Affine.a tr * INR w.
Let y_min := Affine.f tr + Affine.e tr * INR h.
Let y_max := Affine.f tr.

(** World coordinates of the samples: row [k] counted from the south,
    column [k] counted from the west. *)
Let y_sample (k : nat) : R := y_min + INR k * ((y_max - y_min) / INR (h - 1)).
Let x_sample (k : nat) : R := x_min + INR k * ((x_max - x_min) / INR (w - 1)).

Lemma north_up_shape : np.shape dem_data = (h, w).
Proof. apply rectangular_shape; [lia | exact grid_rectangular]. Qed.

Lemma north_up_in_bounds (x y : R) :
  GeoreferencingEngine.in_bounds self x y = true <->
  x_min <= x <= x_max /\ y_min <= y <= y_max.
Proof.
  rewrite in_bounds_spec. unfold self, north_up_engine.
  rewrite north_up_shape. cbn. tauto.
Qed.

Lemma north_up_interpolator :
  GeoreferencingEngine.interpolator self
  = Some (scipy.mkRGI (rev (np.linspace y_max y_min h))
                      (np.linspace x_min x_max w)
                      (rev dem_data)).
Proof.
  unfold self, north_up_engine. rewrite north_up_shape. reflexivity.
Qed.

Lemma north_up_extent : x_min < x_max /\ y_min < y_max.
Proof.
  assert (0 < INR w) by (apply lt_0_INR; lia).
  assert (0 < INR h) by (apply lt_0_INR; lia).
  unfold x_min, x_max, y_min, y_max. split; nra.
Qed.

Lemma north_up_y_nth (k : nat) :
  (k < h)%nat -> nth k (rev (np.linspace y_max y_min h)) 0 = y_sample k.
Proof.
  intro Hk. rewrite rev_nth by (rewrite linspace_length; exact Hk).
  rewrite linspace_length, linspace_nth by lia.
  unfold y_sample.
  assert (Hne : INR (h - 1) <> 0) by (apply not_0_INR; lia).
  replace (INR (h - S k)) with (INR (h - 1) - INR k).
  - field. exact Hne.
  - rewrite (minus_INR h (S k)), (minus_INR h 1) by lia.
    rewrite !S_INR. change (INR 0) with 0. lra.
Qed.

Lemma north_up_x_nth (k : nat) :
  (k < w)%nat -> nth k (np.linspace x_min x_max w) 0 = x_sample k.
Proof. intro Hk. apply linspace_nth; lia. Qed.

(** Inside the bounds the query never fails: it blends the four samples
    of a cell that holds the point. *)
Lemma north_up_query (x y : R) :
  GeoreferencingEngine.in_bounds self x y = true ->
  exists i0 i1 y0 y1,
    (S i0 < h)%nat /\ (S i1 < w)%nat
    /\ 0 <= y0 <= 1 /\ 0 <= y1 <= 1
    /\ y = y_sample i0 * (1 - y0) + y_sample (S i0) * y0
    /\ x = x_sample i1 * (1 - y1) + x_sample (S i1) * y1
    /\ GeoreferencingEngine.get_elevation_at_point self (x, y)
       = Returned (Some (bilinear (rev dem_data) i0 i1 y0 y1)).
Proof.
  intro Hb. pose proof (proj1 (north_up_in_bounds x y) Hb) as [Hx Hy].
  destruct north_up_extent as [Ex Ey].
  set (itp := scipy.mkRGI (rev (np.linspace y_max y_min h))
                          (np.linspace x_min x_max w) (rev dem_data)).
  destruct (call_in_range itp y x) as (i0 & i1 & y0 & y1 & L0 & L1 & R0 & R1 & Py & Px & Hc).
  - cbn. rewrite length_rev, linspace_length. exact rows_ge_2.
  - cbn. rewrite linspace_length. exact cols_ge_2.
  - cbn. apply rev_descending_ascending, linspace_descending; [exact rows_ge_2 | lra].
  - cbn. apply linspace_ascending; [exact cols_ge_2 | lra].
  - cbn. unfold scipy.out_of_bounds.
    rewrite hd_rev, last_rev, linspace_hd, linspace_last by lia.
    rewrite !Rltb_false by lra. reflexivity.
  - cbn. unfold scipy.out_of_bounds.
    rewrite linspace_hd, linspace_last by lia.
    rewrite !Rltb_false by lra. reflexivity.
  - cbn [itp scipy.grid0 scipy.grid1 scipy.values] in *.
    rewrite length_rev, linspace_length in L0. rewrite linspace_length in L1.
    rewrite !north_up_y_nth in Py by lia. rewrite !north_up_x_nth in Px by lia.
    exists i0, i1, y0, y1. repeat split; try assumption; try apply R0; try apply R1.
    unfold GeoreferencingEngine.get_elevation_at_point.
    rewrite Hb, north_up_interpolator. cbn [negb]. fold itp. rewrite Hc. reflexivity.
Qed.

End NorthUp.

Lemma elevation_between_extremes :
  forall (dem_data : list (list R)) (tr : Affine.t) (h w : nat) (x y lo hi : R),
    (2 <= h)%nat -> (2 <= w)%nat ->
    rectangular dem_data h w ->
    0 < Affine.a tr -> Affine.e tr < 0 ->
    is_minimum dem_data lo -> is_maximum dem_data hi ->
    GeoreferencingEngine.in_bounds (north_up_engine dem_data tr) x y = true ->
    exists v,
      GeoreferencingEngine.get_elevation_at_point (north_up_engine dem_data tr) (x, y)
      = Returned (Some v)
      /\ lo <= v <= hi.
Proof.
  intros dem_data tr h w x y lo hi Hh Hw Hrect Ha He [_ Hlo] [_ Hhi] Hb.
  destruct (north_up_query dem_data tr h w Hh Hw Hrect Ha He x y Hb)
    as (i0 & i1 & y0 & y1 & L0 & L1 & R0 & R1 & _ & _ & Hq).
  eexists. split; [exact Hq |].
  pose proof (rectangular_rev _ _ _ Hrect) as Hrev.
  assert (Hitem : forall i j, (i < h)%nat -> (j < w)%nat ->
                              lo <= np.item (rev dem_data) i j <= hi).
  { intros i j Hi Hj.
    pose proof (in_concat_rev _ _ (item_in_concat _ h w i j Hrev Hi Hj)) as Hin.
    split; [apply Hlo | apply Hhi]; exact Hin. }
  unfold bilinear. apply bilinear_bounds; try assumption; apply Hitem; lia.
Qed.

(** X3: on a north-up engine over a grid of at least 2 x 2 samples, the
    query at a point inside the world bounds always returns an elevation,
    and that elevation lies between the lowest and the highest sample of
    the grid. *)
Theorem X3_elevation_between_extremes :
  forall (dem_data : list (list R)) (tr : Affine.t) (h w : nat) (x y lo hi : R),
    (2 <= h)%nat -> (2 <= w)%nat ->
    rectangular dem_data h w ->
    0 < Affine.a tr -> Affine.e tr < 0 ->
    is_minimum dem_data lo -> is_maximum dem_data hi ->
    GeoreferencingEngine.in_bounds (north_up_engine dem_data tr) x y = true ->
    exists v,
      GeoreferencingEngine.get_elevation_at_point (north_up_engine dem_data tr) (x, y)
      = Returned (Some v)
      /\ lo <= v <= hi.
Proof. exact elevation_between_extremes. Qed.

Lemma X3_elevation_between_extremes_witness :
  exists v,
    GeoreferencingEngine.get_elevation_at_point ramp_engine (1 / 2, 3 / 2)
    = Returned (Some v)
    /\ 0 <= v <= 1.
Proof.
  apply (X3_elevation_between_extremes ramp_dem ramp_transform 2 2 (1 / 2) (3 / 2) 0 1);
    try lia; try (cbn; lra).
  - split; [reflexivity | repeat constructor].
  - split; [left; reflexivity |].
    intros x Hx. cbn in Hx. intuition lra.
  - split; [right; left; reflexivity |].
    intros x Hx. cbn in Hx. intuition lra.
  - apply in_bounds_spec. cbn. lra.
Defined.

Lemma item_rev (v : list (list R)) (h i j : nat) :
  length v = h -> (i < h)%nat -> np.item (rev v) i j = np.item v (h - S i) j.
Proof.
  intros Hlen Hi. unfold np.item. rewrite rev_nth by lia. rewrite Hlen. reflexivity.
Qed.

Lemma affine_terrain_query :
  forall (dem_data : list (list R)) (tr : Affine.t) (h w : nat) (A B x y : R),
    (2 <= h)%nat -> (2 <= w)%nat ->
    rectangular dem_data h w ->
    0 < Affine.a tr -> Affine.e tr < 0 ->
    (forall r c, (r < h)%nat -> (c < w)%nat ->
                 np.item dem_data r c
                 = A + B * nth r (np.linspace
                                    (Affine.f tr)
                                    (Affine.f tr + Affine.e tr * INR h) h) 0) ->
    GeoreferencingEngine.in_bounds (north_up_engine dem_data tr) x y = true ->
    GeoreferencingEngine.get_elevation_at_point (north_up_engine dem_data tr) (x, y)
    = Returned (Some (A + B * y)).
Proof.
  intros dem_data tr h w A B x y Hh Hw Hrect Ha He Haff Hb.
  destruct (north_up_query dem_data tr h w Hh Hw Hrect Ha He x y Hb)
    as (i0 & i1 & y0 & y1 & L0 & L1 & R0 & R1 & Py & _ & Hq).
  rewrite Hq. do 2 f_equal.
  assert (Hitem : forall i j, (i < h)%nat -> (j < w)%nat ->
             np.item (rev dem_data) i j
             = A + B * (Affine.f tr + Affine.e tr * INR h
                        + INR i * ((Affine.f tr - (Affine.f tr + Affine.e tr * INR h))
                                   / INR (h - 1)))).
  { intros i j Hi Hj. rewrite (item_rev _ h) by (try apply Hrect; lia).
    rewrite Haff by lia.
    pose proof (north_up_y_nth tr h w Hh Hw i Hi) as Hn. cbv beta in Hn.
    rewrite <- Hn.
    rewrite rev_nth, linspace_length by (rewrite linspace_length; lia).
    reflexivity. }
  cbv beta in Py.
  unfold bilinear. rewrite !Hitem by lia. rewrite Py. ring.
Qed.

(** X4: when every sample of a north-up grid equals [A + B * y] at the
    world coordinate [y] the interpolator gives to its row, the query
    returns [A + B * y] at every point inside the bounds: terrain that is
    affine in the northing is reproduced exactly. *)
Theorem X4_affine_terrain_exact :
  forall (dem_data : list (list R)) (tr : Affine.t) (h w : nat) (A B x y : R),
    (2 <= h)%nat -> (2 <= w)%nat ->
    rectangular dem_data h w ->
    0 < Affine.a tr -> Affine.e tr < 0 ->
    (forall r c, (r < h)%nat -> (c < w)%nat ->
                 np.item dem_data r c
                 = A + B * nth r (np.linspace
                                    (Affine.f tr)
                                    (Affine.f tr + Affine.e tr * INR h) h) 0) ->
    GeoreferencingEngine.in_bounds (north_up_engine dem_data tr) x y = true ->
    GeoreferencingEngine.get_elevation_at_point (north_up_engine dem_data tr) (x, y)
    = Returned (Some (A + B * y)).
Proof. exact affine_terrain_query. Qed.

Lemma X4_affine_terrain_exact_witness :
  GeoreferencingEngine.get_elevation_at_point north_ramp_engine (1, 1 / 2)
  = Returned (Some (0 + 1 / 2 * (1 / 2))).
Proof.
  apply (X4_affine_terrain_exact north_ramp_dem ramp_transform 2 2 0 (1 / 2) 1 (1 / 2));
    try lia; try (cbn; lra).
  - split; [reflexivity | repeat constructor].
  - intros [| [| r]] [| [| c]] Hr Hc; try lia; cbn; lra.
  - apply in_bounds_spec. cbn. lra.
Defined.

(** ** The synthetic slope *)

Lemma rows_rectangular (g : nat -> R) (h w : nat) :
  rectangular (map (fun row => repeat (g row) w) (seq 0 h)) h w.
Proof.
  split; [rewrite length_map, length_seq; reflexivity |].
  apply Forall_forall. intros row Hin. apply in_map_iff in Hin.
  destruct Hin as (r & <- & _). apply repeat_length.
Qed.

Lemma rows_item (g : nat -> R) (h w r c : nat) :
  (r < h)%nat -> (c < w)%nat ->
  np.item (map (fun row => repeat (g row) w) (seq 0 h)) r c = g r.
Proof.
  intros Hr Hc. unfold np.item. rewrite nth_map_seq by exact Hr.
  apply nth_repeat_lt. exact Hc.
Qed.

Lemma INR_8000 : INR (Z.to_nat 8000) = 8000.
Proof. rewrite INR_IZR_INZ, Z2Nat.id by lia. reflexivity. Qed.

(** X5: the engine can be built on the synthetic slope, and inside its
    bounds [300000, 308000] x [3992000, 4000000] the elevation is
    [base_elevation + tan(slope) * (y - 3992000)]: the base elevation on
    the southern edge, rising northwards at exactly the requested slope. *)
Theorem X5_slope_dem_elevation :
  forall (slope_deg base_elevation x y : R),
    let dem_data := fst (dem_generator.create_slope_dem slope_deg base_elevation) in
    let tr := snd (dem_generator.create_slope_dem slope_deg base_elevation) in
    GeoreferencingEngine.__init__ dem_data tr = Returned (north_up_engine dem_data tr)
    /\ (300000 <= x <= 308000 -> 3992000 <= y <= 4000000 ->
        GeoreferencingEngine.get_elevation_at_point (north_up_engine dem_data tr) (x, y)
        = Returned (Some (base_elevation
                          + tan (np.deg2rad slope_deg) * (y - 3992000)))).
Proof.
  intros slope base x y.
  unfold dem_generator.create_slope_dem. cbv zeta. cbn [fst snd].
  pose proof INR_8000 as Hn.
  assert (Hge : (2 <= Z.to_nat 8000)%nat) by lia.
  remember (Z.to_nat 8000) as n eqn:En. clear En.
  set (g := fun row : nat =>
              base + INR n * 1 * tan (np.deg2rad slope) * (1 - INR row / INR (n - 1))).
  set (tr := Affine.mk 1 0 300000 0 (- (1)) 4000000).
  pose proof (rows_rectangular g n n) as Hrect.
  set (dem_data := map (fun row => repeat (g row) n) (seq 0 n)) in *.
  split.
  - apply (init_north_up_rectangular dem_data tr n n); try assumption;
      try (cbn; lra).
    unfold Affine.determinant. cbn. lra.
  - intros Hx Hy.
    replace (base + tan (np.deg2rad slope) * (y - 3992000))
      with (base - tan (np.deg2rad slope) * 3992000 + tan (np.deg2rad slope) * y)
      by ring.
    apply (affine_terrain_query dem_data tr n n); try assumption; try (cbn; lra).
    + intros r c Hr Hc. unfold dem_data. rewrite rows_item by assumption.
      rewrite linspace_nth by lia. unfold g. cbn [Affine.f Affine.e tr].
      rewrite Hn. field. apply not_0_INR. lia.
    + apply in_bounds_spec. unfold north_up_engine.
      rewrite (rectangular_shape dem_data n n ltac:(lia) Hrect).
      cbn [fst snd GeoreferencingEngine.dem_bounds GeoreferencingEngine.min_x
           GeoreferencingEngine.max_x GeoreferencingEngine.min_y
           GeoreferencingEngine.max_y Affine.a Affine.c Affine.e Affine.f tr].
      rewrite Hn. lra.
Qed.

Lemma X5_slope_dem_elevation_witness :
  let dem_data := fst (dem_generator.create_slope_dem 45 100) in
  let tr := snd (dem_generator.create_slope_dem 45 100) in
  GeoreferencingEngine.get_elevation_at_point
    (north_up_engine dem_data tr) (300000, 3992010)
  = Returned (Some (100 + tan (np.deg2rad 45) * (3992010 - 3992000))).
Proof.
  apply (proj2 (X5_slope_dem_elevation 45 100 300000 3992010)); lra.
Defined.

(** ** The vectorised query and the cell lookup *)

Lemma north_up_call_outside (dem_data : list (list R)) (tr : Affine.t) (h w : nat)
      (x y : R) :
  (2 <= h)%nat -> (2 <= w)%nat ->
  0 < Affine.a tr -> Affine.e tr < 0 ->
  let x_min := Affine.c tr in
  let x_max := Affine.c tr + Affine.a tr * INR w in
  let y_min := Affine.f tr + Affine.e tr * INR h in
  let y_max := Affine.f tr in
  ~ (x_min <= x <= x_max /\ y_min <= y <= y_max) ->
  scipy.call (scipy.mkRGI (rev (np.linspace y_max y_min h))
                          (np.linspace x_min x_max w) (rev dem_data)) y x
  = None.
Proof.
  intros Hh Hw Ha He x_min x_max y_min y_max Hout.
  unfold scipy.call, scipy.out_of_bounds. cbn [scipy.grid0 scipy.grid1].
  rewrite hd_rev, last_rev, !linspace_hd, !linspace_last by lia.
  destruct (y <? y_min) eqn:C1; [reflexivity |].
  destruct (y_max <? y) eqn:C2; [reflexivity |].
  destruct (x <? x_min) eqn:C3; [reflexivity |].
  destruct (x_max <? x) eqn:C4; [reflexivity |].
  apply Rltb_nspec in C1, C2, C3, C4. exfalso. apply Hout. lra.
Qed.

(** X6: on a north-up engine over at least 2 x 2 samples the vectorised
    query returns, for every point of the batch and in order, what the
    single-point query returns for it: an elevation inside the world
    bounds and the absent value outside.  Without an interpolator it
    raises [RuntimeError]. *)
Theorem X6_batch_agrees_with_point_query :
  forall (dem_data : list (list R)) (tr : Affine.t) (h w : nat)
         (points_xy : list (R * R)),
    (2 <= h)%nat -> (2 <= w)%nat ->
    rectangular dem_data h w ->
    0 < Affine.a tr -> Affine.e tr < 0 ->
    let self := north_up_engine dem_data tr in
    (exists elevations,
        GeoreferencingEngine.get_elevation_batch self points_xy = Done elevations
        /\ Forall2 (fun p r =>
                      GeoreferencingEngine.get_elevation_at_point self p = Returned r)
                   points_xy elevations)
    /\ GeoreferencingEngine.get_elevation_batch (without_interpolator self) points_xy
       = Failed RuntimeError.
Proof.
  intros dem_data tr h w pts Hh Hw Hrect Ha He self.
  split; [| reflexivity].
  unfold GeoreferencingEngine.get_elevation_batch.
  pose proof (north_up_interpolator dem_data tr h w Hh Hw Hrect) as Hitp.
  unfold self. rewrite Hitp.
  eexists. split; [reflexivity |].
  rewrite map_map. cbn [fst snd].
  induction pts as [| [x y] pts IH]; cbn [map]; constructor; [| exact IH].
  unfold GeoreferencingEngine.get_elevation_at_point.
  rewrite Hitp.
  destruct (GeoreferencingEngine.in_bounds (north_up_engine dem_data tr) x y) eqn:Hb;
    cbn [negb fst snd]; [reflexivity |].
  f_equal. symmetry.
  apply (north_up_call_outside dem_data tr h w x y Hh Hw Ha He).
  intro Hin.
  apply (north_up_in_bounds dem_data tr h w Hh Hw Hrect) in Hin.
  congruence.
Qed.

Lemma X6_batch_agrees_with_point_query_witness :
  exists elevations,
    GeoreferencingEngine.get_elevation_batch ramp_engine [(1 / 2, 3 / 2); (3, 1)]
    = Done elevations
    /\ Forall2 (fun p r =>
                  GeoreferencingEngine.get_elevation_at_point ramp_engine p = Returned r)
               [(1 / 2, 3 / 2); (3, 1)] elevations.
Proof.
  apply (X6_batch_agrees_with_point_query ramp_dem ramp_transform 2 2);
    try lia; try (cbn; lra).
  split; [reflexivity | repeat constructor].
Defined.

Lemma Int_part_nonneg (r : R) : (0 <= Int_part r)%Z <-> 0 <= r.
Proof.
  destruct (base_Int_part r) as [Hle Hgt]. split; intro H.
  - apply IZR_le in H. lra.
  - apply le_IZR. assert (IZR (-1) < IZR (Int_part r)) by lra.
    apply lt_IZR in H0. apply IZR_le. lia.
Qed.

Lemma Int_part_below (r : R) (n : nat) : (Int_part r < Z.of_nat n)%Z <-> r < INR n.
Proof.
  destruct (base_Int_part r) as [Hle Hgt]. rewrite INR_IZR_INZ. split; intro H.
  - assert (Int_part r + 1 <= Z.of_nat n)%Z by lia.
    apply IZR_le in H0. rewrite plus_IZR in H0. lra.
  - apply lt_IZR. lra.
Qed.

(** X7: on an axis-aligned north-up engine the cell lookup returns a
    sample of the grid, the one of the cell that holds the point, exactly
    on the half-open rectangle [min_x, max_x) x (min_y, max_y]; elsewhere,
    and so on the eastern and southern edges where the interpolating
    query still answers, it returns [None]. *)
Theorem X7_cell_lookup_half_open :
  forall (dem_data : list (list R)) (tr : Affine.t) (h w : nat) (x y : R),
    (2 <= h)%nat -> (2 <= w)%nat ->
    rectangular dem_data h w ->
    0 < Affine.a tr -> Affine.e tr < 0 ->
    Affine.b tr = 0 -> Affine.d tr = 0 ->
    let self := north_up_engine dem_data tr in
    let b := GeoreferencingEngine.dem_bounds self in
    let row := Z.to_nat (Int_part ((y - Affine.f tr) / Affine.e tr)) in
    let col := Z.to_nat (Int_part ((x - Affine.c tr) / Affine.a tr)) in
    let inside :=
      GeoreferencingEngine.min_x b <= x < GeoreferencingEngine.max_x b
      /\ GeoreferencingEngine.min_y b < y <= GeoreferencingEngine.max_y b in
    (inside ->
     GeoreferencingEngine.get_elevation_at_coord self x y
     = Some (np.item dem_data row col)
     /\ (row < h)%nat /\ (col < w)%nat
     /\ In (np.item dem_data row col) (concat dem_data))
    /\ (~ inside -> GeoreferencingEngine.get_elevation_at_coord self x y = None).
Proof.
  intros dem_data tr h w x y Hh Hw Hrect Ha He Hb Hd self b row col inside.
  pose proof (rectangular_shape dem_data h w ltac:(lia) Hrect) as Hs.
  assert (Hwpos : 0 < INR w) by (apply lt_0_INR; lia).
  assert (Hhpos : 0 < INR h) by (apply lt_0_INR; lia).
  assert (Hdet : Affine.determinant tr <> 0).
  { unfold Affine.determinant. rewrite Hb. nra. }
  assert (Hrc : rasterio.rowcol tr x y
                = Returned (Int_part ((y - Affine.f tr) / Affine.e tr),
                            Int_part ((x - Affine.c tr) / Affine.a tr))).
  { unfold rasterio.rowcol, Affine.invert. rewrite Reqb_false by exact Hdet.
    cbn [bind]. unfold Affine.apply, Affine.inverse, Affine.determinant.
    cbn [Affine.a Affine.b Affine.c Affine.d Affine.e Affine.f].
    rewrite Hb, Hd. do 2 f_equal; f_equal; field; lra. }
  set (fr := (y - Affine.f tr) / Affine.e tr) in *.
  set (fc := (x - Affine.c tr) / Affine.a tr) in *.
  assert (Hin : inside <-> (0 <= fr /\ fr < INR h) /\ (0 <= fc /\ fc < INR w)).
  { unfold inside, b, self, north_up_engine. rewrite Hs.
    cbn [fst snd GeoreferencingEngine.dem_bounds GeoreferencingEngine.min_x
         GeoreferencingEngine.max_x GeoreferencingEngine.min_y
         GeoreferencingEngine.max_y].
    assert (E1 : y - Affine.f tr = fr * Affine.e tr) by (unfold fr; field; lra).
    assert (E2 : x - Affine.c tr = fc * Affine.a tr) by (unfold fc; field; lra).
    split.
    - intros [[X1 X2] [Y1 Y2]]. repeat split; nra.
    - intros [[R1 R2] [C1 C2]]. repeat split; nra. }
  unfold GeoreferencingEngine.get_elevation_at_coord.
  change (GeoreferencingEngine.transform self) with tr.
  change (GeoreferencingEngine.dem self) with dem_data.
  replace (GeoreferencingEngine.dem_height self) with h
    by (unfold self, north_up_engine; rewrite Hs; reflexivity).
  replace (GeoreferencingEngine.dem_width self) with w
    by (unfold self, north_up_engine; rewrite Hs; reflexivity).
  rewrite Hrc.
  split.
  - intro Hi. apply Hin in Hi. destruct Hi as [[R1 R2] [C1 C2]].
    apply Int_part_nonneg in R1, C1. apply Int_part_below in R2, C2.
    rewrite (proj2 (Z.leb_le _ _) R1), (proj2 (Z.ltb_lt _ _) R2),
      (proj2 (Z.leb_le _ _) C1), (proj2 (Z.ltb_lt _ _) C2).
    cbn [andb].
    assert (Hr : (row < h)%nat) by (unfold row; lia).
    assert (Hc : (col < w)%nat) by (unfold col; lia).
    repeat split; try assumption.
    apply (item_in_concat dem_data h w); assumption.
  - intro Hout.
    destruct ((0 <=? Int_part fr)%Z && (Int_part fr <? Z.of_nat h)%Z
              && (0 <=? Int_part fc)%Z && (Int_part fc <? Z.of_nat w)%Z)%bool eqn:Hg;
      [| reflexivity].
    exfalso. apply Hout, Hin.
    rewrite !andb_true_iff, !Z.leb_le, !Z.ltb_lt in Hg.
    destruct Hg as [[[R1 R2] C1] C2].
    apply Int_part_nonneg in R1, C1. apply Int_part_below in R2, C2. tauto.
Qed.

Lemma X7_cell_lookup_half_open_witness :
  GeoreferencingEngine.get_elevation_at_coord ramp_engine 2 1 = None
  /\ GeoreferencingEngine.get_elevation_at_coord ramp_engine (3 / 2) (1 / 2)
     = Some (np.item ramp_dem
               (Z.to_nat (Int_part ((1 / 2 - 2) / - (1))))
               (Z.to_nat (Int_part ((3 / 2 - 0) / 1)))).
Proof.
  assert (Hrect : rectangular ramp_dem 2 2)
    by (split; [reflexivity | repeat constructor]).
  split.
  - apply (proj2 (X7_cell_lookup_half_open ramp_dem ramp_transform 2 2 2 1
                    (le_n 2) (le_n 2) Hrect ltac:(cbn; lra) ltac:(cbn; lra)
                    eq_refl eq_refl)).
    cbn. lra.
  - apply (proj1 (X7_cell_lookup_half_open ramp_dem ramp_transform 2 2 (3 / 2) (1 / 2)
                    (le_n 2) (le_n 2) Hrect ltac:(cbn; lra) ltac:(cbn; lra)
                    eq_refl eq_refl)).
    cbn. lra.
Defined.

(** ** What the intersector returns *)

Lemma march_sample_ray_point (o d : Vec3) (s : R) (k : nat) :
  march_sample o d s k = ray_point o d s (INR k).
Proof.
  induction k as [| k IH].
  - unfold ray_point, vadd, vscale. cbn [march_sample INR].
    apply vec3_ext; cbn [vx vy vz]; ring.
  - cbn [march_sample]. rewrite IH, S_INR.
    unfold ray_point, vadd, vscale. apply vec3_ext; cbn [vx vy vz]; ring.
Qed.

Lemma ray_point_mid (o d : Vec3) (s c1 c2 : R) :
  vdiv (vadd (ray_point o d s c1) (ray_point o d s c2)) 2
  = ray_point o d s ((c1 + c2) / 2).
Proof.
  unfold ray_point, vdiv, vadd, vscale. apply vec3_ext; cbn [vx vy vz]; field.
Qed.

Lemma ray_point_step (o d : Vec3) (s c : R) :
  vadd (ray_point o d s c) (vscale d s) = ray_point o d s (c + 1).
Proof.
  unfold ray_point, vadd, vscale. apply vec3_ext; cbn [vx vy vz]; ring.
Qed.

(** The world bounds are convex along a ray. *)
Lemma in_bounds_between (self : GeoreferencingEngine.t) (o d : Vec3) (s c1 c2 c : R) :
  GeoreferencingEngine.in_bounds self (vx (ray_point o d s c1))
                                 (vy (ray_point o d s c1)) = true ->
  GeoreferencingEngine.in_bounds self (vx (ray_point o d s c2))
                                 (vy (ray_point o d s c2)) = true ->
  c = (c1 + c2) / 2 ->
  GeoreferencingEngine.in_bounds self (vx (ray_point o d s c))
                                 (vy (ray_point o d s c)) = true.
Proof.
  rewrite !in_bounds_spec. unfold ray_point, vadd, vscale. cbn [vx vy vz].
  intros H1 H2 ->.
  replace (vx d * ((c1 + c2) / 2 * s))
    with ((vx d * (c1 * s) + vx d * (c2 * s)) / 2) by field.
  replace (vy d * ((c1 + c2) / 2 * s))
    with ((vy d * (c1 * s) + vy d * (c2 * s)) / 2) by field.
  lra.
Qed.

Section Landing.

Variables (self : GeoreferencingEngine.t) (o d : Vec3) (s : R).

Let inside (c : R) : Prop :=
  GeoreferencingEngine.in_bounds self (vx (ray_point o d s c))
                                 (vy (ray_point o d s c)) = true.

Lemma bisect_loop_lands (iterations : nat) :
  forall (c1 c2 lo hi e1 e2 : R) (st : GeoreferencingEngine.bisect_end),
    lo <= c1 <= hi -> lo <= c2 <= hi -> inside c1 -> inside c2 ->
    GeoreferencingEngine.bisect_loop self iterations
      (ray_point o d s c1) (ray_point o d s c2) e1 e2 = Returned st ->
    match st with
    | GeoreferencingEngine.Converged p =>
        exists c, lo <= c <= hi /\ lands self o d s c p
    | GeoreferencingEngine.Unconverged q1 q2 _ _ =>
        exists k1 k2,
          lo <= k1 <= hi /\ lo <= k2 <= hi /\ inside k1 /\ inside k2
          /\ q1 = ray_point o d s k1 /\ q2 = ray_point o d s k2
    end.
Proof.
  induction iterations as [| rest IH]; intros c1 c2 lo hi e1 e2 st H1 H2 I1 I2 Hrun.
  - cbn in Hrun. injection Hrun as <-. exists c1, c2. auto 10.
  - cbn [GeoreferencingEngine.bisect_loop] in Hrun.
    rewrite ray_point_mid in Hrun.
    set (cm := (c1 + c2) / 2) in *.
    assert (Hm : lo <= cm <= hi) by (unfold cm; lra).
    assert (Im : inside cm) by (apply (in_bounds_between self o d s c1 c2); auto).
    destruct (GeoreferencingEngine.get_elevation_at_point self _) as [[g |] |] eqn:Hg;
      cbn [bind] in Hrun; [| | discriminate].
    + destruct (Rabs (vz (ray_point o d s cm) - g) <? 0.1).
      * injection Hrun as <-. exists cm. split; [exact Hm |].
        unfold lands. cbn [vx vy vz]. repeat split; try reflexivity; auto.
      * destruct (g <? vz (ray_point o d s cm)).
        -- apply (IH cm c2 lo hi g e2 st); auto.
        -- apply (IH c1 cm lo hi e1 g st); auto.
    + injection Hrun as <-. exists c1, c2. auto 10.
Qed.

Lemma bisect_lands (c1 c2 lo hi e1 e2 : R) (max_iter : nat) (p : Vec3) :
  lo <= c1 <= hi -> lo <= c2 <= hi -> inside c1 -> inside c2 ->
  GeoreferencingEngine._bisect_intersection self
    (ray_point o d s c1) (ray_point o d s c2) e1 e2 max_iter = Returned p ->
  exists c, lo <= c <= hi /\ lands self o d s c p.
Proof.
  intros H1 H2 I1 I2. unfold GeoreferencingEngine._bisect_intersection.
  destruct (GeoreferencingEngine.bisect_loop self max_iter _ _ e1 e2)
    as [st |] eqn:Hloop; cbn [bind]; [| discriminate].
  pose proof (bisect_loop_lands max_iter c1 c2 lo hi e1 e2 st H1 H2 I1 I2 Hloop) as Hst.
  destruct st as [q | q1 q2 e1' e2'].
  - intro H. injection H as <-. exact Hst.
  - destruct Hst as (k1 & k2 & K1 & K2 & J1 & J2 & -> & ->).
    rewrite ray_point_mid. remember ((k1 + k2) / 2) as cm eqn:Ecm.
    assert (Im : inside cm) by (apply (in_bounds_between self o d s k1 k2); auto).
    destruct (GeoreferencingEngine.get_elevation_at_point self _) as [f |] eqn:Hf;
      cbn [bind]; [| discriminate].
    intro H. injection H as <-. exists cm. split; [lra |].
    unfold lands. cbn [vx vy vz]. repeat split; try reflexivity; auto.
    unfold ray_point, vadd, vscale in Hf. cbn [vx vy vz] in Hf. rewrite Hf. unfold ray_point, vadd, vscale. cbn [vx vy vz]. destruct f as [v |]; cbn [truthy].
    + unfold Reqb. destruct (Req_dec_T v 0) as [-> | Hv]; cbn [negb].
      * right. split; [reflexivity | right; reflexivity].
      * left. reflexivity.
    + right. split; [reflexivity | left; reflexivity].
Qed.

Lemma march_lands (steps : nat) :
  forall (c0 : R) (prev : option (Vec3 * R)) (p : Vec3),
    0 <= c0 ->
    (prev = None \/ (inside c0 /\ exists e, prev = Some (ray_point o d s c0, e))) ->
    GeoreferencingEngine.march self d s steps (ray_point o d s c0) prev
    = Returned (Some p) ->
    exists c, c0 <= c <= c0 + INR steps /\ lands self o d s c p.
Proof.
  induction steps as [| rest IH]; intros c0 prev p Hc0 Hprev Hrun;
    [cbn in Hrun; discriminate |].
  cbn [GeoreferencingEngine.march] in Hrun. rewrite ray_point_step in Hrun.
  rewrite S_INR.
  destruct (GeoreferencingEngine.in_bounds self _ _) eqn:Hb;
    cbn [negb] in Hrun; [| discriminate].
  destruct (GeoreferencingEngine.get_elevation_at_point self _) as [[g |] |] eqn:Hg;
    cbn [bind] in Hrun; try discriminate.
  assert (Hrest : 0 <= INR rest) by apply pos_INR.
  destruct (vz (ray_point o d s (c0 + 1)) <=? g).
  - destruct Hprev as [-> | [I0 [e ->]]].
    + injection Hrun as <-. exists (c0 + 1). split; [lra |].
      unfold lands. cbn [vx vy vz]. repeat split; try reflexivity; auto.
    + destruct (GeoreferencingEngine._bisect_intersection self _ _ e g _)
        as [q |] eqn:Hbis; cbn [bind] in Hrun; [| discriminate].
      injection Hrun as <-.
      destruct (bisect_lands c0 (c0 + 1) c0 (c0 + 1) e g _ q
                  ltac:(lra) ltac:(lra) I0 Hb Hbis) as (c & Hc & Hl).
      exists c. split; [lra | exact Hl].
  - destruct (IH (c0 + 1) _ p ltac:(lra)
                 ltac:(right; split; [exact Hb | eexists; reflexivity]) Hrun)
      as (c & Hc & Hl).
    exists c. split; [lra | exact Hl].
Qed.

End Landing.

Lemma ray_point_origin (o d : Vec3) (s : R) : ray_point o d s 0 = o.
Proof. unfold ray_point, vadd, vscale. apply vec3_ext; cbn [vx vy vz]; ring. Qed.

(** A returned intersection comes out of the march of a validated ray. *)
Lemma intersect_some_inv (self : GeoreferencingEngine.t) (o d : Vec3)
      (step_size : option R) (max_steps : option Z) (p : Vec3) :
  GeoreferencingEngine.intersect_ray_with_dem self o d step_size max_steps
  = Returned (Some p) ->
  exists m s n,
    vz d < 0
    /\ np.min (GeoreferencingEngine.dem self) = Some m
    /\ m < vz o
    /\ GeoreferencingEngine.march_parameters self o (normalized d) m step_size max_steps
       = Returned (s, n)
    /\ GeoreferencingEngine.march self (normalized d) s (Z.to_nat n) o None
       = Returned (Some p).
Proof.
  unfold GeoreferencingEngine.intersect_ray_with_dem.
  destruct (0 <=? vz d) eqn:Hd; [discriminate |]. apply Rleb_nspec in Hd.
  destruct (np.max _) as [M |]; [| discriminate].
  destruct (np.min _) as [m |] eqn:Hmin; [| discriminate].
  destruct (vz o - m <=? 0) eqn:Hm; [discriminate |]. apply Rleb_nspec in Hm.
  fold (normalized d).
  destruct (GeoreferencingEngine.march_parameters _ _ _ _ _ _) as [[s n] |] eqn:Hp;
    cbn [bind]; [| discriminate].
  intro Hrun. exists m, s, n. repeat split; try assumption; lra.
Qed.

Lemma intersection_lands (self : GeoreferencingEngine.t) (o d : Vec3)
      (step_size : option R) (max_steps : option Z) (p : Vec3) :
  GeoreferencingEngine.intersect_ray_with_dem self o d step_size max_steps
  = Returned (Some p) ->
  exists m s n c,
    GeoreferencingEngine.march_parameters self o (normalized d) m step_size max_steps
    = Returned (s, n)
    /\ 0 <= c <= INR (Z.to_nat n)
    /\ lands self o (normalized d) s c p.
Proof.
  intro H. apply intersect_some_inv in H.
  destruct H as (m & s & n & _ & _ & _ & Hp & Hrun).
  rewrite <- (ray_point_origin o (normalized d) s) in Hrun at 1.
  apply march_lands in Hrun; [| lra | left; reflexivity].
  destruct Hrun as (c & Hc & Hl).
  exists m, s, n, c. split; [exact Hp | split; [lra | exact Hl]].
Qed.


Lemma flat_first_hit :
  GeoreferencingEngine.intersect_ray_with_dem
    (flat_engine 100) (mkVec3 5 5 101) (mkVec3 0 0 (-1)) (Some 2) (Some 1%Z)
  = Returned (Some (mkVec3 (5 + 0 * 2) (5 + 0 * 2) 100)).
Proof.
  rewrite (intersect_validated (flat_engine 100) _ _ _ _ 100 2 1%Z);
    [| cbn; lra | apply np_min_flat | cbn; lra | reflexivity].
  rewrite normalized_down.
  change (Z.to_nat 1) with 1%nat. cbn [GeoreferencingEngine.march].
  unfold vadd, vscale. cbn [vx vy vz].
  rewrite flat_engine_in_bounds by lra. cbn [negb].
  rewrite flat_engine_elevation by lra. cbn [bind].
  rewrite Rleb_true by lra. reflexivity.
Qed.


(** X9: over a constructed flat grid of at least 2 x 2 samples at an
    elevation [E] other than 0, every point the intersector returns has
    z exactly [E], whatever the ray and the step parameters. *)
Theorem X9_flat_terrain_height :
  forall (h w : nat) (E : R) (tr : Affine.t) (self : GeoreferencingEngine.t)
         (ray_origin ray_direction : Vec3)
         (step_size : option R) (max_steps : option Z) (p : Vec3),
    (2 <= h)%nat -> (2 <= w)%nat -> E <> 0 ->
    GeoreferencingEngine.__init__ (repeat (repeat E w) h) tr = Returned self ->
    GeoreferencingEngine.intersect_ray_with_dem
      self ray_origin ray_direction step_size max_steps = Returned (Some p) ->
    vz p = E.
Proof.
  intros h w E tr self o d step_size max_steps p.
  intros Hh Hw HE Hinit Hrun.
  destruct (intersection_lands _ _ _ _ _ _ Hrun) as (m & s & n & c & _ & _ & Hl).
  destruct Hl as (_ & _ & Hb & Hz).
  rewrite (flat_grid_elevation h w E tr self _ _ Hh Hw Hinit), Hb in Hz.
  destruct Hz as [Hz | [_ [Hz | Hz]]]; try discriminate.
  - injection Hz as <-. reflexivity.
  - injection Hz as Hz. contradiction.
Qed.

Lemma X9_flat_terrain_height_witness :
  vz (mkVec3 (5 + 0 * 2) (5 + 0 * 2) 100) = 100.
Proof.
  apply (X9_flat_terrain_height 2 2 100 flat_transform (flat_engine 100)
           (mkVec3 5 5 101) (mkVec3 0 0 (-1)) (Some 2) (Some 1%Z)).
  - lia.
  - lia.
  - lra.
  - apply flat_engine_init.
  - apply flat_first_hit.
Defined.

(** ** When the march fails *)

Section Returns.

Variable self : GeoreferencingEngine.t.
Hypothesis query_returns :
  forall xy, exists r,
    GeoreferencingEngine.get_elevation_at_point self xy = Returned r.

Lemma bisect_loop_returns (iterations : nat) :
  forall p1 p2 e1 e2, exists st,
    GeoreferencingEngine.bisect_loop self iterations p1 p2 e1 e2 = Returned st.
Proof.
  induction iterations as [| rest IH]; intros p1 p2 e1 e2;
    cbn [GeoreferencingEngine.bisect_loop]; [eauto |].
  destruct (query_returns (vx (vdiv (vadd p1 p2) 2), vy (vdiv (vadd p1 p2) 2)))
    as [[g |] Hg]; rewrite Hg; cbn [bind]; [| eauto].
  destruct (_ <? 0.1); [eauto |]. destruct (g <? _); apply IH.
Qed.

Lemma bisect_returns (p1 p2 : Vec3) (e1 e2 : R) (max_iter : nat) :
  exists q,
    GeoreferencingEngine._bisect_intersection self p1 p2 e1 e2 max_iter = Returned q.
Proof.
  unfold GeoreferencingEngine._bisect_intersection.
  destruct (bisect_loop_returns max_iter p1 p2 e1 e2) as [st Hst].
  rewrite Hst. cbn [bind]. destruct st as [q | q1 q2 e1' e2']; [eauto |].
  destruct (query_returns (vx (vdiv (vadd q1 q2) 2), vy (vdiv (vadd q1 q2) 2)))
    as [f Hf]; rewrite Hf; cbn [bind]. eauto.
Qed.

(** A march that ends with [None] left the bounds, met a point without
    elevation, or stayed above the terrain at every sample. *)
Lemma march_none_cases (d : Vec3) (s : R) (steps : nat) :
  forall (cur : Vec3) (prev : option (Vec3 * R)),
    GeoreferencingEngine.march self d s steps cur prev = Returned None ->
    (exists k, (1 <= k <= steps)%nat
               /\ GeoreferencingEngine.get_elevation_at_point
                    self (vx (march_sample cur d s k), vy (march_sample cur d s k))
                  = Returned None)
    \/ (forall k, (1 <= k <= steps)%nat ->
                  exists g,
                    GeoreferencingEngine.get_elevation_at_point
                      self (vx (march_sample cur d s k), vy (march_sample cur d s k))
                    = Returned (Some g)
                    /\ g < vz (march_sample cur d s k)).
Proof.
  induction steps as [| rest IH]; intros cur prev Hrun; [right; intros k Hk; lia |].
  cbn [GeoreferencingEngine.march] in Hrun.
  set (next := vadd cur (vscale d s)) in *.
  destruct (GeoreferencingEngine.in_bounds self (vx next) (vy next)) eqn:Hb;
    cbn [negb] in Hrun.
  - destruct (GeoreferencingEngine.get_elevation_at_point self (vx next, vy next))
      as [[g |] |] eqn:Hg; cbn [bind] in Hrun; [| | discriminate].
    + destruct (vz next <=? g) eqn:Hz.
      * exfalso. destruct prev as [[pp pe] |]; [| discriminate].
        destruct (bisect_returns pp next pe g GeoreferencingEngine.default_max_iter)
          as [q Hq]. rewrite Hq in Hrun. discriminate.
      * apply Rleb_nspec in Hz.
        destruct (IH next _ Hrun) as [(k & Hk & Hnone) | Hall].
        -- left. exists (S k). split; [lia |].
           unfold next in Hnone. rewrite march_sample_shift in Hnone. exact Hnone.
        -- right. intros [| [| k]] Hk; [lia | exists g; auto |].
           destruct (Hall (S k) ltac:(lia)) as (g' & Hg' & Hz').
           unfold next in Hg', Hz'. rewrite march_sample_shift in Hg', Hz'. eauto.
    + left. exists 1%nat. split; [lia | exact Hg].
  - left. exists 1%nat. split; [lia |]. apply elevation_out_of_bounds. exact Hb.
Qed.

Lemma march_returns (d : Vec3) (s : R) (steps : nat) :
  forall (cur : Vec3) (prev : option (Vec3 * R)), exists r,
    GeoreferencingEngine.march self d s steps cur prev = Returned r.
Proof.
  induction steps as [| rest IH]; intros cur prev;
    cbn [GeoreferencingEngine.march]; [eauto |].
  set (next := vadd cur (vscale d s)).
  destruct (GeoreferencingEngine.in_bounds self (vx next) (vy next));
    cbn [negb]; [| eauto].
  destruct (query_returns (vx next, vy next)) as [[g |] Hg]; rewrite Hg; cbn [bind];
    [| eauto].
  destruct (vz next <=? g); [| apply IH].
  destruct prev as [[pp pe] |]; [| eauto].
  destruct (bisect_returns pp next pe g GeoreferencingEngine.default_max_iter)
    as [q Hq]. rewrite Hq. cbn [bind]. eauto.
Qed.

End Returns.

Lemma normalized_z_negative (d : Vec3) : vz d < 0 -> vz (normalized d) < 0.
Proof.
  intro Hd. pose proof (norm_ge_z d) as Hn.
  assert (Ha : Rabs (vz d) = - vz d) by (apply Rabs_left; exact Hd).
  unfold normalized, vdiv. cbn [vz].
  assert (Hpos : 0 < np.linalg_norm d) by lra.
  assert (H : 0 < (- vz d) / np.linalg_norm d)
    by (apply Rdiv_lt_0_compat; lra).
  replace (vz d / np.linalg_norm d) with (- ((- vz d) / np.linalg_norm d))
    by (field; lra).
  lra.
Qed.

(** With the step budget the code computes, the last sample of the march
    lies below the lowest elevation of the grid. *)
Lemma default_budget_reaches_floor (self : GeoreferencingEngine.t) (o d : Vec3)
      (step_size : option R) (m s : R) (n : Z) :
  vz d < 0 -> m < vz o -> 0 < s ->
  GeoreferencingEngine.march_parameters self o d m step_size None = Returned (s, n) ->
  (1000 <= n)%Z /\ vz (march_sample o d s (Z.to_nat n)) < m.
Proof.
  intros Hd Hm Hs Hp. unfold GeoreferencingEngine.march_parameters in Hp.
  set (s0 := match step_size with Some s1 => s1 | None => _ end) in Hp.
  destruct (s0 =? 0); [discriminate |].
  injection Hp as Hs0 Hn. rewrite Hs0 in *. clear s0 Hs0.
  assert (Ha : Rabs (vz d) = - vz d) by (apply Rabs_left; exact Hd).
  rewrite Ha in Hn.
  set (r := (vz o - m) / - vz d / s) in *.
  assert (Hr : 0 < r).
  { unfold r. apply Rdiv_lt_0_compat; [| exact Hs].
    apply Rdiv_lt_0_compat; lra. }
  assert (Hint : r - 1 < IZR (int r)).
  { unfold int. destruct (Rle_dec 0 r); [| lra].
    destruct (base_Int_part r). lra. }
  assert (Hn1 : (int r + 100 <= n)%Z) by lia.
  assert (Hn2 : (1000 <= n)%Z) by lia.
  split; [exact Hn2 |].
  rewrite march_sample_ray_point. unfold ray_point, vadd, vscale. cbn [vz].
  rewrite INR_IZR_INZ, Z2Nat.id by lia.
  apply IZR_le in Hn1. rewrite plus_IZR in Hn1.
  assert (Hbig : r < IZR n) by lra.
  assert (Hmul : (vz o - m) / - vz d < IZR n * s).
  { unfold r in Hbig. apply Rmult_lt_compat_r with (r := s) in Hbig; [| exact Hs].
    unfold Rdiv in Hbig at 1. rewrite Rmult_assoc, Rinv_l, Rmult_1_r in Hbig by lra.
    exact Hbig. }
  apply Rmult_lt_compat_r with (r := - vz d) in Hmul; [| lra].
  unfold Rdiv in Hmul. rewrite Rmult_assoc, Rinv_l, Rmult_1_r in Hmul by lra.
  lra.
Qed.

Lemma interpolator_query_returns (self : GeoreferencingEngine.t)
      (itp : scipy.RegularGridInterpolator) :
  GeoreferencingEngine.interpolator self = Some itp ->
  forall xy, exists r,
    GeoreferencingEngine.get_elevation_at_point self xy = Returned r.
Proof.
  intros Hi [x y]. unfold GeoreferencingEngine.get_elevation_at_point.
  rewrite Hi. destruct (negb _); eauto.
Qed.

Lemma north_up_elevation_floor (dem_data : list (list R)) (tr : Affine.t)
      (h w : nat) (x y m g : R) :
  (2 <= h)%nat -> (2 <= w)%nat -> rectangular dem_data h w ->
  0 < Affine.a tr -> Affine.e tr < 0 ->
  is_minimum dem_data m ->
  GeoreferencingEngine.get_elevation_at_point (north_up_engine dem_data tr) (x, y)
  = Returned (Some g) ->
  m <= g.
Proof.
  intros Hh Hw Hrect Ha He Hmin Hg.
  pose proof (elevation_some_in_bounds _ _ _ _ Hg) as Hb.
  pose proof (np_min_is_minimum _ _ Hmin) as Hnp.
  destruct (reduce_some_iff Rmin Rmax _ _ Hnp) as [M HM].
  apply np_max_some in HM.
  destruct (elevation_between_extremes dem_data tr h w x y m M
              Hh Hw Hrect Ha He Hmin HM Hb) as (v & Hv & Hrange).
  rewrite Hv in Hg. injection Hg as <-. lra.
Qed.

Lemma north_up_march_failure (dem_data : list (list R)) (tr : Affine.t) (h w : nat)
      (o d : Vec3) (step_size : option R) (m s : R) (n : Z) :
  (2 <= h)%nat -> (2 <= w)%nat -> rectangular dem_data h w ->
  0 < Affine.a tr -> Affine.e tr < 0 ->
  vz d < 0 -> is_minimum dem_data m -> m < vz o -> 0 < s ->
  let self := north_up_engine dem_data tr in
  GeoreferencingEngine.march_parameters self o (normalized d) m step_size None
  = Returned (s, n) ->
  (exists r,
      GeoreferencingEngine.intersect_ray_with_dem self o d step_size None = Returned r)
  /\ (GeoreferencingEngine.intersect_ray_with_dem self o d step_size None
      = Returned None ->
      exists k, (1 <= k <= Z.to_nat n)%nat
                /\ GeoreferencingEngine.in_bounds
                     self (vx (march_sample o (normalized d) s k))
                     (vy (march_sample o (normalized d) s k)) = false).
Proof.
  intros Hh Hw Hrect Ha He Hd Hmin Hm Hs self Hp.
  pose proof (north_up_interpolator dem_data tr h w Hh Hw Hrect) as Hitp.
  pose proof (interpolator_query_returns self _ Hitp) as Hq.
  rewrite (intersect_validated self o d step_size None m s n Hd
             (np_min_is_minimum _ _ Hmin) Hm Hp).
  split; [apply march_returns; exact Hq |].
  intro Hnone.
  destruct (default_budget_reaches_floor self o (normalized d) step_size m s n
              (normalized_z_negative d Hd) Hm Hs Hp) as [Hn Hfloor].
  destruct (march_none_cases self Hq _ _ _ _ _ Hnone) as [(k & Hk & Hno) | Hall].
  - exists k. split; [exact Hk |].
    destruct (GeoreferencingEngine.in_bounds self _ _) eqn:Hb; [| reflexivity].
    destruct (north_up_query dem_data tr h w Hh Hw Hrect Ha He _ _ Hb)
      as (i0 & i1 & y0 & y1 & _ & _ & _ & _ & _ & _ & Hsome).
    fold self in Hsome. rewrite Hsome in Hno. discriminate.
  - exfalso.
    destruct (Hall (Z.to_nat n) ltac:(lia)) as (g & Hg & Hz).
    pose proof (north_up_elevation_floor dem_data tr h w _ _ m g
                  Hh Hw Hrect Ha He Hmin Hg).
    lra.
Qed.

(** X10: on a north-up engine over at least 2 x 2 samples, a validated
    ray marched with a positive step and the step budget the code
    computes always gets an answer, and the answer is [None] only if a
    sample of the march lies outside the world bounds: the budget cannot
    run out above the terrain. *)
Theorem X10_failure_only_outside_bounds :
  forall (dem_data : list (list R)) (tr : Affine.t) (h w : nat)
         (ray_origin ray_direction : Vec3) (step_size : option R) (m s : R) (n : Z),
    (2 <= h)%nat -> (2 <= w)%nat -> rectangular dem_data h w ->
    0 < Affine.a tr -> Affine.e tr < 0 ->
    vz ray_direction < 0 -> is_minimum dem_data m -> m < vz ray_origin -> 0 < s ->
    let self := north_up_engine dem_data tr in
    GeoreferencingEngine.march_parameters
      self ray_origin (normalized ray_direction) m step_size None = Returned (s, n) ->
    (exists r,
        GeoreferencingEngine.intersect_ray_with_dem
          self ray_origin ray_direction step_size None = Returned r)
    /\ (GeoreferencingEngine.intersect_ray_with_dem
          self ray_origin ray_direction step_size None = Returned None ->
        exists k, (1 <= k <= Z.to_nat n)%nat
                  /\ GeoreferencingEngine.in_bounds
                       self (vx (march_sample ray_origin (normalized ray_direction) s k))
                       (vy (march_sample ray_origin (normalized ray_direction) s k))
                     = false).
Proof. exact north_up_march_failure. Qed.

Lemma is_minimum_flat (E : R) : is_minimum (flat_dem E) E.
Proof. apply np_min_some, np_min_flat. Qed.

Lemma X10_failure_only_outside_bounds_witness :
  (exists r,
      GeoreferencingEngine.intersect_ray_with_dem
        (flat_engine 0) (mkVec3 5 5 10) (mkVec3 3 0 (-4)) None None = Returned r)
  /\ (GeoreferencingEngine.intersect_ray_with_dem
        (flat_engine 0) (mkVec3 5 5 10) (mkVec3 3 0 (-4)) None None = Returned None ->
      exists k, (1 <= k <= Z.to_nat 1000)%nat
                /\ GeoreferencingEngine.in_bounds
                     (flat_engine 0)
                     (vx (march_sample (mkVec3 5 5 10) (normalized (mkVec3 3 0 (-4))) 25 k))
                     (vy (march_sample (mkVec3 5 5 10) (normalized (mkVec3 3 0 (-4))) 25 k))
                   = false).
Proof.
  apply (X10_failure_only_outside_bounds
           (flat_dem 0) flat_transform 2 2 (mkVec3 5 5 10) (mkVec3 3 0 (-4))
           None 0 25 1000%Z); try lia; try (cbn; lra).
  - split; [reflexivity | repeat constructor].
  - apply is_minimum_flat.
  - rewrite normalized_3_4. apply flat_engine_default_parameters.
Defined.

(** ** The reference elevation under the camera *)

Lemma default_parameters_exist (self : GeoreferencingEngine.t) (o d : Vec3) (m : R) :
  0 < Affine.a (GeoreferencingEngine.transform self) ->
  exists s n,
    0 < s
    /\ GeoreferencingEngine.march_parameters self o d m None None = Returned (s, n).
Proof.
  intro Ha. unfold GeoreferencingEngine.march_parameters.
  set (s := Rmax _ _ * 5).
  assert (Hs : 0 < s).
  { unfold s. pose proof (Rmax_l (Rabs (Affine.a (GeoreferencingEngine.transform self)))
                                 (Rabs (Affine.e (GeoreferencingEngine.transform self)))).
    pose proof (Rabs_pos_lt (Affine.a (GeoreferencingEngine.transform self))
                            ltac:(lra)).
    lra. }
  rewrite Reqb_false by lra. eauto.
Qed.

(** X11: on a north-up engine over at least 2 x 2 samples, the reference
    elevation in the [camera_nadir] mode is the terrain elevation straight
    under a camera that is inside the world bounds and above the lowest
    sample, unless that elevation is exactly zero; it is 0 for a camera at
    or below the lowest sample; in every other mode it is the custom
    value of the state. *)
Theorem X11_reference_elevation :
  forall (dem_data : list (list R)) (tr : Affine.t) (h w : nat)
         (camera : CameraModel.t) (st : BackendService.state) (m : R),
    (2 <= h)%nat -> (2 <= w)%nat -> rectangular dem_data h w ->
    0 < Affine.a tr -> Affine.e tr < 0 ->
    is_minimum dem_data m ->
    let self := north_up_engine dem_data tr in
    let pos := CameraModel.camera_pos_world camera in
    (BackendService.ref_elevation_mode st <> BackendService.camera_nadir ->
     BackendService._calculate_reference_elevation self camera st
     = Returned (BackendService.custom_ref_elevation st))
    /\ (BackendService.ref_elevation_mode st = BackendService.camera_nadir ->
        vz pos <= m ->
        BackendService._calculate_reference_elevation self camera st = Returned 0)
    /\ (BackendService.ref_elevation_mode st = BackendService.camera_nadir ->
        m < vz pos ->
        GeoreferencingEngine.in_bounds self (vx pos) (vy pos) = true ->
        exists r v,
          BackendService._calculate_reference_elevation self camera st = Returned r
          /\ GeoreferencingEngine.get_elevation_at_point self (vx pos, vy pos)
             = Returned (Some v)
          /\ (r = v \/ v = 0)).
Proof.
  intros dem_data tr h w camera st m.
  intros Hh Hw Hrect Ha He Hmin self pos.
  unfold BackendService._calculate_reference_elevation.
  fold BackendService.camera_nadir. fold pos.
  split; [| split].
  - intro Hmode. apply String.eqb_neq in Hmode. rewrite Hmode. reflexivity.
  - intros Hmode Hlow. apply String.eqb_eq in Hmode. rewrite Hmode.
    assert (Hrun : GeoreferencingEngine.intersect_ray_with_dem
                     self pos (mkVec3 0 0 (-1)) None None = Returned None).
    { unfold GeoreferencingEngine.intersect_ray_with_dem.
      rewrite Rleb_false by (cbn; lra).
      pose proof (np_min_is_minimum _ _ Hmin) as Hnp.
      destruct (reduce_some_iff Rmin Rmax _ _ Hnp) as [M HM].
      change (GeoreferencingEngine.dem self) with dem_data.
      unfold np.max, np.min in *. rewrite HM, Hnp.
      rewrite Rleb_true by lra. reflexivity. }
    rewrite Hrun. reflexivity.
  - intros Hmode Habove Hb. apply String.eqb_eq in Hmode. rewrite Hmode.
    destruct (default_parameters_exist self pos (normalized (mkVec3 0 0 (-1))) m)
      as (s & n & Hs & Hp).
    { unfold self, north_up_engine. cbn. exact Ha. }
    assert (Hd : vz (mkVec3 0 0 (-1)) < 0) by (cbn; lra).
    destruct (north_up_march_failure dem_data tr h w pos (mkVec3 0 0 (-1)) None m s n
                Hh Hw Hrect Ha He Hd Hmin Habove Hs Hp) as [[r Hr] Hnone].
    fold self in Hr, Hnone.
    assert (Hxy : forall c, vx (ray_point pos (normalized (mkVec3 0 0 (-1))) s c) = vx pos
                            /\ vy (ray_point pos (normalized (mkVec3 0 0 (-1))) s c)
                               = vy pos).
    { intro c. rewrite normalized_down. unfold ray_point, vadd, vscale.
      cbn [vx vy vz]. split; ring. }
    destruct (north_up_query dem_data tr h w Hh Hw Hrect Ha He _ _ Hb)
      as (i0 & i1 & y0 & y1 & _ & _ & _ & _ & _ & _ & Hsome).
    fold self in Hsome.
    destruct r as [p |].
    + destruct (intersection_lands _ _ _ _ _ _ Hr) as (m' & s' & n' & c & Hp' & _ & Hl).
      assert (s' = s) as ->.
      { unfold GeoreferencingEngine.march_parameters in Hp, Hp'.
        destruct (_ =? 0) in Hp; [discriminate |].
        destruct (_ =? 0) in Hp'; [discriminate |].
        injection Hp as <- _. injection Hp' as <- _. reflexivity. }
      destruct Hl as (Hx & Hy & _ & Hz).
      destruct (Hxy c) as [Ex Ey]. rewrite Ex in Hx. rewrite Ey in Hy.
      rewrite Hx, Hy, Hsome in Hz.
      rewrite Hr. cbn [bind]. eexists. eexists.
      split; [reflexivity |]. split; [exact Hsome |].
      destruct Hz as [Hz | [_ [Hz | Hz]]]; try discriminate.
      * injection Hz as Hz. left. symmetry. exact Hz.
      * injection Hz as Hz. right. exact Hz.
    + exfalso. destruct (Hnone Hr) as (k & _ & Hout).
      rewrite march_sample_ray_point in Hout.
      destruct (Hxy (INR k)) as [Ex Ey]. rewrite Ex, Ey in Hout. congruence.
Qed.

Lemma X11_reference_elevation_witness :
  exists r v,
    BackendService._calculate_reference_elevation
      (flat_engine 5) nadir_camera (BackendService.mkState BackendService.camera_nadir 0)
    = Returned r
    /\ GeoreferencingEngine.get_elevation_at_point (flat_engine 5) (0, 0)
       = Returned (Some v)
    /\ (r = v \/ v = 0).
Proof.
  assert (Hrect : rectangular (flat_dem 5) 2 2)
    by (split; [reflexivity | repeat constructor]).
  apply (proj2 (proj2 (X11_reference_elevation
                         (flat_dem 5) flat_transform 2 2 nadir_camera
                         (BackendService.mkState BackendService.camera_nadir 0) 5
                         (le_n 2) (le_n 2) Hrect ltac:(cbn; lra) ltac:(cbn; lra)
                         (is_minimum_flat 5)))).
  - reflexivity.
  - cbn. lra.
  - apply flat_engine_in_bounds; cbn; lra.
Defined.

(** ** The batch projection, point by point *)

Lemma select_map {A B : Type} (P : A -> bool) (g : A -> B) (l : list A) :
  select (map P l) (map g l) = map g (filter P l).
Proof.
  unfold select. induction l as [| a l IH]; [reflexivity |].
  cbn [map combine filter fst]. destruct (P a); cbn [map snd]; rewrite IH; reflexivity.
Qed.

Lemma select_self {A : Type} (P : A -> bool) (l : list A) :
  select (map P l) l = filter P l.
Proof.
  rewrite <- (map_id l) at 2. rewrite select_map. apply map_id.
Qed.

Lemma select_seq {A : Type} (P : A -> bool) (l : list A) :
  forall k, select (map P l) (seq k (length l)) = masked_indices P k l.
Proof.
  unfold select. induction l as [| a l IH]; intro k; [reflexivity |].
  cbn [map length seq combine filter fst masked_indices].
  destruct (P a); cbn [map snd]; rewrite IH; reflexivity.
Qed.

Lemma select_masked {A : Type} (P Q : A -> bool) (l : list A) :
  forall k,
    select (map Q (filter P l)) (masked_indices P k l)
    = masked_indices (fun a => P a && Q a) k l.
Proof.
  unfold select. induction l as [| a l IH]; intro k; [reflexivity |].
  cbn [filter masked_indices]. destruct (P a); cbn [andb]; [| apply IH].
  cbn [map combine filter fst]. destruct (Q a); cbn [map snd]; rewrite IH; reflexivity.
Qed.

Lemma filter_filter {A : Type} (P Q : A -> bool) (l : list A) :
  filter Q (filter P l) = filter (fun a => P a && Q a) l.
Proof.
  induction l as [| a l IH]; [reflexivity |].
  cbn [filter]. destruct (P a); cbn [andb filter]; [| exact IH].
  destruct (Q a); rewrite IH; reflexivity.
Qed.

Lemma masked_indices_length {A : Type} (P : A -> bool) (l : list A) :
  forall k, length (masked_indices P k l) = length (filter P l).
Proof.
  induction l as [| a l IH]; intro k; [reflexivity |].
  cbn [masked_indices filter]. destruct (P a); cbn [length]; rewrite IH; reflexivity.
Qed.

Lemma update_nth_middle {A : Type} (pre post : list A) (b : A) (g : A -> A) :
  update_nth (pre ++ b :: post) (length pre) g = pre ++ g b :: post.
Proof.
  unfold update_nth. rewrite nth_error_app2, Nat.sub_diag by lia. cbn [nth_error].
  induction pre as [| x pre IH]; [reflexivity |].
  cbn [app length set_nth]. rewrite IH. reflexivity.
Qed.

(** Writing [g (v a)] at the position of every element [a] of [l] that
    satisfies [P] leaves the other positions as they were. *)
Lemma scatter_masked {A B C : Type} (P : A -> bool) (v : A -> C) (g : C -> B -> B)
      (l : list A) :
  forall (pre base : list B),
    length base = length l ->
    scatter g (pre ++ base) (masked_indices P (length pre) l) (map v (filter P l))
    = pre ++ map (fun ab : A * B => if P (fst ab) then g (v (fst ab)) (snd ab)
                                    else snd ab)
                 (combine l base).
Proof.
  induction l as [| a l IH]; intros pre base Hlen.
  - destruct base; [reflexivity | discriminate].
  - destruct base as [| b base]; [discriminate |]. injection Hlen as Hlen.
    cbn [masked_indices filter combine map fst snd].
    destruct (P a).
    + cbn [map scatter]. rewrite update_nth_middle.
      replace (pre ++ g (v a) b :: base) with ((pre ++ [g (v a) b]) ++ base)
        by (rewrite <- app_assoc; reflexivity).
      replace (S (length pre)) with (length (pre ++ [g (v a) b]))
        by (rewrite length_app; cbn; lia).
      rewrite IH by exact Hlen. rewrite <- app_assoc. reflexivity.
    + replace (pre ++ b :: base) with ((pre ++ [b]) ++ base)
        by (rewrite <- app_assoc; reflexivity).
      replace (S (length pre)) with (length (pre ++ [b]))
        by (rewrite length_app; cbn; lia).
      rewrite IH by exact Hlen. rewrite <- app_assoc. reflexivity.
Qed.

Lemma scatter_masked_all {A B C : Type} (P : A -> bool) (v : A -> C) (g : C -> B -> B)
      (l : list A) (base : list B) :
  length base = length l ->
  scatter g base (masked_indices P 0 l) (map v (filter P l))
  = map (fun ab : A * B => if P (fst ab) then g (v (fst ab)) (snd ab) else snd ab)
        (combine l base).
Proof. intro Hlen. exact (scatter_masked P v g l [] base Hlen). Qed.

Lemma map_combine_map {A B C : Type} (F : A * B -> C) (G : A -> B) (l : list A) :
  map F (combine l (map G l)) = map (fun a => F (a, G a)) l.
Proof. induction l as [| a l IH]; cbn; [reflexivity | rewrite IH; reflexivity]. Qed.

Lemma repeat_map {A B : Type} (b : B) (l : list A) :
  repeat b (length l) = map (fun _ => b) l.
Proof. induction l as [| a l IH]; cbn; [reflexivity | rewrite IH; reflexivity]. Qed.

Lemma existsb_false_filter {A : Type} (P : A -> bool) (l : list A) :
  existsb (fun m => m) (map P l) = false -> forall a, In a l -> P a = false.
Proof.
  induction l as [| x l IH]; cbn [map existsb]; intros H a Hin; [destruct Hin |].
  apply orb_false_iff in H. destruct H as [Hx Hl].
  destruct Hin as [<- | Hin]; [exact Hx | apply IH; assumption].
Qed.

Lemma world_to_pixel_projects (self : CameraModel.t) (p : Vec3) :
  CameraModel.world_to_pixel self p
  = if projects self (camera_frame self p)
    then Some (pixel_of self (camera_frame self p)) else None.
Proof.
  unfold CameraModel.world_to_pixel, projects, pixel_of. fold (camera_frame self p).
  cbn [fst snd]. rewrite (Rleb_negb_Rltb (vz (camera_frame self p)) 0).
  destruct (0 <? vz (camera_frame self p)); cbn [negb andb]; reflexivity.
Qed.

Lemma combine_map_map {A B C : Type} (f : A -> B) (g : A -> C) (l : list A) :
  combine (map f l) (map g l) = map (fun a => (f a, g a)) l.
Proof. induction l as [| a l IH]; cbn; [reflexivity | rewrite IH; reflexivity]. Qed.

(** X12.  The vectorised projection agrees with the single-point one at
    every position of a batch of any length: a point that
    [world_to_pixel] projects gets that pixel and a true flag, every other
    point keeps the pixel (0, 0) and a false flag. *)
Theorem X12_batch_projection_pointwise :
  forall (self : CameraModel.t) (pts : list Vec3),
    CameraModel.project_points_batch self pts
    = (map (fun p => match CameraModel.world_to_pixel self p with
                     | Some uv => uv
                     | None => (0, 0)
                     end) pts,
       map (fun p => match CameraModel.world_to_pixel self p with
                     | Some _ => true
                     | None => false
                     end) pts).
Proof.
  intros self pts.
  unfold CameraModel.project_points_batch, CameraModel.world_to_camera_batch.
  rewrite (map_map _ (matvec (transpose (CameraModel.R_cam_to_world self))) pts).
  change (map (fun x => matvec (transpose (CameraModel.R_cam_to_world self))
                               (vsub x (CameraModel.camera_pos_world self))) pts)
    with (map (camera_frame self) pts).
  set (l := map (camera_frame self) pts).
  set (front := fun p : Vec3 => 0 <? vz p).
  assert (Hlen : length pts = length l) by (unfold l; rewrite length_map; reflexivity).
  rewrite Hlen.
  destruct (existsb (fun m => m) (map front l)) eqn:Hany.
  - set (inb := fun q : Vec3 =>
                  (0 <=? fst (pixel_of self q))
                  && (fst (pixel_of self q) <? CameraModel.w_px self)
                  && (0 <=? snd (pixel_of self q))
                  && (snd (pixel_of self q) <? CameraModel.h_px self)).
    set (P := fun q : Vec3 => front q && inb q).
    rewrite select_self.
    rewrite !map_map.
    rewrite (combine_map_map
               (fun x => CameraModel.f_px self * (vx x / vz x) + CameraModel.cx self)
               (fun x => CameraModel.cy self - CameraModel.f_px self * (vy x / vz x))).
    rewrite map_map.
    change (map (fun x : Vec3 =>
                   (0 <=? CameraModel.f_px self * (vx x / vz x) + CameraModel.cx self)
                   && (CameraModel.f_px self * (vx x / vz x) + CameraModel.cx self
                       <? CameraModel.w_px self)
                   && (0 <=? CameraModel.cy self - CameraModel.f_px self * (vy x / vz x))
                   && (CameraModel.cy self - CameraModel.f_px self * (vy x / vz x)
                       <? CameraModel.h_px self))
                (filter front l))
      with (map inb (filter front l)).
    unfold where_. rewrite length_map, select_seq, select_masked.
    rewrite !select_map, !filter_filter.
    fold P.
    rewrite masked_indices_length, !repeat_map.
    rewrite (scatter_masked_all P
               (fun x => CameraModel.f_px self * (vx x / vz x) + CameraModel.cx self)
               (fun x (old : R * R) => (x, snd old)) l
               (map (fun _ => (0, 0)) l)) by (rewrite length_map; reflexivity).
    rewrite map_combine_map. cbn [fst snd].
    rewrite (scatter_masked_all P
               (fun x => CameraModel.cy self - CameraModel.f_px self * (vy x / vz x))
               (fun y (old : R * R) => (fst old, y)) l _)
      by (rewrite length_map; reflexivity).
    rewrite map_combine_map. cbn [fst snd].
    rewrite (scatter_masked_all P (fun _ => true) (fun (b : bool) (_ : bool) => b) l
               (map (fun _ => false) l)) by (rewrite length_map; reflexivity).
    rewrite map_combine_map. cbn [fst snd].
    unfold l. rewrite !map_map.
    f_equal; apply map_ext; intro p; rewrite world_to_pixel_projects;
      change (projects self (camera_frame self p)) with (P (camera_frame self p));
      destruct (P (camera_frame self p)); reflexivity.
  - pose proof (existsb_false_filter front l Hany) as Hnone.
    rewrite !repeat_map. unfold l. rewrite !map_map.
    f_equal; apply map_ext_in; intros p Hin; rewrite world_to_pixel_projects;
      unfold projects;
      change (0 <? vz (camera_frame self p)) with (front (camera_frame self p));
      rewrite (Hnone (camera_frame self p)) by (apply in_map; exact Hin);
      reflexivity.
Qed.

(** ** From a point to its pixel and back along the ray *)

Lemma matmul_identity_r (a : Mat3) : matmul a identity3 = a.
Proof. destruct_mat a. mat_ring. Qed.

Lemma right_inverse_matmul (a b : Mat3) :
  matmul a (transpose a) = identity3 ->
  matmul b (transpose b) = identity3 ->
  matmul (matmul a b) (transpose (matmul a b)) = identity3.
Proof.
  intros Ha Hb.
  rewrite transpose_matmul, matmul_assoc.
  rewrite <- (matmul_assoc b (transpose b) (transpose a)), Hb, matmul_identity_l.
  exact Ha.
Qed.

Lemma rotation_right_inverse (roll_deg pitch_deg yaw_deg : R) :
  let m := CameraModel._create_rotation_matrix roll_deg pitch_deg yaw_deg in
  matmul m (transpose m) = identity3.
Proof.
  cbv zeta. unfold CameraModel._create_rotation_matrix. cbv zeta.
  repeat apply right_inverse_matmul; mat_ring.
  all: try (match goal with
            | |- context [sin ?x] => pose proof (sin2_cos2_mul x); nra
            end).
Qed.

Lemma matvec_transpose (m : Mat3) (v : Vec3) :
  matmul m (transpose m) = identity3 -> matvec m (matvec (transpose m) v) = v.
Proof. intro H. rewrite <- matvec_matmul, H. apply matvec_identity. Qed.

Lemma matvec_vscale (m : Mat3) (x : Vec3) (k : R) :
  matvec m (vscale x k) = vscale (matvec m x) k.
Proof.
  destruct_mat m. destruct x.
  unfold matvec, vscale, dot. cbn [row0 row1 row2 vx vy vz].
  apply vec3_ext; cbn [vx vy vz]; ring.
Qed.

Lemma norm_vscale (v : Vec3) (k : R) :
  0 <= k -> np.linalg_norm (vscale v k) = k * np.linalg_norm v.
Proof.
  intro Hk. rewrite !norm_dot.
  replace (dot (vscale v k) (vscale v k)) with (k * k * dot v v)
    by (unfold dot, vscale; cbn [vx vy vz]; ring).
  rewrite sqrt_mult by (try apply dot_self_nonneg; nra).
  rewrite sqrt_square by exact Hk. reflexivity.
Qed.

(** X13.  For a camera with a positive focal length, when [world_to_pixel]
    gives a point the pixel (u, v) and [pixel_to_ray] normalises the vector
    of that pixel, the ray of the pixel starts at the camera and passes
    through the point, at the distance of the point from the camera. *)
Theorem X13_pixel_ray_reaches_point :
  forall (params : CameraModel.camera_params) (p : Vec3) (u v : R),
    let self := CameraModel.__init__ params in
    let ray := CameraModel.pixel_to_ray self (u, v) in
    0 < CameraModel.f_px self ->
    CameraModel.world_to_pixel self p = Some (u, v) ->
    1e-9 <= np.linalg_norm
              (matvec (CameraModel.R_cam_to_world self) (vec_camera self (u, v))) ->
    fst ray = CameraModel.camera_pos_world self
    /\ 0 < np.linalg_norm (vsub p (CameraModel.camera_pos_world self))
    /\ vadd (fst ray)
            (vscale (snd ray)
                    (np.linalg_norm (vsub p (CameraModel.camera_pos_world self))))
       = p.
Proof.
  intros params p u v.
  intros self ray Hf Hpix Hn.
  assert (Hinv : matmul (CameraModel.R_cam_to_world self)
                        (transpose (CameraModel.R_cam_to_world self)) = identity3).
  { unfold self. rewrite init_rotation. apply rotation_right_inverse. }
  rewrite world_to_pixel_projects in Hpix.
  destruct (projects self (camera_frame self p)) eqn:Hp; [| discriminate].
  assert (Hpair : pixel_of self (camera_frame self p) = (u, v)) by congruence.
  clear Hpix.
  unfold projects in Hp. apply andb_true_iff in Hp. destruct Hp as [Hz _].
  apply Rltb_spec in Hz.
  set (q := camera_frame self p) in *.
  assert (Hu : fst (pixel_of self q) = u) by (rewrite Hpair; reflexivity).
  assert (Hv : snd (pixel_of self q) = v) by (rewrite Hpair; reflexivity).
  clear Hpair.
  set (d := vsub p (CameraModel.camera_pos_world self)).
  assert (Hvec : vec_camera self (u, v) = vscale q (CameraModel.f_px self / vz q)).
  { unfold vec_camera, vscale. cbn [fst snd]. rewrite <- Hu, <- Hv.
    unfold pixel_of. cbn [fst snd].
    apply vec3_ext; cbn [vx vy vz]; field; lra. }
  assert (Hw : matvec (CameraModel.R_cam_to_world self) (vec_camera self (u, v))
               = vscale d (CameraModel.f_px self / vz q)).
  { rewrite Hvec, matvec_vscale. unfold q, camera_frame.
    rewrite (matvec_transpose _ _ Hinv). reflexivity. }
  assert (Hk : 0 < CameraModel.f_px self / vz q)
    by (apply Rdiv_lt_0_compat; assumption).
  subst ray. rewrite pixel_to_ray_cases. cbv zeta. cbn [fst snd].
  rewrite Rltb_false by exact Hn.
  rewrite Hw in Hn |- *. rewrite norm_vscale in Hn |- * by lra.
  pose proof (norm_nonneg d) as Hd0.
  set (n := np.linalg_norm d) in *.
  set (k := CameraModel.f_px self / vz q) in *.
  assert (Hpos : 0 < n).
  { destruct (Rle_lt_or_eq_dec 0 n Hd0) as [Hlt | Heq]; [exact Hlt |].
    rewrite <- Heq in Hn. lra. }
  split; [reflexivity |]. split; [exact Hpos |].
  unfold d, vadd, vscale, vdiv, vsub. cbn [vx vy vz].
  destruct p as [px py pz]. cbn [vx vy vz].
  apply vec3_ext; cbn [vx vy vz]; field; lra.
Qed.

Lemma nadir_projects_origin :
  CameraModel.world_to_pixel nadir_camera (mkVec3 0 0 0) = Some (3, 2).
Proof.
  unfold CameraModel.world_to_pixel. rewrite nadir_rotation.
  change (CameraModel.camera_pos_world nadir_camera) with (mkVec3 0 0 12).
  change (CameraModel.f_px nadir_camera) with 6.
  change (CameraModel.cx nadir_camera) with 3.
  change (CameraModel.cy nadir_camera) with 2.
  change (CameraModel.w_px nadir_camera) with 7.
  change (CameraModel.h_px nadir_camera) with 5.
  unfold matvec, transpose, col0, col1, col2, dot, vsub.
  cbn [row0 row1 row2 vx vy vz].
  rewrite Rleb_false by lra.
  match goal with
  | |- context [6 * (?x / ?z) + 3] => replace (6 * (x / z) + 3) with 3 by (field; lra)
  end.
  match goal with
  | |- context [2 - 6 * (?y / ?z)] => replace (2 - 6 * (y / z)) with 2 by (field; lra)
  end.
  decide_cmp. reflexivity.
Qed.

Lemma X13_pixel_ray_reaches_point_witness :
  let ray := CameraModel.pixel_to_ray nadir_camera (3, 2) in
  fst ray = CameraModel.camera_pos_world nadir_camera
  /\ 0 < np.linalg_norm (vsub (mkVec3 0 0 0) (CameraModel.camera_pos_world nadir_camera))
  /\ vadd (fst ray)
          (vscale (snd ray)
                  (np.linalg_norm
                     (vsub (mkVec3 0 0 0) (CameraModel.camera_pos_world nadir_camera))))
     = mkVec3 0 0 0.
Proof.
  apply (X13_pixel_ray_reaches_point nadir_params (mkVec3 0 0 0) 3 2).
  - cbn. lra.
  - exact nadir_projects_origin.
  - apply nadir_norm_bound.
Defined.

(** ** The footprint of a level camera *)

Lemma level_rotation (params : CameraModel.camera_params) :
  CameraModel.rotation_roll params = 0 ->
  CameraModel.rotation_pitch params = 0 ->
  CameraModel.rotation_yaw params = 0 ->
  CameraModel.R_cam_to_world (CameraModel.__init__ params)
  = mkMat3 (mkVec3 1 0 0) (mkVec3 0 (-1) 0) (mkVec3 0 0 (-1)).
Proof. intros Hr Hp Hy. rewrite init_rotation, Hr, Hp, Hy. apply rotation_zero. Qed.

Lemma level_corner_point (params : CameraModel.camera_params) (ge u v : R) :
  let self := CameraModel.__init__ params in
  let s := (vz (CameraModel.camera_pos_world self) - ge) / CameraModel.f_px self in
  CameraModel.rotation_roll params = 0 ->
  CameraModel.rotation_pitch params = 0 ->
  CameraModel.rotation_yaw params = 0 ->
  1e-9 <= CameraModel.f_px self ->
  corner_point self ge (u, v)
  = (vx (CameraModel.camera_pos_world self) + (u - CameraModel.cx self) * s,
     vy (CameraModel.camera_pos_world self) - (CameraModel.cy self - v) * s).
Proof.
  intros self s Hr Hp Hy Hf. subst s.
  unfold corner_point. rewrite pixel_to_ray_cases. cbv zeta. cbn [fst snd].
  pose proof (norm_ge_z (matvec (CameraModel.R_cam_to_world self)
                                (vec_camera self (u, v)))) as Hn.
  unfold self in Hn |- *. rewrite (level_rotation params Hr Hp Hy) in Hn |- *.
  fold self in Hn |- *.
  set (w := matvec _ (vec_camera self (u, v))) in *.
  assert (Hwx : vx w = u - CameraModel.cx self)
    by (unfold w, matvec, dot, vec_camera; cbn [row0 row1 row2 vx vy vz fst snd]; ring).
  assert (Hwy : vy w = - (CameraModel.cy self - v))
    by (unfold w, matvec, dot, vec_camera; cbn [row0 row1 row2 vx vy vz fst snd]; ring).
  assert (Hwz : vz w = - CameraModel.f_px self)
    by (unfold w, matvec, dot, vec_camera; cbn [row0 row1 row2 vx vy vz fst snd]; ring).
  rewrite Hwz, Rabs_Ropp, Rabs_pos_eq in Hn by lra.
  rewrite Rltb_false by lra.
  unfold CameraModel.plane_parameter, vdiv. cbn [vx vy vz].
  rewrite Hwx, Hwy, Hwz.
  set (n := np.linalg_norm w) in *.
  f_equal; field; lra.
Qed.

Lemma mean_of_equal_roots (a b c d e : R) :
  a = e -> b = e -> c = e -> d = e ->
  (sqrt a + sqrt b + sqrt c + sqrt d) / 4 = sqrt e.
Proof. intros -> -> -> ->. field. Qed.

(** X14.  A camera with zero roll, pitch and yaw and a focal length of at
    least 1e-9 px, above the ground plane, whose four corner rays are
    accepted: the footprint is the axis-parallel rectangle that maps pixel
    (u, v) to (x0 + (u - cx) s, y0 - (cy - v) s) with s = height / focal
    length, taken at the corners (0, 0), (w - 1, 0), (w - 1, h - 1) and
    (0, h - 1); the radius is half the diagonal of that rectangle. *)
Theorem X14_level_camera_footprint :
  forall (params : CameraModel.camera_params) (ge : R),
    let self := CameraModel.__init__ params in
    let x0 := vx (CameraModel.camera_pos_world self) in
    let y0 := vy (CameraModel.camera_pos_world self) in
    let s := (vz (CameraModel.camera_pos_world self) - ge) / CameraModel.f_px self in
    let left := x0 + (0 - CameraModel.cx self) * s in
    let right := x0 + (CameraModel.w_px self - 1 - CameraModel.cx self) * s in
    let top := y0 - (CameraModel.cy self - 0) * s in
    let bottom := y0 - (CameraModel.cy self - (CameraModel.h_px self - 1)) * s in
    CameraModel.rotation_roll params = 0 ->
    CameraModel.rotation_pitch params = 0 ->
    CameraModel.rotation_yaw params = 0 ->
    1e-9 <= CameraModel.f_px self ->
    ge < vz (CameraModel.camera_pos_world self) ->
    Forall (corner_hits self ge) (CameraModel.image_corners self) ->
    CameraModel.compute_ground_coverage self ge
    = ([(left, top); (right, top); (right, bottom); (left, bottom)],
       sqrt (((CameraModel.w_px self - 1) * s / 2) ^ 2
             + ((CameraModel.h_px self - 1) * s / 2) ^ 2)).
Proof.
  intros params ge.
  intros self x0 y0 s left right top bottom Hr Hp Hy Hf Hge Hall.
  unfold CameraModel.compute_ground_coverage.
  rewrite Rleb_false by lra.
  destruct (corner_loop_cases self ge (CameraModel.image_corners self) [])
    as [[_ Hfp] | [Hnot _]]; [| contradiction].
  rewrite Hfp. unfold CameraModel.image_corners. cbn [app map].
  fold self.
  rewrite !(level_corner_point params ge _ _ Hr Hp Hy Hf).
  fold self x0 y0 s. fold left right top bottom.
  cbn [length Nat.eqb negb map fst snd]. rewrite !mean_of_four.
  f_equal.
  apply mean_of_equal_roots; subst left right top bottom; field.
Qed.

Lemma X14_level_camera_footprint_witness :
  CameraModel.compute_ground_coverage nadir_camera 0
  = ([(0 + (0 - 3) * ((12 - 0) / 6), 0 - (2 - 0) * ((12 - 0) / 6));
      (0 + (7 - 1 - 3) * ((12 - 0) / 6), 0 - (2 - 0) * ((12 - 0) / 6));
      (0 + (7 - 1 - 3) * ((12 - 0) / 6), 0 - (2 - (5 - 1)) * ((12 - 0) / 6));
      (0 + (0 - 3) * ((12 - 0) / 6), 0 - (2 - (5 - 1)) * ((12 - 0) / 6))],
     sqrt (((7 - 1) * ((12 - 0) / 6) / 2) ^ 2 + ((5 - 1) * ((12 - 0) / 6) / 2) ^ 2)).
Proof.
  apply (X14_level_camera_footprint nadir_params 0).
  - reflexivity.
  - reflexivity.
  - reflexivity.
  - cbn. lra.
  - cbn. lra.
  - change (CameraModel.image_corners nadir_camera)
      with [(0, 0); (7 - 1, 0); (7 - 1, 5 - 1); (0, 5 - 1)].
    apply Forall_cons; [exact (proj1 (nadir_corner_hits 0 0 ltac:(lra))) |].
    apply Forall_cons; [exact (proj1 (nadir_corner_hits (7 - 1) 0 ltac:(lra))) |].
    apply Forall_cons; [exact (proj1 (nadir_corner_hits (7 - 1) (5 - 1) ltac:(lra))) |].
    apply Forall_cons; [exact (proj1 (nadir_corner_hits 0 (5 - 1) ltac:(lra))) |].
    apply Forall_nil.
Defined.

(** ** The statistics of a report *)

Lemma sum_bounds (l : list R) (a b : R) :
  (forall x, In x l -> a <= x <= b) ->
  INR (length l) * a <= np.sum l <= INR (length l) * b.
Proof.
  induction l as [| h l IH]; intro H.
  - unfold np.sum. cbn. lra.
  - change (np.sum (h :: l)) with (h + np.sum l).
    change (length (h :: l)) with (S (length l)). rewrite S_INR.
    pose proof (H h (or_introl eq_refl)) as Hh.
    specialize (IH (fun x Hx => H x (or_intror Hx))). lra.
Qed.

Lemma sum_squared_deviations (l : list R) (m : R) :
  np.sum (map (fun x => Rabs (x - m) ^ 2) l)
  = np.sum (map (fun x => x * x) l) - 2 * m * np.sum l + INR (length l) * (m * m).
Proof.
  induction l as [| h l IH].
  - unfold np.sum. cbn. lra.
  - cbn [map].
    change (np.sum (?a :: ?tl)) with (a + np.sum tl).
    change (np.sum (h * h :: map (fun x => x * x) l))
      with (h * h + np.sum (map (fun x => x * x) l)).
    change (np.sum (h :: l)) with (h + np.sum l).
    change (length (h :: l)) with (S (length l)). rewrite S_INR, IH.
    replace (Rabs (h - m) ^ 2) with ((h - m) * (h - m))
      by (unfold Rabs; destruct (Rcase_abs (h - m)); ring).
    ring.
Qed.

Lemma sum_nonneg (l : list R) : (forall x, In x l -> 0 <= x) -> 0 <= np.sum l.
Proof.
  intro H. pose proof (sum_bounds l 0 (np.sum l)) as Hb.
  induction l as [| h l IH].
  - unfold np.sum. cbn. lra.
  - change (np.sum (h :: l)) with (h + np.sum l).
    pose proof (H h (or_introl eq_refl)).
    pose proof (IH (fun x Hx => H x (or_intror Hx))
                   (sum_bounds l 0 (np.sum l))). lra.
Qed.

Lemma mean_nonneg (l : list R) :
  l <> [] -> (forall x, In x l -> 0 <= x) -> 0 <= np.mean l.
Proof.
  intros Hne H. unfold np.mean.
  assert (0 < INR (length l)).
  { destruct l; [contradiction |]. apply lt_0_INR. cbn. lia. }
  apply Rmult_le_pos; [apply sum_nonneg; exact H |].
  left. apply Rinv_0_lt_compat. assumption.
Qed.

Lemma statistics_spec (results : list ReportGenerator.result) :
  exists s,
    ReportGenerator._calculate_statistics results = Returned s
    /\ ReportGenerator.count s = length results
    /\ ReportGenerator.min s <= ReportGenerator.mean s <= ReportGenerator.max s
    /\ (forall r, In r results ->
                  ReportGenerator.min s <= ReportGenerator.error_m r
                  <= ReportGenerator.max s)
    /\ ReportGenerator.rmse s * ReportGenerator.rmse s
       = ReportGenerator.mean s * ReportGenerator.mean s
         + ReportGenerator.std s * ReportGenerator.std s.
Proof.
  destruct results as [| r rs].
  - eexists. split; [reflexivity |]. cbn [ReportGenerator.count ReportGenerator.min
      ReportGenerator.max ReportGenerator.mean ReportGenerator.rmse ReportGenerator.std
      length].
    split; [reflexivity |]. split; [lra |].
    split; [intros r0 Hin; destruct Hin | lra].
  - set (results := r :: rs).
    set (errors := map ReportGenerator.error_m results).
    assert (Hcat : concat [errors] = errors) by (cbn [concat]; apply app_nil_r).
    assert (Hcons : errors = ReportGenerator.error_m r :: map ReportGenerator.error_m rs)
      by reflexivity.
    assert (HM : exists M, np.max [errors] = Some M)
      by (unfold np.max, np.reduce; rewrite Hcat, Hcons; eauto).
    assert (Hm : exists m, np.min [errors] = Some m)
      by (unfold np.min, np.reduce; rewrite Hcat, Hcons; eauto).
    destruct HM as [M HM], Hm as [m Hm].
    exists (ReportGenerator.mkStats
              (length errors)
              (sqrt (np.mean (map (fun x => x * x) errors)))
              (np.mean errors) M m (ReportGenerator.np_std errors)).
    split.
    { unfold ReportGenerator._calculate_statistics. fold results. fold errors.
      unfold results at 1. rewrite HM, Hm. reflexivity. }
    cbn [ReportGenerator.count ReportGenerator.min ReportGenerator.max
         ReportGenerator.mean ReportGenerator.rmse ReportGenerator.std].
    apply np_max_some in HM. apply np_min_some in Hm.
    destruct HM as [_ HM], Hm as [_ Hm]. rewrite Hcat in HM, Hm.
    assert (Hlen : 0 < INR (length errors))
      by (rewrite Hcons; apply lt_0_INR; cbn [length]; lia).
    assert (Hbounds : forall x, In x errors -> m <= x <= M)
      by (intros x Hx; split; [apply Hm | apply HM]; exact Hx).
    split; [unfold errors; apply length_map |].
    split.
    { pose proof (sum_bounds errors m M Hbounds) as [Hlo Hhi].
      unfold np.mean. split.
      - apply Rmult_le_reg_r with (INR (length errors)); [exact Hlen |].
        unfold Rdiv. rewrite Rmult_assoc, Rinv_l by lra. lra.
      - apply Rmult_le_reg_r with (INR (length errors)); [exact Hlen |].
        unfold Rdiv. rewrite Rmult_assoc, Rinv_l by lra. lra. }
    split.
    { intros r0 Hin. apply Hbounds. unfold errors. apply in_map. exact Hin. }
    unfold ReportGenerator.np_std. cbv zeta.
    rewrite !sqrt_def.
    + unfold np.mean. rewrite !length_map, sum_squared_deviations.
      field. lra.
    + apply mean_nonneg.
      * rewrite Hcons. discriminate.
      * intros x Hx. apply in_map_iff in Hx. destruct Hx as (y & <- & _).
        apply pow2_ge_0.
    + apply mean_nonneg.
      * rewrite Hcons. discriminate.
      * intros x Hx. apply in_map_iff in Hx. destruct Hx as (y & <- & _). nra.
Qed.

(** X15.  The statistics of a report never raise.  They count the results;
    the minimum and the maximum bound every error and the mean; and the
    squared RMSE is the squared mean plus the squared standard deviation.
    For an empty report every field is zero. *)
Theorem X15_statistics :
  forall results : list ReportGenerator.result,
    ReportGenerator._calculate_statistics []
    = Returned (ReportGenerator.mkStats 0 0 0 0 0 0)
    /\ exists s,
         ReportGenerator._calculate_statistics results = Returned s
         /\ ReportGenerator.count s = length results
         /\ ReportGenerator.min s <= ReportGenerator.mean s <= ReportGenerator.max s
         /\ (forall r, In r results ->
                       ReportGenerator.min s <= ReportGenerator.error_m r
                       <= ReportGenerator.max s)
         /\ ReportGenerator.rmse s * ReportGenerator.rmse s
            = ReportGenerator.mean s * ReportGenerator.mean s
              + ReportGenerator.std s * ReportGenerator.std s.
Proof.
  intro results. split; [reflexivity | apply statistics_spec].
Qed.

Lemma X15_statistics_witness :
  exists s,
    ReportGenerator._calculate_statistics
      [ReportGenerator.mkResult (1, 1) (mkVec3 0 0 0) (mkVec3 3 4 0) 5 (mkVec3 0 0 12) 0;
       ReportGenerator.mkResult (2, 1) (mkVec3 1 0 0) (mkVec3 1 1 0) 1 (mkVec3 0 0 12) 0]
    = Returned s
    /\ ReportGenerator.count s = 2%nat
    /\ ReportGenerator.min s <= ReportGenerator.mean s <= ReportGenerator.max s
    /\ ReportGenerator.rmse s * ReportGenerator.rmse s
       = ReportGenerator.mean s * ReportGenerator.mean s
         + ReportGenerator.std s * ReportGenerator.std s.
Proof.
  destruct (proj2 (X15_statistics
                     [ReportGenerator.mkResult (1, 1) (mkVec3 0 0 0) (mkVec3 3 4 0) 5
                                               (mkVec3 0 0 12) 0;
                      ReportGenerator.mkResult (2, 1) (mkVec3 1 0 0) (mkVec3 1 1 0) 1
                                               (mkVec3 0 0 12) 0]))
    as (s & Hs & Hc & Hb & _ & Hr).
  exists s. repeat split; try assumption; apply Hb.
Defined.

(** ** The projection of the pixels of one camera *)



Section ProcessCamera.

Variable self : GeoreferencingEngine.t.
Hypothesis intersect_returns :
  forall o d, exists r,
    GeoreferencingEngine.intersect_ray_with_dem self o d None None = Returned r.

Variable camera : CameraModel.t.
Variable reference_elevation : R.
Variable waypoint_index : nat.



End ProcessCamera.



(** ** The loop over the pixels and its three-phase variant *)

Section Phases.

Variable self : GeoreferencingEngine.t.
Variable camera : CameraModel.t.
Variable reference_elevation : R.
Variable waypoint_index : nat.

Lemma process_pixel_planar (acc : list ReportGenerator.result) (px : R * R) :
  BackendService.process_pixel self camera reference_elevation waypoint_index acc px
  = (d <- GeoreferencingEngine.georeference_point self px camera ;;
     match GeoreferencingEngine.success d, GeoreferencingEngine.world_x d,
           GeoreferencingEngine.world_y d, GeoreferencingEngine.world_z d with
     | true, Some wx, Some wy, Some wz =>
         Returned (acc ++ planar_results camera reference_elevation waypoint_index
                                         [mkVec3 wx wy wz] [px])
     | _, _, _, _ => Returned acc
     end).
Proof.
  unfold BackendService.process_pixel.
  destruct (GeoreferencingEngine.georeference_point self px camera) as [d | e];
    cbn [bind]; [| reflexivity].
  destruct (GeoreferencingEngine.success d); [| reflexivity].
  destruct (GeoreferencingEngine.world_x d); [| reflexivity].
  destruct (GeoreferencingEngine.world_y d); [| reflexivity].
  destruct (GeoreferencingEngine.world_z d); [| reflexivity].
  unfold planar_results, BackendService.planar_point.
  cbn [combine flat_map fst snd].
  destruct (CameraModel.pixel_to_ray camera px) as [o dir].
  destruct (Rabs (vz dir) <? 1e-9); [rewrite !app_nil_r; reflexivity |].
  destruct (_ <? 0); rewrite !app_nil_r; reflexivity.
Qed.

Lemma georeference_phase_app (pixels : list (R * R)) :
  forall (tp : list Vec3) (vp : list (R * R)),
    BackendService.georeference_phase self camera pixels tp vp
    = (ph <- BackendService.georeference_phase self camera pixels [] [] ;;
       Returned (tp ++ fst ph, vp ++ snd ph)).
Proof.
  induction pixels as [| px rest IH]; intros tp vp;
    cbn [BackendService.georeference_phase bind fst snd].
  - rewrite !app_nil_r. reflexivity.
  - destruct (GeoreferencingEngine.georeference_point self px camera) as [d | e];
      cbn [bind]; [| reflexivity].
    destruct (GeoreferencingEngine.success d); [| apply IH].
    destruct (GeoreferencingEngine.world_x d) as [wx |]; [| apply IH].
    destruct (GeoreferencingEngine.world_y d) as [wy |]; [| apply IH].
    destruct (GeoreferencingEngine.world_z d) as [wz |]; [| apply IH].
    rewrite (IH (tp ++ [mkVec3 wx wy wz]) (vp ++ [px])).
    rewrite (IH ([] ++ [mkVec3 wx wy wz]) ([] ++ [px])).
    destruct (BackendService.georeference_phase self camera rest [] []) as [[a b] | e];
      cbn [bind fst snd]; [| reflexivity].
    rewrite <- !app_assoc. reflexivity.
Qed.

Lemma georeference_phase_lengths (pixels : list (R * R)) :
  forall (tp : list Vec3) (vp a : _) (b : list (R * R)),
    length tp = length vp ->
    BackendService.georeference_phase self camera pixels tp vp = Returned (a, b) ->
    length a = length b.
Proof.
  induction pixels as [| px rest IH]; intros tp vp a b Hlen;
    cbn [BackendService.georeference_phase].
  - intro H. injection H as <- <-. exact Hlen.
  - destruct (GeoreferencingEngine.georeference_point self px camera) as [d | e];
      cbn [bind]; [| discriminate].
    destruct (GeoreferencingEngine.success d); [| apply IH; exact Hlen].
    destruct (GeoreferencingEngine.world_x d) as [wx |]; [| apply IH; exact Hlen].
    destruct (GeoreferencingEngine.world_y d) as [wy |]; [| apply IH; exact Hlen].
    destruct (GeoreferencingEngine.world_z d) as [wz |]; [| apply IH; exact Hlen].
    apply IH. rewrite !length_app. cbn [length]. lia.
Qed.

Lemma planar_results_cons (tp : Vec3) (a : list Vec3) (px : R * R) (b : list (R * R)) :
  planar_results camera reference_elevation waypoint_index (tp :: a) (px :: b)
  = planar_results camera reference_elevation waypoint_index [tp] [px]
    ++ planar_results camera reference_elevation waypoint_index a b.
Proof.
  unfold planar_results. cbn [combine flat_map]. rewrite app_nil_r. reflexivity.
Qed.

Lemma process_pixels_phases (pixels : list (R * R)) :
  forall acc,
    BackendService.process_pixels self camera reference_elevation waypoint_index
                                  acc pixels
    = (ph <- BackendService.georeference_phase self camera pixels [] [] ;;
       Returned (acc ++ planar_results camera reference_elevation waypoint_index
                                       (fst ph) (snd ph))).
Proof.
  induction pixels as [| px rest IH]; intro acc;
    cbn [BackendService.process_pixels BackendService.georeference_phase bind fst snd].
  - unfold planar_results. cbn [combine flat_map]. rewrite app_nil_r. reflexivity.
  - rewrite process_pixel_planar.
    destruct (GeoreferencingEngine.georeference_point self px camera) as [d | e];
      cbn [bind]; [| reflexivity].
    destruct (GeoreferencingEngine.success d); [| apply IH].
    destruct (GeoreferencingEngine.world_x d) as [wx |]; [| apply IH].
    destruct (GeoreferencingEngine.world_y d) as [wy |]; [| apply IH].
    destruct (GeoreferencingEngine.world_z d) as [wz |]; [| apply IH].
    cbn [bind].
    rewrite IH, (georeference_phase_app rest ([] ++ [mkVec3 wx wy wz]) ([] ++ [px])).
    destruct (BackendService.georeference_phase self camera rest [] []) as [[a b] | e];
      cbn [bind fst snd]; [| reflexivity].
    cbn [app]. rewrite (planar_results_cons _ a _ b), <- app_assoc. reflexivity.
Qed.

(** The loop over the indices visits the terrain points and the pixels in
    step. *)
Lemma error_phase_spec (source : option String.string)
      (a2 : list Vec3) :
  forall (b2 : list (R * R)) (a1 : list Vec3) (b1 : list (R * R))
         (acc : list BackendService.result_item),
    length a1 = length b1 -> length a2 = length b2 ->
    fold_left (BackendService.error_step
                 camera waypoint_index source (a1 ++ a2) (b1 ++ b2)
                 (map (BackendService.planar_point camera reference_elevation)
                      (b1 ++ b2)))
              (seq (length b1) (length b2)) acc
    = acc ++ map (fun r => BackendService.mkItem r (BackendService.source_key source))
                 (planar_results camera reference_elevation waypoint_index a2 b2).
Proof.
  induction a2 as [| tp a2 IH]; intros b2 a1 b1 acc H1 H2.
  - destruct b2; [| discriminate]. cbn. rewrite app_nil_r. reflexivity.
  - destruct b2 as [| px b2]; [discriminate |]. injection H2 as H2.
    cbn [length seq fold_left].
    replace (BackendService.error_step
               camera waypoint_index source (a1 ++ tp :: a2) (b1 ++ px :: b2)
               (map (BackendService.planar_point camera reference_elevation)
                    (b1 ++ px :: b2)) acc (length b1))
      with (acc ++ map (fun r => BackendService.mkItem
                                   r (BackendService.source_key source))
                       (planar_results camera reference_elevation waypoint_index
                                       [tp] [px])).
    + replace (a1 ++ tp :: a2) with ((a1 ++ [tp]) ++ a2)
        by (rewrite <- app_assoc; reflexivity).
      replace (b1 ++ px :: b2) with ((b1 ++ [px]) ++ b2)
        by (rewrite <- app_assoc; reflexivity).
      replace (S (length b1)) with (length (b1 ++ [px]))
        by (rewrite length_app; cbn [length]; lia).
      rewrite IH by (rewrite ?length_app; cbn [length]; lia).
      rewrite <- app_assoc, <- map_app, <- (planar_results_cons tp a2 px b2).
      reflexivity.
    + unfold BackendService.error_step, planar_results.
      cbn [combine flat_map fst snd]. rewrite app_nil_r.
      rewrite map_app. cbn [map].
      rewrite <- (length_map (BackendService.planar_point camera reference_elevation) b1)
        at 1.
      rewrite nth_middle.
      destruct (BackendService.planar_point camera reference_elevation px) as [fp |];
        [| cbn [map]; rewrite app_nil_r; reflexivity].
      rewrite (nth_middle b1 b2 px (0, 0)), <- H1, !nth_middle. reflexivity.
Qed.

Lemma batch_agrees_with_loop (pixels : list (R * R)) (source : option String.string) :
  BackendService._process_pixels_batch self camera pixels reference_elevation
                                       waypoint_index source
  = (results <- BackendService.process_pixels
                  self camera reference_elevation waypoint_index [] pixels ;;
     Returned (map (fun r => BackendService.mkItem r (BackendService.source_key source))
                   results)).
Proof.
  unfold BackendService._process_pixels_batch. rewrite process_pixels_phases.
  destruct (BackendService.georeference_phase self camera pixels [] [])
    as [[a b] | e] eqn:Hph; cbn [bind fst snd app]; [| reflexivity].
  pose proof (georeference_phase_lengths pixels [] [] a b eq_refl Hph) as Hlen.
  destruct (length a =? 0)%nat eqn:Hzero.
  - apply Nat.eqb_eq in Hzero. destruct a; [| discriminate]. reflexivity.
  - f_equal.
    exact (error_phase_spec source a b [] [] [] eq_refl Hlen).
Qed.

End Phases.

(** X17.  The three-phase variant of the loop over the pixels gives the
    results of the loop of [_process_camera], in the same order, each with
    the source file name when a non-empty one is passed; it raises exactly
    when the loop raises, with the same exception. *)
Theorem X17_batch_agrees_with_loop :
  forall (self : GeoreferencingEngine.t) (camera : CameraModel.t)
         (reference_elevation : R) (waypoint_index : nat)
         (pixels : list (R * R)) (source : option String.string),
    BackendService._process_pixels_batch self camera pixels reference_elevation
                                         waypoint_index source
    = (results <- BackendService.process_pixels
                    self camera reference_elevation waypoint_index [] pixels ;;
       Returned (map (fun r => BackendService.mkItem
                                 r (BackendService.source_key source))
                     results)).
Proof. exact batch_agrees_with_loop. Qed.

(** ** The camera positions along a flight path *)

Lemma tiled_le (segments : list BackendService.segment) :
  forall s0 total, tiled s0 segments total -> s0 <= total.
Proof.
  induction segments as [| seg rest IH]; intros s0 total H; cbn [tiled] in H.
  - lra.
  - destruct H as (_ & Hlen & Hrest). apply IH in Hrest. lra.
Qed.

Lemma tiled_app (segments : list BackendService.segment) :
  forall s0 total start dir l i,
    tiled s0 segments total -> 1e-6 <= l ->
    tiled s0 (segments ++ [BackendService.mkSegment start dir l total i]) (total + l).
Proof.
  induction segments as [| seg rest IH]; intros s0 total start dir l i H Hl;
    cbn [tiled app] in *.
  - subst s0. cbn [BackendService.start_dist BackendService.len]. auto.
  - destruct H as (Hs & Hlen & Hrest). auto.
Qed.

Lemma build_segments_tiled (nodes : list (R * R)) :
  forall i t acc segments total,
    tiled 0 acc t ->
    BackendService.build_segments nodes i t acc = (segments, total) ->
    tiled 0 segments total.
Proof.
  induction nodes as [| start rest IH]; intros i t acc segments total Hacc Hrun.
  - cbn in Hrun. injection Hrun as <- <-. exact Hacc.
  - cbn [BackendService.build_segments] in Hrun.
    destruct rest as [| end_node rest'].
    + injection Hrun as <- <-. exact Hacc.
    + cbv zeta in Hrun. cbn [fst snd] in Hrun.
      set (l := sqrt _) in Hrun.
      destruct (l <? 1e-6) eqn:Hshort.
      * exact (IH _ _ _ _ _ Hacc Hrun).
      * apply Rltb_nspec in Hshort.
        refine (IH _ _ _ _ _ _ Hrun). apply tiled_app; assumption.
Qed.

Lemma build_segments_short (nodes : list (R * R)) (i : nat) (t : R)
      (acc : list BackendService.segment) :
  (length nodes < 2)%nat -> BackendService.build_segments nodes i t acc = (acc, t).
Proof.
  destruct nodes as [| a [| b rest]]; cbn [length]; intro H; try reflexivity; lia.
Qed.

(** Among legs that tile the distances from [s0] on, the search finds
    the leg of every distance in range, and the legs from that one on
    still tile. *)
Lemma find_segment_tiled (l : list BackendService.segment) :
  forall s0 total k d,
    tiled s0 l total -> l <> [] -> s0 <= d <= total ->
    exists j seg,
      BackendService.find_segment l k d = Some ((j + k)%nat, seg)
      /\ In seg l
      /\ BackendService.start_dist seg <= d
         <= BackendService.start_dist seg + BackendService.len seg + 1e-9
      /\ tiled (BackendService.start_dist seg) (skipn j l) total
      /\ skipn j l <> [].
Proof.
  induction l as [| seg rest IH]; intros s0 total k d Ht Hne Hd; [contradiction |].
  cbn [tiled] in Ht. destruct Ht as (Hs & Hlen & Hrest).
  cbn [BackendService.find_segment].
  rewrite Hs, (Rleb_true s0 d) by lra. cbn [andb].
  destruct (d <=? s0 + BackendService.len seg + 1e-9) eqn:Hin.
  - apply Rleb_spec in Hin. exists O, seg.
    split; [reflexivity |]. split; [left; reflexivity |].
    rewrite Hs. split; [lra |]. cbn [skipn tiled]. rewrite Hs.
    split; [auto | discriminate].
  - apply Rleb_nspec in Hin.
    assert (Hrest_ne : rest <> []).
    { intros ->. cbn [tiled] in Hrest. lra. }
    destruct (IH (s0 + BackendService.len seg) total (S k) d Hrest Hrest_ne
                 ltac:(lra))
      as (j & seg' & Hfind & Hmem & Hb & Ht & Hs').
    exists (S j), seg'.
    split; [rewrite Hfind; f_equal; f_equal; lia |].
    split; [right; exact Hmem |]. split; [exact Hb |].
    cbn [skipn]. split; assumption.
Qed.

Section Photos.

Variable segments : list BackendService.segment.
Variables total interval : R.
Hypothesis legs : tiled 0 segments total.
Hypothesis positive_interval : 0 < interval.

Lemma photo_distance_bounds (k : nat) :
  0 <= photo_distance total interval k <= total
  /\ photo_distance total interval k <= photo_distance total interval (S k).
Proof.
  pose proof (tiled_le _ _ _ legs) as Htot.
  pose proof (pos_INR k) as Hk.
  unfold photo_distance. rewrite S_INR.
  destruct (total <? INR k * interval) eqn:H1;
    [apply Rltb_spec in H1 | apply Rltb_nspec in H1];
    (destruct (total <? (INR k + 1) * interval) eqn:H2;
     [apply Rltb_spec in H2 | apply Rltb_nspec in H2]); nra.
Qed.

Lemma photo_step_found (idx : nat) (cameras : list ((R * R) * BackendService.segment))
      (i : nat) (s0 : R) :
  tiled s0 (skipn idx segments) total ->
  skipn idx segments <> [] ->
  s0 <= photo_distance total interval i ->
  exists idx' seg,
    BackendService.photo_step segments total interval (idx, cameras) i
    = Done (idx',
            cameras ++ [(BackendService.position_on
                           seg (photo_distance total interval i
                                - BackendService.start_dist seg), seg)])
    /\ In seg segments
    /\ BackendService.start_dist seg <= photo_distance total interval i
       <= BackendService.start_dist seg + BackendService.len seg + 1e-9
    /\ tiled (BackendService.start_dist seg) (skipn idx' segments) total
    /\ skipn idx' segments <> [].
Proof.
  intros Ht Hne Hs.
  destruct (photo_distance_bounds i) as [Hd _].
  destruct (find_segment_tiled _ s0 total idx (photo_distance total interval i)
              Ht Hne ltac:(lra))
    as (j & seg & Hfind & Hmem & Hb & Ht' & Hne').
  rewrite skipn_skipn in Ht', Hne'.
  exists (j + idx)%nat, seg.
  split.
  - unfold BackendService.photo_step.
    fold (photo_distance total interval i). rewrite Hfind. reflexivity.
  - split; [| split; [exact Hb | split; assumption]].
    rewrite <- (firstn_skipn idx segments). apply in_or_app. right. exact Hmem.
Qed.

Lemma photo_loop_spec (n : nat) :
  forall (a idx : nat) (cameras : list ((R * R) * BackendService.segment)) (s0 : R),
    tiled s0 (skipn idx segments) total ->
    skipn idx segments <> [] ->
    s0 <= photo_distance total interval a ->
    exists idx' new,
      BackendService.photo_loop segments total interval (seq a n) (idx, cameras)
      = Done (idx', cameras ++ new)
      /\ length new = n
      /\ forall k, (k < n)%nat ->
                   exists seg,
                     nth_error new k
                     = Some (BackendService.position_on
                               seg (photo_distance total interval (a + k)
                                    - BackendService.start_dist seg), seg)
                     /\ In seg segments
                     /\ BackendService.start_dist seg
                        <= photo_distance total interval (a + k)
                        <= BackendService.start_dist seg + BackendService.len seg
                           + 1e-9.
Proof.
  induction n as [| n IH]; intros a idx cameras s0 Ht Hne Hs.
  - exists idx, []. cbn [seq BackendService.photo_loop]. rewrite app_nil_r.
    split; [reflexivity |]. split; [reflexivity |]. intros k Hk. lia.
  - cbn [seq BackendService.photo_loop].
    destruct (photo_step_found idx cameras a s0 Ht Hne Hs)
      as (idx1 & seg & Hstep & Hmem & Hb & Ht1 & Hne1).
    rewrite Hstep.
    destruct (photo_distance_bounds a) as [_ Hmono].
    destruct (IH (S a) idx1
                 (cameras ++ [(BackendService.position_on
                                 seg (photo_distance total interval a
                                      - BackendService.start_dist seg), seg)])
                 _ Ht1 Hne1 ltac:(lra))
      as (idx' & new & Hrun & Hlen & Hall).
    exists idx', ((BackendService.position_on
                     seg (photo_distance total interval a
                          - BackendService.start_dist seg), seg) :: new).
    split; [rewrite Hrun, <- app_assoc; reflexivity |].
    split; [cbn [length]; lia |].
    intros [| k] Hk.
    + rewrite Nat.add_0_r. exists seg. cbn [nth_error]. auto.
    + destruct (Hall k ltac:(lia)) as (seg' & Hn & Hm & Hb').
      replace (a + S k)%nat with (S a + k)%nat by lia.
      exists seg'. cbn [nth_error]. auto.
Qed.

End Photos.

(** X18.  For a positive photo interval and a path with at least one leg
    of 1e-6 or more, the positions are computed without an exception and
    none is skipped: there are as many as photos, photo [k] lies on a leg
    of the path that holds the distance min(k * interval, length) (up to
    1e-9 beyond its end), at that distance less the leg's start distance
    from the leg's start node. *)
Theorem X18_trajectory_positions :
  forall (path_points : list (R * R)) (interval : R)
         (segments : list BackendService.segment) (total : R),
    0 < interval ->
    BackendService.build_segments path_points 0 0 [] = (segments, total) ->
    segments <> [] ->
    exists n cameras,
      BackendService.num_photos segments total interval = Done n
      /\ (1 <= n)%Z
      /\ BackendService.trajectory_positions path_points interval = Done (Some cameras)
      /\ length cameras = Z.to_nat n
      /\ forall k, (k < length cameras)%nat ->
                   exists seg,
                     nth_error cameras k
                     = Some (BackendService.position_on
                               seg (photo_distance total interval k
                                    - BackendService.start_dist seg), seg)
                     /\ In seg segments
                     /\ BackendService.start_dist seg
                        <= photo_distance total interval k
                        <= BackendService.start_dist seg + BackendService.len seg
                           + 1e-9.
Proof.
  intros path_points interval segments total.
  intros Hi Hbuild Hne.
  assert (Hlegs : tiled 0 segments total)
    by (apply (build_segments_tiled path_points 0 0 [] _ _ eq_refl Hbuild)).
  pose proof (tiled_le _ _ _ Hlegs) as Htot.
  assert (Hlong : (length path_points <? 2)%nat = false).
  { apply Nat.ltb_ge. destruct (le_lt_dec 2 (length path_points)) as [H | H];
      [exact H |].
    rewrite build_segments_short in Hbuild by exact H.
    injection Hbuild as <- _. contradiction. }
  assert (Hn : exists n, BackendService.num_photos segments total interval = Done n
                         /\ (1 <= n)%Z).
  { unfold BackendService.num_photos.
    destruct (total <? interval); [exists 1%Z; split; [reflexivity | lia] |].
    rewrite Reqb_false by lra. eexists. split; [reflexivity |].
    assert (H0 : 0 <= total / interval)
      by (apply Rmult_le_pos; [lra | left; apply Rinv_0_lt_compat; lra]).
    unfold int. destruct (Rle_dec 0 (total / interval)); [| contradiction].
    apply Int_part_nonneg in H0. lia. }
  destruct Hn as (n & Hn & Hpos).
  destruct (photo_loop_spec segments total interval Hlegs Hi (Z.to_nat n) 0 0 [] 0
              Hlegs Hne)
    as (idx' & new & Hrun & Hlen & Hall).
  { unfold photo_distance. change (INR 0) with 0.
    rewrite Rmult_0_l, Rltb_false by lra. lra. }
  exists n, new. split; [exact Hn |]. split; [exact Hpos |].
  split.
  - unfold BackendService.trajectory_positions.
    rewrite Hlong, Hbuild, Hn, Hrun. reflexivity.
  - split; [exact Hlen |]. intros k Hk. rewrite Hlen in Hk.
    exact (Hall k Hk).
Qed.

Lemma straight_path_segments :
  BackendService.build_segments [(0, 0); (5, 0)] 0 0 []
  = ([BackendService.mkSegment (0, 0) ((5 - 0) / 5, (0 - 0) / 5) 5 0 0], 0 + 5).
Proof.
  cbn [BackendService.build_segments fst snd]. cbv zeta.
  assert (Hl : sqrt ((5 - 0) * (5 - 0) + (0 - 0) * (0 - 0)) = 5).
  { replace ((5 - 0) * (5 - 0) + (0 - 0) * (0 - 0)) with (5 * 5) by lra.
    apply sqrt_square. lra. }
  rewrite Hl, Rltb_false by lra. reflexivity.
Qed.

Lemma X18_trajectory_positions_witness :
  exists n cameras,
    BackendService.num_photos
      [BackendService.mkSegment (0, 0) ((5 - 0) / 5, (0 - 0) / 5) 5 0 0] (0 + 5) 2
    = Done n
    /\ (1 <= n)%Z
    /\ BackendService.trajectory_positions [(0, 0); (5, 0)] 2 = Done (Some cameras)
    /\ length cameras = Z.to_nat n
    /\ forall k, (k < length cameras)%nat ->
                 exists seg,
                   nth_error cameras k
                   = Some (BackendService.position_on
                             seg (photo_distance (0 + 5) 2 k
                                  - BackendService.start_dist seg), seg)
                   /\ In seg [BackendService.mkSegment
                                (0, 0) ((5 - 0) / 5, (0 - 0) / 5) 5 0 0]
                   /\ BackendService.start_dist seg
                      <= photo_distance (0 + 5) 2 k
                      <= BackendService.start_dist seg + BackendService.len seg
                         + 1e-9.
Proof.
  apply (X18_trajectory_positions [(0, 0); (5, 0)] 2).
  - lra.
  - exact straight_path_segments.
  - discriminate.
Defined.

(** ** The legs of a path *)

Lemma build_segments_legs (path_points nodes : list (R * R)) :
  forall i t acc,
    skipn i path_points = nodes ->
    Forall (leg_of path_points) acc ->
    Forall (leg_of path_points)
           (fst (BackendService.build_segments nodes i t acc)).
Proof.
  induction nodes as [| start rest IH]; intros i t acc Hskip Hacc.
  - exact Hacc.
  - cbn [BackendService.build_segments].
    destruct rest as [| end_node rest']; [exact Hacc |].
    assert (Hnext : skipn (S i) path_points = end_node :: rest').
    { change (S i) with (1 + i)%nat. rewrite <- skipn_skipn, Hskip. reflexivity. }
    cbv zeta. cbn [fst snd]. set (l := sqrt _).
    destruct (l <? 1e-6) eqn:Hshort; [apply IH; assumption |].
    apply Rltb_nspec in Hshort.
    apply IH; [exact Hnext |].
    apply Forall_app. split; [exact Hacc |]. apply Forall_cons; [| constructor].
    assert (Hsq : l * l = (fst end_node - fst start) * (fst end_node - fst start)
                          + (snd end_node - snd start) * (snd end_node - snd start))
      by (apply sqrt_def; apply Rplus_le_le_0_compat; apply Rle_0_sqr).
    unfold leg_of, BackendService.position_on.
    cbn [BackendService.segment_index BackendService.start_node
         BackendService.dir_vec BackendService.len fst snd].
    split; [| split].
    + rewrite <- (Nat.add_0_r i), <- nth_error_skipn, Hskip. reflexivity.
    + rewrite <- (Nat.add_0_r (S i)), <- nth_error_skipn, Hnext.
      cbn [nth_error]. destruct end_node as [ex ey]. cbn [fst snd].
      f_equal. f_equal; field; lra.
    + replace ((fst end_node - fst start) / l * ((fst end_node - fst start) / l)
               + (snd end_node - snd start) / l * ((snd end_node - snd start) / l))
        with (((fst end_node - fst start) * (fst end_node - fst start)
               + (snd end_node - snd start) * (snd end_node - snd start)) / (l * l))
        by (field; lra).
      rewrite <- Hsq. field. lra.
Qed.

(** X19.  The legs built from a path follow one another from distance 0
    to the total length, each at least 1e-6 long; each starts at the path
    point of its index, reaches the next path point after its length, and
    has a direction of length one. *)
Theorem X19_path_legs :
  forall path_points : list (R * R),
    let built := BackendService.build_segments path_points 0 0 [] in
    tiled 0 (fst built) (snd built)
    /\ Forall (leg_of path_points) (fst built).
Proof.
  intros path_points built. split.
  - apply (build_segments_tiled path_points 0 0 [] _ _ eq_refl).
    unfold built. apply surjective_pairing.
  - apply build_segments_legs; [reflexivity | constructor].
Qed.

(** ** A path without a leg *)


